(** * A frustum-shaped building mesh generator, verified

    Shallow embedding of [CG2/obj_generator.js]: the command-line front end
    ([parseInt], [parseFloat], the validation test), the seven loops of
    [main] that fill the arrays [v], [vn] and [f], and the assembly of the
    Wavefront OBJ text.

    JavaScript numbers are IEEE 754 binary64 values: they are embedded as
    the primitive [float]s of the Standard Library, whose operations round
    to nearest, ties to even, exactly as ECMAScript prescribes for [+ - * /]
    and [Math.sqrt].  [Math.cos] and [Math.sin] are left to the
    implementation by ECMAScript away from a few fixed values, so the
    development is parameterised by the approximations they use. *)

From Stdlib Require Import ZArith List String Ascii Bool Lia PeanoNat.
From Stdlib Require Import DecimalString DecimalNat.
From Stdlib Require Import Uint63 PrimFloat SpecFloat FloatOps FloatAxioms.
From Stdlib Require Import Reals Lra.
From Stdlib Require Import Permutation.
Import ListNotations.

Local Open Scope list_scope.
Local Open Scope string_scope.

(** ** The part of the ECMAScript runtime the program calls *)

Module JS.

(** Strings are sequences of code units; the arguments of the program are
    taken with code units below 256, which leaves [StrWhiteSpaceChar] with
    TAB, LF, VT, FF, CR, SP and NBSP. *)
Definition is_white_space (c : ascii) : bool :=
  let n := nat_of_ascii c in
  ((9 <=? n) && (n <=? 13) || (n =? 32) || (n =? 160))%nat.

Fixpoint trim_start (s : list ascii) : list ascii :=
  match s with
  | c :: r => if is_white_space c then trim_start r else s
  | [] => []
  end.

(** Value of a code unit as a digit of the given radix. *)
Definition digit_of (radix : Z) (c : ascii) : option Z :=
  let n := Z.of_nat (nat_of_ascii c) in
  let d :=
    (if (48 <=? n) && (n <=? 57) then n - 48
     else if (97 <=? n) && (n <=? 122) then n - 87
     else if (65 <=? n) && (n <=? 90) then n - 55
     else radix)%Z in
  if (d <? radix)%Z then Some d else None.

(** Longest prefix made of digits, with what follows it. *)
Fixpoint span_digits (radix : Z) (s : list ascii) : list Z * list ascii :=
  match s with
  | c :: r =>
      match digit_of radix c with
      | Some d => let (ds, rest) := span_digits radix r in (d :: ds, rest)
      | None => ([], s)
      end
  | [] => ([], [])
  end.

Definition digits_value (radix : Z) (ds : list Z) : Z :=
  fold_left (fun acc d => acc * radix + d)%Z ds 0%Z.

Definition strip_sign (s : list ascii) : bool * list ascii :=
  match s with
  | "-"%char :: r => (true, r)
  | "+"%char :: r => (false, r)
  | _ => (false, s)
  end.

(** [parseInt(string)] with no radix.  [None] is NaN, [Some z] the integer
    read.  The Number handed back is the binary64 nearest to [z], which
    is [z] itself up to [2 ^ 53] in magnitude; rounding is monotone and
    fixes 3 and 36, so the program's two comparisons of [sides] are
    decided on [z] itself. *)
Definition parseInt (str : string) : option Z :=
  let (neg, s) := strip_sign (trim_start (list_ascii_of_string str)) in
  let (radix, s) :=
    match s with
    | "0"%char :: ("x"%char | "X"%char) :: r => (16%Z, r)
    | _ => (10%Z, s)
    end in
  match fst (span_digits radix s) with
  | [] => None
  | ds => Some (if neg then (- digits_value radix ds)%Z
                else digits_value radix ds)
  end.

(** The binary64 value nearest to [m * 10 ^ e] (ties to even), signed. *)
Definition round_decimal (neg : bool) (m e : Z) : float :=
  match m with
  | Zpos p =>
      match e with
      | Zneg k =>
          SF2Prim (SFdiv prec emax (S754_finite neg p 0)
                                   (S754_finite false (Pos.pow 10 k) 0))
      | _ => SF2Prim (binary_normalize prec emax
                        (if neg then - (m * 10 ^ e) else m * 10 ^ e)%Z 0 false)
      end
  | _ => if neg then neg_zero else zero
  end.

Fixpoint starts_with (p s : list ascii) : bool :=
  match p, s with
  | [], _ => true
  | a :: p', b :: s' => Ascii.eqb a b && starts_with p' s'
  | _ :: _, [] => false
  end.

(** [ExponentPart]: it counts only when an exponent indicator is followed
    by an optional sign and at least one digit. *)
Definition exponent_part (s : list ascii) : Z :=
  match s with
  | ("e"%char | "E"%char) :: r =>
      let (neg, r) := strip_sign r in
      match fst (span_digits 10 r) with
      | [] => 0%Z
      | ds => if neg then (- digits_value 10 ds)%Z else digits_value 10 ds
      end
  | _ => 0%Z
  end.

(** [parseFloat(string)]: the longest prefix of the trimmed string that is
    a [StrDecimalLiteral], rounded to binary64; NaN when there is none. *)
Definition parseFloat (str : string) : float :=
  let (neg, s) := strip_sign (trim_start (list_ascii_of_string str)) in
  if starts_with (list_ascii_of_string "Infinity") s then
    if neg then neg_infinity else infinity
  else
    let (ip, r1) := span_digits 10 s in
    let (fp, r2) :=
      match r1 with
      | "."%char :: r => span_digits 10 r
      | _ => ([], r1)
      end in
    match (ip ++ fp)%list with
    | [] => nan
    | ds => round_decimal neg (digits_value 10 ds)
              (exponent_part r2 - Z.of_nat (List.length fp))%Z
    end.

(** Decimal numeral of a natural number, as template literals print the
    small integers (indices and counts) of the program. *)
Definition show_nat (n : nat) : string :=
  NilZero.string_of_uint (Nat.to_uint n).

(** Digits of the decimal representation of a non-negative integer. *)
Definition show_Z (n : Z) : string :=
  NilZero.string_of_uint (N.to_uint (Z.to_N n)).

(** The exact value of a finite binary64 number is [m * 2 ^ e]. *)
Definition mantissa_exponent (x : float) : Z * Z :=
  match Prim2SF x with
  | S754_finite _ m e => (Zpos m, e)
  | _ => (0%Z, 0%Z)
  end.

(** The integer [n] for which [n / 10 ^ f - x] is closest to zero, the
    larger one when two are as close, for a finite [x >= 0]. *)
Definition scaled_round (f : nat) (x : float) : Z :=
  let (m, e) := mantissa_exponent x in
  let t := (m * 10 ^ Z.of_nat f)%Z in
  match e with
  | Zneg k => ((2 * t + 2 ^ Zpos k) / (2 * 2 ^ Zpos k))%Z
  | _ => (t * 2 ^ e)%Z
  end.

Definition zeros (k : nat) : string :=
  string_of_list_ascii (repeat "0"%char k).

(** [Number.prototype.toFixed(f)], given [Number::toString] for the values
    it defers to: non-finite ones and those of magnitude 1e21 and more. *)
Definition toFixed (toString : float -> string) (f : nat) (x : float)
  : string :=
  if negb (is_finite x) then toString x
  else
    let s := if (x <? 0)%float then "-" else "" in
    let x := if (x <? 0)%float then (- x)%float else x in
    if (0x1.b1ae4d6e2ef5p+69 <=? x)%float then s ++ toString x
    else
      let m := show_Z (scaled_round f x) in
      match f with
      | O => s ++ m
      | _ =>
          let m := if (String.length m <=? f)%nat
                   then zeros (f + 1 - String.length m) ++ m else m in
          let k := String.length m in
          s ++ substring 0 (k - f) m ++ "." ++ substring (k - f) f m
      end.

Definition Math_PI : float := 0x1.921fb54442d18p+1%float.

(** [Math.cos] and [Math.sin]: ECMAScript fixes their values at NaN, at
    the infinities and at the zeros, and leaves the rest to an
    implementation-approximated function, the parameter here. *)
Definition Math_cos (approx : float -> float) (x : float) : float :=
  if is_nan x || is_infinity x then nan
  else if is_zero x then 1%float
  else approx x.

Definition Math_sin (approx : float -> float) (x : float) : float :=
  if is_nan x || is_zero x then x
  else if is_infinity x then nan
  else approx x.

End JS.

(** ** Scalars

    The vector helpers and the closed forms of the mesh are written once,
    over any type with the arithmetic below.  The program runs them on
    binary64 numbers; the exact real numbers are the second instance, used
    to state what the formulas mean geometrically. *)

Class Number (T : Type) : Type := {
  of_nat : nat -> T;
  nadd : T -> T -> T;
  nsub : T -> T -> T;
  nmul : T -> T -> T;
  ndiv : T -> T -> T;
  nsqrt : T -> T
}.

Class Trig (T : Type) : Type := {
  ncos : T -> T;
  nsin : T -> T;
  npi : T
}.

Declare Scope num_scope.
Delimit Scope num_scope with num.
Infix "+" := nadd : num_scope.
Infix "-" := nsub : num_scope.
Infix "*" := nmul : num_scope.
Infix "/" := ndiv : num_scope.

(** A loop counter or a count as a Number: exact below [2 ^ 53]. *)
Definition float_of_nat (n : nat) : float :=
  PrimFloat.of_uint63 (Uint63.of_Z (Z.of_nat n)).

#[global]
Instance float_Number : Number float := {
  of_nat := float_of_nat;
  nadd := PrimFloat.add;
  nsub := PrimFloat.sub;
  nmul := PrimFloat.mul;
  ndiv := PrimFloat.div;
  nsqrt := PrimFloat.sqrt
}.

(** ** The vector helpers *)

Module V3.

(** Modelled from the spec: V3.js, which the program requires, is not among
    the sources.  A Vector3 is an ordered triple of components, read by
    the program as [n[0]], [n[1]], [n[2]]; [create(x, y, z)] constructs a
    vector from three scalars. *)
Record t (T : Type) : Type := create { get0 : T; get1 : T; get2 : T }.

Arguments create {T} _ _ _.
Arguments get0 {T} _.
Arguments get1 {T} _.
Arguments get2 {T} _.

Section Ops.
Context {T : Type} `{Number T}.

(** Modelled from the spec: V3.js is missing; [subtract(a, b)] is the
    component-wise [a - b]. *)
Definition subtract (a b : t T) : t T :=
  create (get0 a - get0 b)%num (get1 a - get1 b)%num (get2 a - get2 b)%num.

(** Modelled from the spec: V3.js is missing; [cross(a, b)] is the
    right-handed product
    [(a.y*b.z - a.z*b.y, a.z*b.x - a.x*b.z, a.x*b.y - a.y*b.x)]. *)
Definition cross (a b : t T) : t T :=
  create (get1 a * get2 b - get2 a * get1 b)%num
         (get2 a * get0 b - get0 a * get2 b)%num
         (get0 a * get1 b - get1 a * get0 b)%num.

(** Modelled from the spec: V3.js is missing; the Euclidean magnitude that
    [normalize] divides by. *)
Definition magnitude (a : t T) : T :=
  nsqrt (get0 a * get0 a + get1 a * get1 a + get2 a * get2 a)%num.

(** Modelled from the spec: V3.js is missing; [normalize(v)] divides each
    component by the Euclidean magnitude of [v], with no guard for a zero
    magnitude. *)
Definition normalize (a : t T) : t T :=
  let m := magnitude a in
  create (get0 a / m)%num (get1 a / m)%num (get2 a / m)%num.

End Ops.
End V3.

(** ** Closed forms of the mesh, following the wording of the specification

    These are what the contents of the arrays are compared with. *)

Section Geometry.
Context {T : Type} `{Number T} `{Trig T}.

(** [angle = (i / sides) * 2 * pi]. *)
Definition ring_angle (sides i : nat) : T :=
  (of_nat i / of_nat sides * of_nat 2 * npi)%num.

(** Bottom ring vertex [i]: [(baseRadius cos angle, 0, baseRadius sin angle)]. *)
Definition bottom_vertex (sides : nat) (r1 : T) (i : nat) : V3.t T :=
  V3.create (r1 * ncos (ring_angle sides i))%num (of_nat 0)
            (r1 * nsin (ring_angle sides i))%num.

(** Top ring vertex [i]: [(topRadius cos angle, height, topRadius sin angle)]. *)
Definition top_vertex (sides : nat) (h r2 : T) (i : nat) : V3.t T :=
  V3.create (r2 * ncos (ring_angle sides i))%num h
            (r2 * nsin (ring_angle sides i))%num.

(** Side normal [i]: [normalize(cross(top[i] - bottom[i],
    bottom[j] - bottom[i]))] with [j = (i + 1) mod sides]. *)
Definition side_normal (sides : nat) (h r1 r2 : T) (i : nat) : V3.t T :=
  let j := (i + 1) mod sides in
  let A := V3.subtract (top_vertex sides h r2 i) (bottom_vertex sides r1 i) in
  let B := V3.subtract (bottom_vertex sides r1 j) (bottom_vertex sides r1 i) in
  V3.normalize (V3.cross A B).

End Geometry.

(** A face record: three vertex indices and the normal index they all
    carry, 1-based. *)
Record face : Type := mk_face {
  fv1 : nat; fv2 : nat; fv3 : nat; fn : nat
}.

(** The two triangles of side [i]: [(Bi, Ti, Bj)] and [(Bj, Ti, Tj)]. *)
Definition side_faces (sides i : nat) : list face :=
  let j := (i + 1) mod sides in
  [ mk_face (1 + i) (sides + 1 + i) (1 + j) (1 + i);
    mk_face (1 + j) (sides + 1 + i) (sides + 1 + j) (1 + i) ].

(** Roof triangle [i]: [(top-center, top[next], top[i])], with the normal
    appended for it. *)
Definition roof_face (sides i : nat) : face :=
  mk_face (2 * sides + 2) (sides + 1 + (i + 1) mod sides) (sides + 1 + i)
          (sides + i + 1).

(** Floor triangle [i]: [(bottom-center, bottom[i], bottom[next])], with
    the normal appended for it. *)
Definition floor_face (sides i : nat) : face :=
  mk_face (2 * sides + 1) (1 + i) (1 + (i + 1) mod sides)
          (2 * sides + i + 1).

(** All the faces, in the order of the specification: the side triangles,
    then the roof, then the floor. *)
Definition faces (sides : nat) : list face :=
  (flat_map (side_faces sides) (seq 0 sides)
   ++ map (roof_face sides) (seq 0 sides)
   ++ map (floor_face sides) (seq 0 sides))%list.

Definition face_in_bounds (sides : nat) (t : face) : Prop :=
  (1 <= fv1 t <= 2 * sides + 2) /\ (1 <= fv2 t <= 2 * sides + 2) /\
  (1 <= fv3 t <= 2 * sides + 2) /\ (1 <= fn t <= 3 * sides).

(** ** The program *)

(** The arrays [main] fills.  [v] holds the vertex lines as generated
    (bottom and top interleaved), [vReorganized] the same lines regrouped
    and followed by the two centers. *)
Record arrays : Type := mk_arrays {
  v : list string;
  vn : list string;
  f : list string;
  bottomVertices : list (V3.t float);
  topVertices : list (V3.t float);
  vReorganized : list string
}.

Definition no_arrays : arrays := mk_arrays [] [] [] [] [] [].

Definition push_v (line : string) (a : arrays) : arrays :=
  mk_arrays (v a ++ [line])%list (vn a) (f a) (bottomVertices a)
            (topVertices a) (vReorganized a).

Definition push_vn (line : string) (a : arrays) : arrays :=
  mk_arrays (v a) (vn a ++ [line])%list (f a) (bottomVertices a)
            (topVertices a) (vReorganized a).

Definition push_f (line : string) (a : arrays) : arrays :=
  mk_arrays (v a) (vn a) (f a ++ [line])%list (bottomVertices a)
            (topVertices a) (vReorganized a).

Definition push_bottomVertices (p : V3.t float) (a : arrays) : arrays :=
  mk_arrays (v a) (vn a) (f a) (bottomVertices a ++ [p])%list
            (topVertices a) (vReorganized a).

Definition push_topVertices (p : V3.t float) (a : arrays) : arrays :=
  mk_arrays (v a) (vn a) (f a) (bottomVertices a)
            (topVertices a ++ [p])%list (vReorganized a).

Definition push_vReorganized (line : string) (a : arrays) : arrays :=
  mk_arrays (v a) (vn a) (f a) (bottomVertices a) (topVertices a)
            (vReorganized a ++ [line])%list.

(** [for (let i = 0; i < n; i++) body]. *)
Definition for_loop {S : Type} (n : nat) (body : nat -> S -> S) (s : S) : S :=
  fold_left (fun s i => body i s) (seq 0 n) s.

(** The same loop when the body may throw ([None]): the exception leaves
    the loop. *)
Definition for_loop_throwing {S : Type} (n : nat)
    (body : nat -> S -> option S) (s : S) : option S :=
  fold_left (fun r i => match r with Some s => body i s | None => None end)
            (seq 0 n) (Some s).

(** What a run of [main] does to the outside. *)
Inductive outcome : Type :=
| Rejected (message : string)
    (* console.error(message); return: no file is written *)
| Wrote (name text : string)
    (* fs.writeFile(name, text, ...) is called *)
| Threw.
    (* an uncaught exception ends the run: no file is written *)

Definition LF : string := String (ascii_of_nat 10) EmptyString.

(** [args[k] ? parse(args[k]) : fallback]: a missing argument is
    [undefined] and an empty one is the empty string, both falsy. *)
Definition argument {A : Type} (args : list string) (k : nat)
    (parse : string -> A) (fallback : A) : A :=
  match nth_error args k with
  | Some s => if String.eqb s "" then fallback else parse s
  | None => fallback
  end.

(** Comparisons of [sides] with a constant, and [isNaN]; a comparison
    with NaN is false. *)
Definition lt_const (sides : option Z) (k : Z) : bool :=
  match sides with Some z => (z <? k)%Z | None => false end.

Definition gt_const (sides : option Z) (k : Z) : bool :=
  match sides with Some z => (z >? k)%Z | None => false end.

Definition isNaN (sides : option Z) : bool :=
  match sides with Some _ => false | None => true end.

(** Line 23, the test that guards the error branch. *)
Definition invalid (sides : option Z) (h r1 r2 : float) : bool :=
  lt_const sides 3 || gt_const sides 36 || isNaN sides
  || (h <=? 0)%float || (r1 <=? 0)%float || (r2 <=? 0)%float.

(** [sides] as a loop bound.  Past the validation it is an integer from 3
    to 36; in general [i < sides] is false from the start when [sides] is
    negative or NaN. *)
Definition loop_bound (sides : option Z) : nat :=
  match sides with Some z => Z.to_nat z | None => 0 end.

Definition error_message : string :=
  "Error: sides debe estar entre 3-36 y h, r1, r2 deben ser > 0".

(** Lines 17-20: the four parameters as [main] reads them. *)
Definition read_sides (args : list string) : option Z :=
  argument args 0 JS.parseInt (Some 8%Z).

Definition read_h (args : list string) : float :=
  argument args 1 JS.parseFloat 6%float.

Definition read_r1 (args : list string) : float :=
  argument args 2 JS.parseFloat 1%float.

(** The default [0.8] is the binary64 number nearest to it. *)
Definition read_r2 (args : list string) : float :=
  argument args 3 JS.parseFloat 0x1.999999999999ap-1%float.

(** A valid parameter set, in the words of the specification. *)
Definition valid_parameters (sides : nat) (h r1 r2 : float) : Prop :=
  3 <= sides <= 36 /\ (0 <? h)%float = true /\ (0 <? r1)%float = true
  /\ (0 <? r2)%float = true.

(** Position [k] of a list in the 1-based indexing of the OBJ format. *)
Definition obj_index {A : Type} (l : list A) (k : nat) : option A :=
  match k with
  | O => None
  | S k' => nth_error l k'
  end.

(** A normal is accepted as a unit vector when its magnitude is within
    [1e-6] of one. *)
Definition unit_within_tolerance (p : V3.t float) : bool :=
  (PrimFloat.abs (V3.magnitude p - 1) <=? 0x1.0c6f7a0b5ed8dp-20)%float.

(** Classes of binary64 values, read on their specification. *)
Definition inf_or_nan (x : float) : Prop :=
  match Prim2SF x with
  | S754_infinity _ | S754_nan => True
  | _ => False
  end.

Definition pinf_or_nan (x : float) : Prop :=
  match Prim2SF x with
  | S754_infinity false | S754_nan => True
  | _ => False
  end.

(** *** The text of the file, line by line *)

Definition is_LF (c : ascii) : bool := Ascii.eqb c (ascii_of_nat 10).

Fixpoint has_LF (s : string) : bool :=
  match s with
  | EmptyString => false
  | String c r => is_LF c || has_LF r
  end.

(** The lines of a text: what lies between its line feeds. *)
Fixpoint lines (s : string) : list string :=
  match s with
  | EmptyString => [EmptyString]
  | String c r =>
      if is_LF c then EmptyString :: lines r
      else match lines r with
           | l :: ls => String c l :: ls
           | [] => [String c EmptyString]
           end
  end.

(** How many of the lines start with the given keyword. *)
Definition count_prefixed (keyword : string) (ls : list string) : nat :=
  List.length (filter (String.prefix keyword) ls).

Module Generator.
Section Program.

(** The host's approximations behind [Math.cos] and [Math.sin], and its
    [Number::toString], which template literals apply to [h], [r1], [r2]
    and to which [toFixed] defers for the values it does not print in
    fixed notation. *)
Variables cos_approx sin_approx : float -> float.
Variable Number_toString : float -> string.

Definition Math_cos : float -> float := JS.Math_cos cos_approx.
Definition Math_sin : float -> float := JS.Math_sin sin_approx.

#[local]
Instance float_Trig : Trig float := {
  ncos := Math_cos;
  nsin := Math_sin;
  npi := JS.Math_PI
}.

Definition fmt (n : float) : string := JS.toFixed Number_toString 4 n.

(** The template literals of the three kinds of line. *)
Definition vertex_line (x y z : float) : string :=
  "v " ++ fmt x ++ " " ++ fmt y ++ " " ++ fmt z.

Definition normal_line (x y z : float) : string :=
  "vn " ++ fmt x ++ " " ++ fmt y ++ " " ++ fmt z.

Definition face_line (t : face) : string :=
  "f " ++ JS.show_nat (fv1 t) ++ "//" ++ JS.show_nat (fn t) ++ " "
       ++ JS.show_nat (fv2 t) ++ "//" ++ JS.show_nat (fn t) ++ " "
       ++ JS.show_nat (fv3 t) ++ "//" ++ JS.show_nat (fn t).

Definition vertex_line_of (p : V3.t float) : string :=
  vertex_line (V3.get0 p) (V3.get1 p) (V3.get2 p).

Definition normal_line_of (p : V3.t float) : string :=
  normal_line (V3.get0 p) (V3.get1 p) (V3.get2 p).

(** Lines 39-55: one bottom and one top vertex per ring position. *)
Definition ring_body (sides : nat) (h r1 r2 : float) (i : nat) (a : arrays)
  : arrays :=
  let angulo := (float_of_nat i / float_of_nat sides * 2 * JS.Math_PI)%float in
  let cos := Math_cos angulo in
  let sin := Math_sin angulo in
  let x_bot := (r1 * cos)%float in
  let z_bot := (r1 * sin)%float in
  let a := push_bottomVertices (V3.create x_bot 0%float z_bot) a in
  let a := push_v (vertex_line x_bot 0 z_bot) a in
  let x_top := (r2 * cos)%float in
  let z_top := (r2 * sin)%float in
  let a := push_topVertices (V3.create x_top h z_top) a in
  push_v (vertex_line x_top h z_top) a.

(** Lines 59-64.  Reading [v] past its end gives [undefined], which
    [join] prints as the empty string: that is the default here. *)
Definition regroup_bottom_body (i : nat) (a : arrays) : arrays :=
  push_vReorganized (nth (i * 2) (v a) "") a.

Definition regroup_top_body (i : nat) (a : arrays) : arrays :=
  push_vReorganized (nth (i * 2 + 1) (v a) "") a.

(** Lines 74-88.  A ring position read past the end of its array is
    [undefined], and the vector helper then throws. *)
Definition side_normal_body (sides : nat) (i : nat) (a : arrays)
  : option arrays :=
  let j := (i + 1) mod sides in
  match nth_error (bottomVertices a) i, nth_error (topVertices a) i,
        nth_error (bottomVertices a) j with
  | Some Bi, Some Ti, Some Bj =>
      let A := V3.subtract Ti Bi in
      let B := V3.subtract Bj Bi in
      let n := V3.normalize (V3.cross A B) in
      Some (push_vn (normal_line (V3.get0 n) (V3.get1 n) (V3.get2 n)) a)
  | _, _, _ => None
  end.

(** Lines 91-107. *)
Definition side_face_body (sides : nat) (i : nat) (a : arrays) : arrays :=
  let j := (i + 1) mod sides in
  let viB := 1 + i in
  let vjB := 1 + j in
  let viT := sides + 1 + i in
  let vjT := sides + 1 + j in
  let vn_idx := 1 + i in
  let a := push_f (face_line (mk_face viB viT vjB vn_idx)) a in
  push_f (face_line (mk_face vjB viT vjT vn_idx)) a.

(** Lines 110-120. *)
Definition roof_body (sides centerTopIndex : nat) (i : nat) (a : arrays)
  : arrays :=
  let current := sides + 1 + i in
  let next := sides + 1 + (i + 1) mod sides in
  let a := push_vn (normal_line 0 1 0) a in
  let vn_idx := List.length (vn a) in
  push_f (face_line (mk_face centerTopIndex next current vn_idx)) a.

(** Lines 123-133. *)
Definition floor_body (sides centerBotIndex : nat) (i : nat) (a : arrays)
  : arrays :=
  let current := 1 + i in
  let next := 1 + (i + 1) mod sides in
  let a := push_vn (normal_line 0 (-1) 0) a in
  let vn_idx := List.length (vn a) in
  push_f (face_line (mk_face centerBotIndex current next vn_idx)) a.

(** Lines 30-133 of [main]: what the specification calls [generate]. *)
Definition generate (sides : nat) (h r1 r2 : float) : option arrays :=
  let a := no_arrays in
  let a := for_loop sides (ring_body sides h r1 r2) a in
  let a := for_loop sides regroup_bottom_body a in
  let a := for_loop sides regroup_top_body a in
  let centerBotIndex := 2 * sides + 1 in
  let a := push_vReorganized (vertex_line 0 0 0) a in
  let centerTopIndex := 2 * sides + 2 in
  let a := push_vReorganized (vertex_line 0 h 0) a in
  match for_loop_throwing sides (side_normal_body sides) a with
  | None => None
  | Some a =>
      let a := for_loop sides (side_face_body sides) a in
      let a := for_loop sides (roof_body sides centerTopIndex) a in
      Some (for_loop sides (floor_body sides centerBotIndex) a)
  end.

(** Lines 136 and 144: the name of the file; [sides] is printed as the
    small integer it is. *)
Definition nombre_archivo (sides : nat) (h r1 r2 : float) : string :=
  "building_" ++ JS.show_nat sides ++ "_" ++ Number_toString h ++ "_"
    ++ Number_toString r1 ++ "_" ++ Number_toString r2 ++ ".obj".

(** The template literal of the header has five lines and ends with a
    line feed. *)
Definition header_lines (sides : nat) (h r1 r2 : float) (nv nn nf : nat)
  : list string :=
  [ "# OBJ file " ++ nombre_archivo sides h r1 r2;
    "# sides: " ++ JS.show_nat sides ++ ", h: " ++ Number_toString h
      ++ ", R_Base: " ++ Number_toString r1
      ++ ", R_Cima: " ++ Number_toString r2;
    "# Vertices totales: " ++ JS.show_nat nv;
    "# Normales totales: " ++ JS.show_nat nn;
    "# Caras totales: " ++ JS.show_nat nf ].

Definition header (sides : nat) (h r1 r2 : float) (nv nn nf : nat) : string :=
  String.concat LF (header_lines sides h r1 r2 nv nn nf ++ [""])%list.

(** Line 143: the lines of the file, joined by line feeds. *)
Definition file_lines (sides : nat) (h r1 r2 : float) (a : arrays)
  : list string :=
  (header sides h r1 r2 (List.length (vReorganized a)) (List.length (vn a))
          (List.length (f a))
   :: vReorganized a ++ vn a ++ f a)%list.

Definition contenido (sides : nat) (h r1 r2 : float) (a : arrays) : string :=
  String.concat LF (file_lines sides h r1 r2 a).

Definition main (args : list string) : outcome :=
  let sides := read_sides args in
  let h := read_h args in
  let r1 := read_r1 args in
  let r2 := read_r2 args in
  if invalid sides h r1 r2 then Rejected error_message
  else
    let sides := loop_bound sides in
    match generate sides h r1 r2 with
    | None => Threw
    | Some a => Wrote (nombre_archivo sides h r1 r2) (contenido sides h r1 r2 a)
    end.

(** The three kinds of line, told apart by their keyword. *)
Definition is_vertex_line (s : string) : Prop :=
  exists x y z, s = vertex_line x y z.
Definition is_normal_line (s : string) : Prop :=
  exists x y z, s = normal_line x y z.
Definition is_face_line (s : string) : Prop := exists t, s = face_line t.

(** *** The arrays in closed form

    The lines the specification expects, written from the closed forms
    above; [generate] is proved to produce exactly these. *)

Definition bottom_line (sides : nat) (r1 : float) (i : nat) : string :=
  vertex_line_of (bottom_vertex sides r1 i).

Definition top_line (sides : nat) (h r2 : float) (i : nat) : string :=
  vertex_line_of (top_vertex sides h r2 i).

Definition side_normal_lines (sides : nat) (h r1 r2 : float) : list string :=
  map (fun i => normal_line_of (side_normal sides h r1 r2 i)) (seq 0 sides).

Definition roof_normal_lines (sides : nat) : list string :=
  repeat (normal_line 0 1 0) sides.

Definition floor_normal_lines (sides : nat) : list string :=
  repeat (normal_line 0 (-1) 0) sides.

Definition side_face_lines (sides : nat) : list string :=
  map face_line (flat_map (side_faces sides) (seq 0 sides)).

Definition roof_face_lines (sides : nat) : list string :=
  map face_line (map (roof_face sides) (seq 0 sides)).

Definition floor_face_lines (sides : nat) : list string :=
  map face_line (map (floor_face sides) (seq 0 sides)).

Definition arrays_spec (sides : nat) (h r1 r2 : float) : arrays :=
  mk_arrays
    (flat_map (fun i => [bottom_line sides r1 i; top_line sides h r2 i])
              (seq 0 sides))
    (side_normal_lines sides h r1 r2 ++ roof_normal_lines sides
       ++ floor_normal_lines sides)%list
    (side_face_lines sides ++ roof_face_lines sides
       ++ floor_face_lines sides)%list
    (map (bottom_vertex sides r1) (seq 0 sides))
    (map (top_vertex sides h r2) (seq 0 sides))
    (map (bottom_line sides r1) (seq 0 sides)
       ++ map (top_line sides h r2) (seq 0 sides)
       ++ [vertex_line 0 0 0; vertex_line 0 h 0])%list.

End Program.
End Generator.

Import Generator.

(** ** A host

    One admissible choice of the three runtime functions, on which the
    theorems are exercised.  The approximations behind [Math.cos] and
    [Math.sin] are truncated power series.  [Number_toString] follows the
    definition of [Number::toString] in radix 10: the shortest digit string
    that reads back as the same number, the closest one among the
    shortest. *)

Module Host.

(** [acc + t1 + t2 + ...] with [t(i+1) = - t(i) * x2 / ((k + 1) * (k + 2))]. *)
Fixpoint series (terms : nat) (x2 term k acc : float) : float :=
  match terms with
  | O => acc
  | S terms' =>
      let term' := (- term * x2 / ((k + 1) * (k + 2)))%float in
      series terms' x2 term' (k + 2)%float (acc + term')%float
  end.

Definition cos_approx (x : float) : float :=
  series 30 (x * x)%float 1%float 0%float 1%float.

Definition sin_approx (x : float) : float :=
  series 30 (x * x)%float x 1%float x.

(** [x < 10 ^ n] for the positive rational [x = num / den]. *)
Definition below_pow10 (num den n : Z) : bool :=
  match n with
  | Zneg k => (num * 10 ^ Zpos k <? den)%Z
  | _ => (num <? den * 10 ^ n)%Z
  end.

(** The least [n >= from] with [num / den < 10 ^ n]. *)
Fixpoint decimal_exponent (fuel : nat) (num den from : Z) : Z :=
  match fuel with
  | O => from
  | S fuel' =>
      if below_pow10 num den from then from
      else decimal_exponent fuel' num den (from + 1)%Z
  end.

(** [floor (num / den / 10 ^ p)]. *)
Definition scaled_floor (num den p : Z) : Z :=
  match p with
  | Zneg k => (num * 10 ^ Zpos k / den)%Z
  | _ => (num / (den * 10 ^ p))%Z
  end.

(** [| s * 10 ^ p - num / den |] as a fraction. *)
Definition distance (num den s p : Z) : Z * Z :=
  match p with
  | Zneg k => (Z.abs (s * den - num * 10 ^ Zpos k), den * 10 ^ Zpos k)%Z
  | _ => (Z.abs (s * 10 ^ p * den - num), den)
  end.

Definition closer (num den : Z) (c1 c2 : Z * Z) : Z * Z :=
  let (a1, b1) := distance num den (fst c1) (snd c1) in
  let (a2, b2) := distance num den (fst c2) (snd c2) in
  match (a1 * b2 ?= a2 * b1)%Z with
  | Lt => c1
  | Gt => c2
  | Eq => if Z.even (fst c1) then c1 else c2
  end.

(** The [k]-digit candidates [(s, p)] with [s * 10 ^ p] rounding to [x]. *)
Definition candidates (x : float) (num den n : Z) (k : nat) : list (Z * Z) :=
  let kz := Z.of_nat k in
  let at_p p := let s := scaled_floor num den p in [(s, p); ((s + 1)%Z, p)] in
  filter (fun c => (10 ^ (kz - 1) <=? fst c)%Z && (fst c <? 10 ^ kz)%Z
                   && PrimFloat.eqb (JS.round_decimal false (fst c) (snd c)) x)
         (at_p (n - kz)%Z ++ at_p (n - kz + 1)%Z)%list.

(** The shortest digits: [(s, n, k)] with [k] least, tried from [k] up. *)
Fixpoint shortest (fuel : nat) (x : float) (num den n : Z) (k : nat)
  : Z * Z * nat :=
  match fuel with
  | O => (0%Z, 0%Z, 1)
  | S fuel' =>
      match candidates x num den n k with
      | [] => shortest fuel' x num den n (S k)
      | c :: cs =>
          let (s, p) := fold_left (closer num den) cs c in
          (s, (p + Z.of_nat k)%Z, k)
      end
  end.

Definition digits_of_positive (x : float) : Z * Z * nat :=
  let (m, e) := JS.mantissa_exponent x in
  let (num, den) :=
    match e with
    | Zneg k => (m, 2 ^ Zpos k)%Z
    | _ => (m * 2 ^ e, 1)%Z
    end in
  shortest 17 x num den (decimal_exponent 700 num den (-330)) 1.

Definition exponent_suffix (n : Z) : string :=
  "e" ++ (if (n - 1 <? 0)%Z then "-" else "+") ++ JS.show_Z (Z.abs (n - 1)).

Definition toString_positive (x : float) : string :=
  let '(s, n, k) := digits_of_positive x in
  let ds := JS.show_Z s in
  if (Z.of_nat k <=? n)%Z && (n <=? 21)%Z then
    ds ++ JS.zeros (Z.to_nat n - k)
  else if (0 <? n)%Z && (n <=? 21)%Z then
    substring 0 (Z.to_nat n) ds ++ "." ++ substring (Z.to_nat n) (k - Z.to_nat n) ds
  else if (-6 <? n)%Z && (n <=? 0)%Z then
    "0." ++ JS.zeros (Z.to_nat (- n)) ++ ds
  else if (k =? 1)%nat then ds ++ exponent_suffix n
  else substring 0 1 ds ++ "." ++ substring 1 (k - 1) ds ++ exponent_suffix n.

Definition Number_toString (x : float) : string :=
  if is_nan x then "NaN"
  else if is_zero x then "0"
  else if is_infinity x then (if (x <? 0)%float then "-Infinity" else "Infinity")
  else if (x <? 0)%float then "-" ++ toString_positive (- x)%float
  else toString_positive x.

(** The program on this host. *)
Definition generate := generate cos_approx sin_approx Number_toString.
Definition main := main cos_approx sin_approx Number_toString.
Definition side_normal : nat -> float -> float -> float -> nat -> V3.t float :=
  @side_normal float float_Number (float_Trig cos_approx sin_approx).

End Host.

(** ** Exact arithmetic

    The real numbers as scalars: the closed forms read over them say what
    the program computes up to rounding. *)

#[global]
Instance R_Number : Number R := {
  of_nat := INR;
  nadd := Rplus;
  nsub := Rminus;
  nmul := Rmult;
  ndiv := Rdiv;
  nsqrt := R_sqrt.sqrt
}.

#[global]
Instance R_Trig : Trig R := {
  ncos := Rtrigo_def.cos;
  nsin := Rtrigo_def.sin;
  npi := PI
}.

(** The scalar product, to tell on which side of a face a normal points. *)
Definition dot (a b : V3.t R) : R :=
  (V3.get0 a * V3.get0 b + V3.get1 a * V3.get1 b + V3.get2 a * V3.get2 b)%R.

(** ** The mesh as a surface *)

Section Surface.
Context {T : Type} `{Number T}.

(** The two center vertices, written by the program as the lines
    [v 0 0 0] and [v 0 h 0]. *)
Definition bottom_center : V3.t T :=
  V3.create (of_nat 0) (of_nat 0) (of_nat 0).

Definition top_center (h : T) : V3.t T :=
  V3.create (of_nat 0) h (of_nat 0).

(** The vector that the right-hand rule gives to the triangle
    [(p, q, r)]: it points to the side from which the three vertices are
    seen counter-clockwise. *)
Definition triangle_normal (p q r : V3.t T) : V3.t T :=
  V3.cross (V3.subtract q p) (V3.subtract r p).

End Surface.

(** The directed edges of a triangle, in the order of its vertices. *)
Definition face_edges (t : face) : list (nat * nat) :=
  [(fv1 t, fv2 t); (fv2 t, fv3 t); (fv3 t, fv1 t)].

Definition edges (fs : list face) : list (nat * nat) :=
  flat_map face_edges fs.

Definition edge_eqb (e1 e2 : nat * nat) : bool :=
  (fst e1 =? fst e2)%nat && (snd e1 =? snd e2)%nat.

(** How many times a directed edge is walked. *)
Definition count_edge (e : nat * nat) (es : list (nat * nat)) : nat :=
  List.length (filter (edge_eqb e) es).

(** A closed surface with one orientation: every directed edge is walked
    once, and once the other way round by the neighbouring triangle. *)
Definition closed_surface (fs : list face) : bool :=
  let es := edges fs in
  forallb (fun e => (count_edge e es =? 1)%nat
                    && (count_edge (snd e, fst e) es =? 1)%nat) es.

(** ** Classes of texts *)

(** Whether a code unit occurs in a text. *)
Fixpoint occurs (c : ascii) (s : string) : bool :=
  match s with
  | EmptyString => false
  | String x r => Ascii.eqb c x || occurs c r
  end.

Definition is_decimal_digit (c : ascii) : bool :=
  let n := nat_of_ascii c in ((48 <=? n) && (n <=? 57))%nat.

(** A text made of decimal digits only. *)
Fixpoint digits_only (s : string) : bool :=
  match s with
  | EmptyString => true
  | String c r => is_decimal_digit c && digits_only r
  end.

(** ** Binary64 values as real numbers

    The operations of the program's numbers are specified on
    [spec_float], the sign, mantissa and exponent of a value.  What follows
    reads a finite value as the real number it stands for, to say how far
    the result of an operation is from the exact one. *)

(** The least exponent, and the exponent a value of a given magnitude is
    written with. *)
Definition emin64 : Z := SpecFloat.emin prec emax.
Definition fexp64 (e : Z) : Z := SpecFloat.fexp prec emax e.

(** What a rounding gives back from the mantissa and the exponent it
    arrives at. *)
Definition rounded (s : bool) (M e : Z) : spec_float :=
  match M with
  | Z0 => S754_zero s
  | Zpos p => if (e <=? emax - prec)%Z then S754_finite s p e
              else S754_infinity s
  | Zneg _ => S754_nan
  end.

Definition bpow (e : Z) : R := powerRZ 2 e.

(** The real number a finite value stands for. *)
Definition SF2R (x : spec_float) : R :=
  match x with
  | S754_finite s m e =>
      ((if s then - IZR (Zpos m) else IZR (Zpos m)) * bpow e)%R
  | _ => 0%R
  end.

Definition SFfinite (x : spec_float) : bool :=
  match x with
  | S754_zero _ | S754_finite _ _ _ => true
  | _ => false
  end.

(** A value with a sign: [v] when [s] is false, [- v] otherwise. *)
Definition signed (s : bool) (v : R) : R := if s then (- v)%R else v.

(** The relative and absolute errors allowed to one operation.  They are
    generous: rounding to nearest gives [2 ^ -53] and [2 ^ -1075]. *)
Definition u64 : R := bpow (-50).
Definition a64 : R := bpow (-1073).

(** [z] is finite and within the bounds of one rounding of [r]. *)
Definition rounds_to (z : spec_float) (r : R) : Prop :=
  SFfinite z = true /\ (Rabs (SF2R z - r) <= u64 * Rabs r + a64)%R.

Definition F2R (x : float) : R := SF2R (Prim2SF x).
Definition finite (x : float) : bool := SFfinite (Prim2SF x).

Definition fl (z : float) (r : R) : Prop :=
  finite z = true /\ (Rabs (F2R z - r) <= u64 * Rabs r + a64)%R.

(** [z] is finite and at most [2 ^ k] in magnitude. *)
Definition below (z : float) (k : Z) : Prop :=
  finite z = true /\ (Rabs (F2R z) <= bpow k)%R.

(** The range of heights and radii in which no product of the normal
    computation overflows or underflows: from [2 ^ -200] to [2 ^ 200]. *)
Definition moderate (x : float) : bool :=
  ((0x1p-200 <=? x) && (x <=? 0x1p+200))%float.

(** Ring positions [i] and [(i + 1) mod sides] are well placed when the
    cosines and sines the host gives there are at most 2 in magnitude and
    the two positions are at least [2 ^ -10] apart in one coordinate.  The
    exact cosines and sines are at most 1, and two successive positions
    of a ring of at most 36 are more than [0.12] apart in one coordinate. *)
Definition well_placed `{Trig float} (sides i : nat) : bool :=
  let j := (i + 1) mod sides in
  let ci := ncos (ring_angle sides i) in
  let si := nsin (ring_angle sides i) in
  let cj := ncos (ring_angle sides j) in
  let sj := nsin (ring_angle sides j) in
  ((abs ci <=? 2) && (abs si <=? 2) && (abs cj <=? 2) && (abs sj <=? 2)
   && ((0x1p-10 <=? abs (cj - ci)) || (0x1p-10 <=? abs (sj - si))))%float.

(** * Properties *)

Local Open Scope list_scope.

(** ** Loops and lists *)

Lemma for_loop_S {S : Type} (n : nat) (body : nat -> S -> S) (s : S) :
  for_loop (Datatypes.S n) body s = body n (for_loop n body s).
Proof.
  unfold for_loop. rewrite seq_S, fold_left_app. reflexivity.
Qed.

Lemma for_loop_throwing_S {S : Type} (n : nat) (body : nat -> S -> option S)
    (s : S) :
  for_loop_throwing (Datatypes.S n) body s =
  match for_loop_throwing n body s with
  | Some s' => body n s'
  | None => None
  end.
Proof.
  unfold for_loop_throwing. rewrite seq_S, fold_left_app. reflexivity.
Qed.

(** In a list of pairs laid out flat, pair [i] sits at positions [2 i] and
    [2 i + 1]. *)
Lemma nth_error_interleaved {A : Type} (g1 g2 : nat -> A) (n start i : nat) :
  i < n ->
  nth_error (flat_map (fun i => [g1 i; g2 i]) (seq start n)) (i * 2)
    = Some (g1 (start + i))
  /\ nth_error (flat_map (fun i => [g1 i; g2 i]) (seq start n)) (i * 2 + 1)
     = Some (g2 (start + i)).
Proof.
  revert start i. induction n as [|n IH]; intros start i Hi; [lia|].
  destruct i as [|i].
  - cbn. rewrite Nat.add_0_r. split; reflexivity.
  - cbn [seq flat_map app]. replace (S i * 2) with (S (S (i * 2))) by lia.
    cbn [nth_error Nat.add]. destruct (IH (S start) i) as [H1 H2]; [lia|].
    rewrite H1, H2. replace (S start + i) with (start + S i) by lia.
    split; reflexivity.
Qed.

Lemma nth_interleaved {A : Type} (g1 g2 : nat -> A) (d : A) (n i : nat) :
  i < n ->
  nth (i * 2) (flat_map (fun i => [g1 i; g2 i]) (seq 0 n)) d = g1 i
  /\ nth (i * 2 + 1) (flat_map (fun i => [g1 i; g2 i]) (seq 0 n)) d = g2 i.
Proof.
  intros Hi. destruct (nth_error_interleaved g1 g2 n 0 i Hi) as [H1 H2].
  split; apply nth_error_nth; assumption.
Qed.

Lemma map_seq_ext {A : Type} (g1 g2 : nat -> A) (n : nat) :
  (forall i, i < n -> g1 i = g2 i) -> map g1 (seq 0 n) = map g2 (seq 0 n).
Proof.
  intros E. apply map_ext_in. intros i Hi. apply in_seq in Hi. apply E. lia.
Qed.

Lemma nth_error_map_seq {A : Type} (g : nat -> A) (n i : nat) :
  i < n -> nth_error (map g (seq 0 n)) i = Some (g i).
Proof.
  intros Hi. rewrite nth_error_map, nth_error_seq.
  destruct (Nat.ltb_spec i n); [reflexivity | lia].
Qed.

Lemma nth_error_repeat_lt {A : Type} (x : A) (n i : nat) :
  i < n -> nth_error (repeat x n) i = Some x.
Proof.
  revert i. induction n as [|n IH]; intros i Hi; [lia|].
  destruct i as [|i]; [reflexivity|]. cbn. apply IH. lia.
Qed.

(** Reading past a first block of known length. *)
Lemma nth_error_skip {A : Type} (l1 l2 : list A) (n i : nat) :
  List.length l1 = n -> nth_error (l1 ++ l2) (n + i) = nth_error l2 i.
Proof.
  intros <-. rewrite nth_error_app2 by lia. f_equal. lia.
Qed.

(** ** A positive number passes the validation *)

Lemma positive_not_le_zero (x : float) :
  (0 <? x)%float = true -> (x <=? 0)%float = false.
Proof.
  rewrite ltb_spec, leb_spec.
  change (Prim2SF 0%float) with (S754_zero false).
  destruct (Prim2SF x) as [s|s| |s m e]; cbn;
    try discriminate; destruct s; (reflexivity || discriminate).
Qed.

Lemma valid_parameters_pass (sides : nat) (h r1 r2 : float) :
  valid_parameters sides h r1 r2 ->
  invalid (Some (Z.of_nat sides)) h r1 r2 = false.
Proof.
  intros [[Hlo Hhi] [Hh [Hr1 Hr2]]]. unfold invalid, lt_const, gt_const, isNaN.
  rewrite (positive_not_le_zero _ Hh), (positive_not_le_zero _ Hr1),
    (positive_not_le_zero _ Hr2).
  destruct (Z.ltb_spec (Z.of_nat sides) 3); [lia|].
  destruct (Z.gtb_spec (Z.of_nat sides) 36); [lia|]. reflexivity.
Qed.

(** What the validation lets through: a number that is not [<= 0] is
    positive, or it is NaN. *)
Lemma not_le_zero (x : float) :
  (x <=? 0)%float = false <-> (0 <? x)%float = true \/ x = nan.
Proof.
  rewrite ltb_spec, leb_spec.
  change (Prim2SF 0%float) with (S754_zero false).
  split.
  - destruct (Prim2SF x) as [s|s| |s m e] eqn:P; cbn.
    + discriminate.
    + destruct s; [discriminate | left; reflexivity].
    + intros _. right. apply Prim2SF_inj. exact P.
    + destruct s; [discriminate | left; reflexivity].
  - intros [H | ->]; [|reflexivity].
    destruct (Prim2SF x) as [s|s| |s m e]; cbn in *;
      try discriminate; destruct s; (reflexivity || discriminate).
Qed.

(** Strictly below is not above or equal, for non-negative finite values. *)
Lemma SFltb_not_SFleb (m mc : positive) (e ec : Z) :
  SFltb (S754_finite false m e) (S754_finite false mc ec) = true ->
  SFleb (S754_finite false mc ec) (S754_finite false m e) = false.
Proof.
  unfold SFltb, SFleb, SFcompare.
  rewrite (Z.compare_antisym e ec).
  replace (Pos.compare_cont Eq mc m) with (CompOpp (Pos.compare_cont Eq m mc))
    by exact (Pos.compare_cont_antisym m mc Eq).
  destruct (e ?= ec)%Z, (Pos.compare_cont Eq m mc); cbn [CompOpp];
    intros C; (discriminate C || reflexivity).
Qed.

(** [toFixed] compares the magnitude of its argument, computed as [x] or
    [- x], with [1e21]: a magnitude below a positive bound is not above
    or equal to it. *)
Lemma magnitude_below (c x : float) (mc : positive) (ec : Z) :
  Prim2SF c = S754_finite false mc ec ->
  (PrimFloat.abs x <? c)%float = true ->
  (c <=? (if (x <? 0)%float then (- x)%float else x))%float = false.
Proof.
  intros Hc. rewrite ltb_spec, abs_spec, Hc.
  assert (E : Prim2SF (if (x <? 0)%float then (- x)%float else x)
              = match Prim2SF x with
                | S754_finite _ m e => S754_finite false m e
                | S754_infinity _ => S754_infinity false
                | y => y
                end).
  { rewrite (ltb_spec x 0). change (Prim2SF 0) with (S754_zero false).
    destruct (Prim2SF x) as [s|s| |s m e] eqn:P; cbn.
    - exact P.
    - destruct s; cbn; [rewrite opp_spec, P | rewrite P]; reflexivity.
    - exact P.
    - destruct s; cbn; [rewrite opp_spec, P | rewrite P]; reflexivity. }
  rewrite leb_spec, E, Hc.
  destruct (Prim2SF x) as [s|s| |s m e];
    [reflexivity | discriminate | discriminate |].
  apply SFltb_not_SFleb.
Qed.

(** ** Values that are not finite *)

Lemma infinity_mul (b : float) : inf_or_nan (infinity * b).
Proof.
  unfold inf_or_nan. rewrite mul_spec.
  change (Prim2SF infinity) with (S754_infinity false).
  destruct (Prim2SF b) as [s|s| |s m e]; exact I.
Qed.

Lemma inf_or_nan_sub (x y : float) : inf_or_nan x -> inf_or_nan (x - y).
Proof.
  unfold inf_or_nan. rewrite sub_spec.
  destruct (Prim2SF x) as [s|s| |s m e]; try contradiction; intros _;
    destruct (Prim2SF y) as [s'|s'| |s' m' e']; try exact I;
    destruct s, s'; exact I.
Qed.

Lemma inf_or_nan_square (x : float) : inf_or_nan x -> pinf_or_nan (x * x).
Proof.
  unfold inf_or_nan, pinf_or_nan. rewrite mul_spec.
  destruct (Prim2SF x) as [s|s| |s m e]; try contradiction; intros _;
    [destruct s|]; exact I.
Qed.

Lemma pinf_or_nan_add (x y : float) : pinf_or_nan x -> pinf_or_nan (x + y).
Proof.
  unfold pinf_or_nan. rewrite add_spec.
  destruct (Prim2SF x) as [s|s| |s m e]; try contradiction;
    [destruct s; try contradiction|]; intros _;
    destruct (Prim2SF y) as [s'|s'| |s' m' e']; try exact I;
    destruct s'; exact I.
Qed.

Lemma pinf_or_nan_sqrt (x : float) :
  pinf_or_nan x -> pinf_or_nan (PrimFloat.sqrt x).
Proof.
  unfold pinf_or_nan. rewrite sqrt_spec.
  destruct (Prim2SF x) as [s|s| |s m e]; try contradiction;
    [destruct s; try contradiction|]; intros _; exact I.
Qed.

Lemma inf_or_nan_div (x m : float) :
  inf_or_nan x -> pinf_or_nan m -> (x / m)%float = nan.
Proof.
  unfold inf_or_nan, pinf_or_nan. intros Hx Hm.
  apply Prim2SF_inj. rewrite div_spec.
  change (Prim2SF nan) with S754_nan.
  destruct (Prim2SF x) as [s|s| |s mx e]; try contradiction;
    destruct (Prim2SF m) as [s'|s'| |s' m' e']; try contradiction;
    reflexivity.
Qed.

Lemma nan_add (y : float) : (nan + y)%float = nan.
Proof.
  apply Prim2SF_inj. rewrite add_spec.
  change (Prim2SF nan) with S754_nan. reflexivity.
Qed.

(** NaN spreads through the arithmetic. *)
Lemma nan_mul_l (y : float) : (nan * y)%float = nan.
Proof.
  apply Prim2SF_inj. rewrite mul_spec.
  change (Prim2SF nan) with S754_nan. reflexivity.
Qed.

Lemma nan_mul_r (x : float) : (x * nan)%float = nan.
Proof.
  apply Prim2SF_inj. rewrite mul_spec.
  change (Prim2SF nan) with S754_nan.
  destruct (Prim2SF x); reflexivity.
Qed.

Lemma nan_sub_l (y : float) : (nan - y)%float = nan.
Proof.
  apply Prim2SF_inj. rewrite sub_spec.
  change (Prim2SF nan) with S754_nan. reflexivity.
Qed.

Lemma nan_sub_r (x : float) : (x - nan)%float = nan.
Proof.
  apply Prim2SF_inj. rewrite sub_spec.
  change (Prim2SF nan) with S754_nan.
  destruct (Prim2SF x); reflexivity.
Qed.

Lemma nan_add_r (x : float) : (x + nan)%float = nan.
Proof.
  apply Prim2SF_inj. rewrite add_spec.
  change (Prim2SF nan) with S754_nan.
  destruct (Prim2SF x); reflexivity.
Qed.

Lemma nan_div_r (x : float) : (x / nan)%float = nan.
Proof.
  apply Prim2SF_inj. rewrite div_spec.
  change (Prim2SF nan) with S754_nan.
  destruct (Prim2SF x); reflexivity.
Qed.

Ltac nan_spreads :=
  repeat (rewrite ?nan_mul_l, ?nan_mul_r, ?nan_sub_l, ?nan_sub_r, ?nan_add,
            ?nan_add_r, ?nan_div_r;
          change (PrimFloat.sqrt nan) with nan).

(** A vector with a NaN component has no magnitude to speak of. *)
Lemma nan_component_not_unit (p : V3.t float) :
  V3.get0 p = nan -> unit_within_tolerance p = false.
Proof.
  destruct p as [x y z]. cbn [V3.get0]. intros ->.
  unfold unit_within_tolerance, V3.magnitude.
  cbn [V3.get0 V3.get1 V3.get2 nadd nmul nsqrt float_Number].
  replace (nan * nan)%float with nan by reflexivity.
  rewrite !nan_add. reflexivity.
Qed.

(** ** The side normals in exact arithmetic *)

Section Exact.
Local Open Scope R_scope.

Lemma cos_lt_1_inside_turn (x : R) : 0 < x < 2 * PI -> cos x < 1.
Proof.
  intros [H0 H1].
  replace x with (2 * (x / 2)) by field.
  rewrite cos_2a_sin.
  assert (Hs : 0 < sin (x / 2)) by (apply sin_gt_0; lra).
  nra.
Qed.

(** Two points of the unit circle at different angles are apart. *)
Lemma chord_positive (a b : R) :
  cos (b - a) < 1 ->
  0 < (cos b - cos a) * (cos b - cos a) + (sin b - sin a) * (sin b - sin a).
Proof.
  intros Hc. rewrite cos_minus in Hc.
  pose proof (sin2_cos2 a) as Ha. pose proof (sin2_cos2 b) as Hb.
  unfold Rsqr in Ha, Hb. nra.
Qed.

(** Consecutive ring positions, the last and the first included, are less
    than a full turn apart. *)
Lemma ring_step_angle (sides i : nat) :
  (2 <= sides)%nat -> (i < sides)%nat ->
  cos (ring_angle sides ((i + 1) mod sides) - ring_angle sides i) < 1.
Proof.
  intros Hs Hi. unfold ring_angle. cbn [of_nat ndiv nmul npi R_Number R_Trig].
  replace (INR 2) with 2 by (cbn; lra).
  assert (Hn : 0 < INR sides) by (apply lt_0_INR; lia).
  pose proof PI_RGT_0 as Hpi.
  destruct (Nat.eq_dec (i + 1) sides) as [E|E].
  - rewrite E, Nat.Div0.mod_same. change (INR 0) with 0.
    replace (0 / INR sides * 2 * PI - INR i / INR sides * 2 * PI)
      with (- (INR i / INR sides * 2 * PI)) by (field; lra).
    rewrite cos_neg. apply cos_lt_1_inside_turn.
    assert (Hi1 : INR i + 1 = INR sides)
      by (rewrite <- E, plus_INR; reflexivity).
    assert (Hi0 : 1 <= INR i) by (apply (le_INR 1); lia).
    split.
    + apply Rmult_lt_0_compat; [|lra]. apply Rmult_lt_0_compat; [|lra].
      apply Rdiv_lt_0_compat; lra.
    + assert (INR i / INR sides < 1).
      { apply Rmult_lt_reg_r with (INR sides); [lra|].
        unfold Rdiv. rewrite Rmult_assoc, Rinv_l by lra. lra. }
      nra.
  - rewrite Nat.mod_small by lia. rewrite plus_INR. change (INR 1) with 1.
    replace ((INR i + 1) / INR sides * 2 * PI - INR i / INR sides * 2 * PI)
      with (2 * PI / INR sides) by (field; lra).
    apply cos_lt_1_inside_turn.
    assert (H2 : 2 <= INR sides) by (apply (le_INR 2); lia).
    split.
    + apply Rdiv_lt_0_compat; lra.
    + apply Rmult_lt_reg_r with (INR sides); [lra|].
      unfold Rdiv. rewrite Rmult_assoc, Rinv_l by lra. nra.
Qed.

Lemma magnitude_normalize (p : V3.t R) :
  0 < V3.get0 p * V3.get0 p + V3.get1 p * V3.get1 p + V3.get2 p * V3.get2 p ->
  V3.magnitude (V3.normalize p) = 1.
Proof.
  intros Hp. destruct p as [x y z]. cbn [V3.get0 V3.get1 V3.get2] in Hp.
  unfold V3.normalize, V3.magnitude.
  cbn [V3.get0 V3.get1 V3.get2 nadd nmul ndiv nsqrt R_Number].
  set (m := R_sqrt.sqrt (x * x + y * y + z * z)).
  assert (Hm : 0 < m) by (apply sqrt_lt_R0; exact Hp).
  assert (Hmm : m * m = x * x + y * y + z * z) by (apply sqrt_sqrt; lra).
  replace (x / m * (x / m) + y / m * (y / m) + z / m * (z / m))
    with ((x * x + y * y + z * z) / (m * m)) by (field; lra).
  rewrite <- Hmm. unfold Rdiv. rewrite Rinv_r by nra. apply sqrt_1.
Qed.

(** Over the reals the cross product of a side never vanishes, and the
    normal has magnitude exactly one. *)
Lemma side_normal_unit_exact (sides : nat) (h r1 r2 : R) (i : nat) :
  (3 <= sides <= 36)%nat -> 0 < h -> 0 < r1 -> 0 < r2 -> (i < sides)%nat ->
  V3.magnitude (side_normal sides h r1 r2 i) = 1.
Proof.
  intros Hs Hh Hr1 Hr2 Hi. unfold side_normal.
  apply magnitude_normalize.
  pose proof (chord_positive _ _ (ring_step_angle sides i ltac:(lia) Hi)) as Hc.
  unfold bottom_vertex, top_vertex, V3.cross, V3.subtract.
  cbn [V3.get0 V3.get1 V3.get2 nadd nsub nmul ndiv nsqrt of_nat ncos nsin
       R_Number R_Trig INR].
  set (ci := cos (ring_angle sides i)) in *.
  set (si := sin (ring_angle sides i)) in *.
  set (cj := cos (ring_angle sides ((i + 1) mod sides))) in *.
  set (sj := sin (ring_angle sides ((i + 1) mod sides))) in *.
  assert (Hhr : 0 < h * r1) by (apply Rmult_lt_0_compat; assumption).
  assert (Hpos : 0 < (h * r1) * (h * r1) *
             ((cj - ci) * (cj - ci) + (sj - si) * (sj - si))).
  { apply Rmult_lt_0_compat; [|exact Hc].
    apply Rmult_lt_0_compat; assumption. }
  match goal with
  | |- 0 < ?c0 * ?c0 + ?c1 * ?c1 + ?c2 * ?c2 =>
      pose proof (Rle_0_sqr c1) as H1; unfold Rsqr in H1;
      replace (c0 * c0 + c1 * c1 + c2 * c2)
        with ((h * r1) * (h * r1) *
                ((cj - ci) * (cj - ci) + (sj - si) * (sj - si)) + c1 * c1)
        by ring
  end.
  lra.
Qed.

(** The sine of the angle between consecutive ring positions is positive:
    the ring turns counter-clockwise, by less than half a turn a step. *)
Lemma ring_step_sine (sides i : nat) :
  (3 <= sides)%nat -> (i < sides)%nat ->
  0 < sin (ring_angle sides ((i + 1) mod sides) - ring_angle sides i).
Proof.
  intros Hs Hi. unfold ring_angle. cbn [of_nat ndiv nmul npi R_Number R_Trig].
  replace (INR 2) with 2 by (cbn; lra).
  assert (H3 : 3 <= INR sides).
  { replace 3 with (INR 3) by (cbn; lra). apply le_INR. lia. }
  pose proof PI_RGT_0 as Hpi.
  assert (Hstep : 0 < 2 * PI / INR sides < PI).
  { split.
    - apply Rdiv_lt_0_compat; lra.
    - apply Rmult_lt_reg_r with (INR sides); [lra|].
      unfold Rdiv. rewrite Rmult_assoc, Rinv_l by lra. nra. }
  destruct (Nat.eq_dec (i + 1) sides) as [E|E].
  - rewrite E, Nat.Div0.mod_same. change (INR 0) with 0.
    assert (Hi1 : INR i = INR sides - 1)
      by (rewrite <- E, plus_INR; cbn; lra).
    rewrite Hi1.
    replace (0 / INR sides * 2 * PI - (INR sides - 1) / INR sides * 2 * PI)
      with (2 * PI / INR sides - 2 * PI) by (field; lra).
    rewrite <- (sin_period _ 1). cbn [INR].
    replace (2 * PI / INR sides - 2 * PI + 2 * 1 * PI)
      with (2 * PI / INR sides) by ring.
    apply sin_gt_0; lra.
  - rewrite Nat.mod_small by lia. rewrite plus_INR. change (INR 1) with 1.
    replace ((INR i + 1) / INR sides * 2 * PI - INR i / INR sides * 2 * PI)
      with (2 * PI / INR sides) by (field; lra).
    apply sin_gt_0; lra.
Qed.

(** X4. Over the reals every side normal points away from the axis: its
    scalar product with the position of bottom vertex [i], which points
    from the axis outwards, is positive.  So the triangle
    [(Bi, Ti, Bj)], whose normal it is, winds counter-clockwise seen from
    outside. *)
Theorem side_normal_points_outward (sides : nat) (h r1 r2 : R) (i : nat) :
  (3 <= sides <= 36)%nat -> 0 < h -> 0 < r1 -> 0 < r2 -> (i < sides)%nat ->
  0 < dot (side_normal sides h r1 r2 i) (bottom_vertex sides r1 i).
Proof.
  intros Hs Hh Hr1 Hr2 Hi.
  pose proof (ring_step_sine sides i ltac:(lia) Hi) as Hsin.
  rewrite sin_minus in Hsin.
  pose proof (chord_positive _ _ (ring_step_angle sides i ltac:(lia) Hi)) as Hc.
  unfold dot, side_normal, V3.normalize, V3.magnitude, V3.cross, V3.subtract,
    bottom_vertex, top_vertex.
  cbn [V3.get0 V3.get1 V3.get2 nadd nsub nmul ndiv nsqrt of_nat ncos nsin
       R_Number R_Trig INR].
  set (ci := cos (ring_angle sides i)) in *.
  set (si := sin (ring_angle sides i)) in *.
  set (cj := cos (ring_angle sides ((i + 1) mod sides))) in *.
  set (sj := sin (ring_angle sides ((i + 1) mod sides))) in *.
  match goal with
  | |- 0 < _ / R_sqrt.sqrt ?s * _ + _ + _ =>
      set (m := R_sqrt.sqrt s);
      assert (Hm : 0 < m)
  end.
  { apply sqrt_lt_R0.
    assert (Hhr : 0 < h * r1) by (apply Rmult_lt_0_compat; assumption).
    assert (Hpos : 0 < (h * r1) * (h * r1) *
               ((cj - ci) * (cj - ci) + (sj - si) * (sj - si))).
    { apply Rmult_lt_0_compat; [|exact Hc].
      apply Rmult_lt_0_compat; assumption. }
    match goal with
    | |- 0 < ?c0 * ?c0 + ?c1 * ?c1 + ?c2 * ?c2 =>
        pose proof (Rle_0_sqr c1) as H1; unfold Rsqr in H1;
        replace (c0 * c0 + c1 * c1 + c2 * c2)
          with ((h * r1) * (h * r1) *
                  ((cj - ci) * (cj - ci) + (sj - si) * (sj - si)) + c1 * c1)
          by ring
    end.
    lra. }
  match goal with
  | |- 0 < ?e =>
      replace e with (h * (r1 * r1) * (sj * ci - cj * si) / m) by (field; lra)
  end.
  apply Rdiv_lt_0_compat; [|exact Hm].
  apply Rmult_lt_0_compat; [|exact Hsin].
  apply Rmult_lt_0_compat; [exact Hh|]. apply Rmult_lt_0_compat; assumption.
Qed.

(** Consecutive ring positions are one [sides]-th of a turn apart, the
    last and the first included. *)
Lemma ring_step_cosine (sides i : nat) :
  (1 <= sides)%nat -> (i < sides)%nat ->
  cos (ring_angle sides ((i + 1) mod sides) - ring_angle sides i)
  = cos (2 * (PI / INR sides)).
Proof.
  intros Hs Hi. unfold ring_angle. cbn [of_nat ndiv nmul npi R_Number R_Trig].
  replace (INR 2) with 2 by (cbn; lra).
  assert (Hn : 0 < INR sides) by (apply lt_0_INR; lia).
  destruct (Nat.eq_dec (i + 1) sides) as [E|E].
  - rewrite E, Nat.Div0.mod_same. change (INR 0) with 0.
    assert (Hi1 : INR i = INR sides - 1)
      by (rewrite <- E, plus_INR; cbn; lra).
    rewrite Hi1.
    replace (0 / INR sides * 2 * PI - (INR sides - 1) / INR sides * 2 * PI)
      with (2 * (PI / INR sides) - 2 * PI) by (field; lra).
    rewrite <- (cos_period _ 1). cbn [INR]. f_equal. ring.
  - rewrite Nat.mod_small by lia. rewrite plus_INR. change (INR 1) with 1.
    f_equal. field. lra.
Qed.

(** The chord between two points of a circle of radius [r] that are
    [2 alpha] apart has length [2 r sin alpha]. *)
Lemma chord_length (r a b alpha : R) :
  0 < r -> 0 <= sin alpha -> cos (b - a) = cos (2 * alpha) ->
  R_sqrt.sqrt ((r * cos b - r * cos a) * (r * cos b - r * cos a)
               + (0 - 0) * (0 - 0)
               + (r * sin b - r * sin a) * (r * sin b - r * sin a))
  = 2 * r * sin alpha.
Proof.
  intros Hr Hs Hc. rewrite cos_minus, cos_2a_sin in Hc.
  pose proof (sin2_cos2 a) as Ha. pose proof (sin2_cos2 b) as Hb.
  unfold Rsqr in Ha, Hb.
  match goal with
  | |- R_sqrt.sqrt ?e = _ =>
      replace e with ((2 * r * sin alpha) * (2 * r * sin alpha)) by nra
  end.
  apply sqrt_square. nra.
Qed.

Ltac exact_components :=
  cbn [V3.get0 V3.get1 V3.get2 nadd nsub nmul ndiv nsqrt of_nat ncos nsin
       R_Number R_Trig INR].

(** The cross product of a side, the vector that [normalize] divides,
    is never the zero vector. *)
Lemma side_cross_nonzero (sides : nat) (h r1 r2 : R) (i : nat) :
  (3 <= sides <= 36)%nat -> 0 < h -> 0 < r1 -> 0 < r2 -> (i < sides)%nat ->
  let n := triangle_normal (bottom_vertex sides r1 i) (top_vertex sides h r2 i)
             (bottom_vertex sides r1 ((i + 1) mod sides)) in
  0 < V3.get0 n * V3.get0 n + V3.get1 n * V3.get1 n + V3.get2 n * V3.get2 n.
Proof.
  intros Hs Hh Hr1 Hr2 Hi.
  pose proof (chord_positive _ _ (ring_step_angle sides i ltac:(lia) Hi)) as Hc.
  unfold triangle_normal, bottom_vertex, top_vertex, V3.cross, V3.subtract.
  exact_components.
  set (ci := cos (ring_angle sides i)) in *.
  set (si := sin (ring_angle sides i)) in *.
  set (cj := cos (ring_angle sides ((i + 1) mod sides))) in *.
  set (sj := sin (ring_angle sides ((i + 1) mod sides))) in *.
  assert (Hhr : 0 < h * r1) by (apply Rmult_lt_0_compat; assumption).
  assert (Hpos : 0 < (h * r1) * (h * r1) *
             ((cj - ci) * (cj - ci) + (sj - si) * (sj - si))).
  { apply Rmult_lt_0_compat; [|exact Hc].
    apply Rmult_lt_0_compat; assumption. }
  match goal with
  | |- 0 < ?c0 * ?c0 + ?c1 * ?c1 + ?c2 * ?c2 =>
      pose proof (Rle_0_sqr c1) as H1; unfold Rsqr in H1;
      replace (c0 * c0 + c1 * c1 + c2 * c2)
        with ((h * r1) * (h * r1) *
                ((cj - ci) * (cj - ci) + (sj - si) * (sj - si)) + c1 * c1)
        by ring
  end.
  lra.
Qed.

(** Scaling a vector by a positive factor does not change its direction. *)
Lemma normalize_scaled (k : R) (p q : V3.t R) :
  0 < k ->
  0 < V3.get0 p * V3.get0 p + V3.get1 p * V3.get1 p + V3.get2 p * V3.get2 p ->
  V3.get0 q = k * V3.get0 p -> V3.get1 q = k * V3.get1 p ->
  V3.get2 q = k * V3.get2 p ->
  V3.normalize q = V3.normalize p.
Proof.
  destruct p as [x y z], q as [x' y' z']. cbn [V3.get0 V3.get1 V3.get2].
  intros Hk Hp -> -> ->. unfold V3.normalize, V3.magnitude. exact_components.
  replace (k * x * (k * x) + k * y * (k * y) + k * z * (k * z))
    with (k * k * (x * x + y * y + z * z)) by ring.
  rewrite sqrt_mult by nra. rewrite sqrt_square by lra.
  set (m := R_sqrt.sqrt (x * x + y * y + z * z)).
  assert (Hm : 0 < m) by (apply sqrt_lt_R0; exact Hp).
  f_equal; field; lra.
Qed.

(** X16. Over the reals the two triangles of a side lie in one plane and
    wind the same way: the unit normal that the right-hand rule gives to
    the second triangle [(Bj, Ti, Tj)] is the side normal, which the
    program computes from the first triangle [(Bi, Ti, Bj)] and writes
    for both. *)
Theorem side_triangles_share_normal (sides : nat) (h r1 r2 : R) (i : nat) :
  (3 <= sides <= 36)%nat -> 0 < h -> 0 < r1 -> 0 < r2 -> (i < sides)%nat ->
  let j := ((i + 1) mod sides)%nat in
  V3.normalize (triangle_normal (bottom_vertex sides r1 j)
                  (top_vertex sides h r2 i) (top_vertex sides h r2 j))
  = side_normal sides h r1 r2 i.
Proof.
  intros Hs Hh Hr1 Hr2 Hi j.
  apply (normalize_scaled (r2 / r1)
           (triangle_normal (bottom_vertex sides r1 i) (top_vertex sides h r2 i)
              (bottom_vertex sides r1 j))).
  - apply Rdiv_lt_0_compat; assumption.
  - apply side_cross_nonzero; assumption.
  - unfold triangle_normal, bottom_vertex, top_vertex, V3.cross, V3.subtract.
    exact_components. field; lra.
  - unfold triangle_normal, bottom_vertex, top_vertex, V3.cross, V3.subtract.
    exact_components. field; lra.
  - unfold triangle_normal, bottom_vertex, top_vertex, V3.cross, V3.subtract.
    exact_components. field; lra.
Qed.

(** X17. Over the reals the winding of the caps agrees with the normals
    written for them: the right-hand rule gives roof triangle
    [(top-center, top[next], top[i])] a vector along [(0, 1, 0)], upwards,
    and floor triangle [(bottom-center, bottom[i], bottom[next])] a vector
    along [(0, -1, 0)], downwards. *)
Theorem roof_and_floor_winding (sides : nat) (h r1 r2 : R) (i : nat) :
  (3 <= sides <= 36)%nat -> 0 < h -> 0 < r1 -> 0 < r2 -> (i < sides)%nat ->
  let next := ((i + 1) mod sides)%nat in
  let roof := triangle_normal (top_center h) (top_vertex sides h r2 next)
                (top_vertex sides h r2 i) in
  let floor := triangle_normal bottom_center (bottom_vertex sides r1 i)
                 (bottom_vertex sides r1 next) in
  (V3.get0 roof = 0 /\ 0 < V3.get1 roof /\ V3.get2 roof = 0)
  /\ (V3.get0 floor = 0 /\ V3.get1 floor < 0 /\ V3.get2 floor = 0).
Proof.
  intros Hs Hh Hr1 Hr2 Hi next roof floor.
  pose proof (ring_step_sine sides i ltac:(lia) Hi) as Hsin.
  rewrite sin_minus in Hsin. fold next in Hsin.
  subst roof floor.
  unfold triangle_normal, top_center, bottom_center, bottom_vertex, top_vertex,
    V3.cross, V3.subtract.
  exact_components.
  set (ci := cos (ring_angle sides i)) in *.
  set (si := sin (ring_angle sides i)) in *.
  set (cj := cos (ring_angle sides next)) in *.
  set (sj := sin (ring_angle sides next)) in *.
  assert (H1 : 0 < r1 * r1) by (apply Rmult_lt_0_compat; assumption).
  assert (H2 : 0 < r2 * r2) by (apply Rmult_lt_0_compat; assumption).
  repeat split; try ring.
  - replace ((r2 * sj - 0) * (r2 * ci - 0) - (r2 * cj - 0) * (r2 * si - 0))
      with (r2 * r2 * (sj * ci - cj * si)) by ring.
    apply Rmult_lt_0_compat; assumption.
  - replace ((r1 * si - 0) * (r1 * cj - 0) - (r1 * ci - 0) * (r1 * sj - 0))
      with (- (r1 * r1 * (sj * ci - cj * si))) by ring.
    assert (0 < r1 * r1 * (sj * ci - cj * si))
      by (apply Rmult_lt_0_compat; assumption).
    lra.
Qed.

(** X18. Over the reals each ring is a regular polygon: the bottom ring
    lies in the plane [y = 0] on the circle of radius [r1] around the axis,
    the top ring in the plane [y = h] on the circle of radius [r2], and
    consecutive vertices of a ring, the last and the first included, are
    all [2 r sin (pi / sides)] apart, which is not zero. *)
Theorem rings_are_regular_polygons (sides : nat) (h r1 r2 : R) (i : nat) :
  (3 <= sides <= 36)%nat -> 0 < h -> 0 < r1 -> 0 < r2 -> (i < sides)%nat ->
  let j := ((i + 1) mod sides)%nat in
  let B := bottom_vertex sides r1 in
  let T := top_vertex sides h r2 in
  V3.get1 (B i) = 0
  /\ V3.get0 (B i) * V3.get0 (B i) + V3.get2 (B i) * V3.get2 (B i) = r1 * r1
  /\ V3.magnitude (V3.subtract (B j) (B i)) = 2 * r1 * sin (PI / INR sides)
  /\ V3.get1 (T i) = h
  /\ V3.get0 (T i) * V3.get0 (T i) + V3.get2 (T i) * V3.get2 (T i) = r2 * r2
  /\ V3.magnitude (V3.subtract (T j) (T i)) = 2 * r2 * sin (PI / INR sides)
  /\ 0 < sin (PI / INR sides).
Proof.
  intros Hs Hh Hr1 Hr2 Hi j B T. subst B T.
  pose proof (ring_step_cosine sides i ltac:(lia) Hi) as Hc. fold j in Hc.
  assert (H3 : 3 <= INR sides).
  { replace 3 with (INR 3) by (cbn; lra). apply le_INR. lia. }
  pose proof PI_RGT_0 as Hpi.
  assert (Hsin : 0 < sin (PI / INR sides)).
  { apply sin_gt_0.
    - apply Rdiv_lt_0_compat; lra.
    - apply Rmult_lt_reg_r with (INR sides); [lra|].
      unfold Rdiv. rewrite Rmult_assoc, Rinv_l by lra. nra. }
  unfold V3.magnitude, V3.subtract, bottom_vertex, top_vertex.
  exact_components.
  pose proof (sin2_cos2 (ring_angle sides i)) as Hu. unfold Rsqr in Hu.
  split; [reflexivity|]. split; [nra|].
  split; [apply chord_length; [lra | lra | exact Hc]|].
  split; [reflexivity|]. split; [nra|].
  split; [|exact Hsin].
  replace (h - h) with (0 - 0) by ring.
  apply chord_length; [lra | lra | exact Hc].
Qed.

(** X19. Over the reals the vertical component of every side normal is a
    positive multiple of [r1 - r2]: the side normals are horizontal when
    the two radii are equal, point upwards when the building narrows
    towards the top and downwards when it widens. *)
Theorem side_normal_tilt (sides : nat) (h r1 r2 : R) (i : nat) :
  (3 <= sides <= 36)%nat -> 0 < h -> 0 < r1 -> 0 < r2 -> (i < sides)%nat ->
  exists k, 0 < k /\ V3.get1 (side_normal sides h r1 r2 i) = k * (r1 - r2).
Proof.
  intros Hs Hh Hr1 Hr2 Hi.
  pose proof (ring_step_sine sides i ltac:(lia) Hi) as Hsin.
  rewrite sin_minus in Hsin.
  pose proof (side_cross_nonzero sides h r1 r2 i Hs Hh Hr1 Hr2 Hi) as Hn.
  cbv zeta in Hn.
  unfold side_normal, V3.normalize, V3.magnitude.
  change (V3.cross _ _)
    with (triangle_normal (bottom_vertex sides r1 i) (top_vertex sides h r2 i)
            (bottom_vertex sides r1 ((i + 1) mod sides))).
  set (n := triangle_normal _ _ _) in *.
  exact_components.
  set (m := R_sqrt.sqrt _).
  assert (Hm : 0 < m) by (apply sqrt_lt_R0; exact Hn).
  exists (r1 * (sin (ring_angle sides ((i + 1) mod sides))
                * cos (ring_angle sides i)
                - cos (ring_angle sides ((i + 1) mod sides))
                  * sin (ring_angle sides i)) / m).
  split.
  - apply Rdiv_lt_0_compat; [|exact Hm]. apply Rmult_lt_0_compat; assumption.
  - subst n.
    unfold triangle_normal, bottom_vertex, top_vertex, V3.cross, V3.subtract.
    exact_components. field. lra.
Qed.

End Exact.

(** ** Binary64 arithmetic, one rounding at a time

    The Standard Library specifies the operations on [spec_float] by the
    algorithm that rounds; this part derives from it the usual bound on
    the error of one operation, for the real numbers the values stand
    for. *)

Section Rounding.
Local Open Scope Z_scope.

Lemma emin64_value : emin64 = -1074.
Proof. reflexivity. Qed.

Lemma fexp64_value (x : Z) : fexp64 x = Z.max (x - 53) (-1074).
Proof. reflexivity. Qed.

Lemma digits2_pos_bounds (p : positive) :
  2 ^ (Zpos (digits2_pos p) - 1) <= Zpos p < 2 ^ Zpos (digits2_pos p).
Proof.
  induction p as [p IH|p IH|]; cbn [digits2_pos].
  - rewrite Pos2Z.inj_succ.
    replace (Z.succ (Zpos (digits2_pos p)) - 1) with (Zpos (digits2_pos p)) by lia.
    rewrite Z.pow_succ_r by lia.
    replace (2 ^ Zpos (digits2_pos p))
      with (2 * 2 ^ (Zpos (digits2_pos p) - 1)) in *
      by (rewrite <- Z.pow_succ_r by lia; f_equal; lia).
    lia.
  - rewrite Pos2Z.inj_succ.
    replace (Z.succ (Zpos (digits2_pos p)) - 1) with (Zpos (digits2_pos p)) by lia.
    rewrite Z.pow_succ_r by lia.
    replace (2 ^ Zpos (digits2_pos p))
      with (2 * 2 ^ (Zpos (digits2_pos p) - 1)) in *
      by (rewrite <- Z.pow_succ_r by lia; f_equal; lia).
    lia.
  - cbn. lia.
Qed.

Lemma Zdigits2_bounds (m : Z) :
  0 < m -> 2 ^ (Zdigits2 m - 1) <= m < 2 ^ Zdigits2 m.
Proof.
  destruct m as [|p|p]; try lia. intros _. apply digits2_pos_bounds.
Qed.

Lemma Zdigits2_nonneg (m : Z) : 0 <= Zdigits2 m.
Proof. destruct m; cbn; lia. Qed.

Lemma Zdigits2_pos (m : Z) : 0 < m -> 0 < Zdigits2 m.
Proof. destruct m; cbn; lia. Qed.

(** Digits are determined by the bounds. *)
Lemma Zdigits2_unique (m d : Z) :
  0 < m -> 2 ^ (d - 1) <= m < 2 ^ d -> Zdigits2 m = d.
Proof.
  intros Hm [H1 H2].
  pose proof (Zdigits2_bounds m Hm) as [B1 B2].
  pose proof (Zdigits2_pos m Hm) as Hd.
  assert (0 < d).
  { destruct (Z.lt_ge_cases 0 d) as [|C]; [assumption|].
    destruct (Z.eq_dec d 0) as [->|]; [cbn in H2; lia|].
    rewrite Z.pow_neg_r in H2 by lia. lia. }
  destruct (Z.lt_trichotomy (Zdigits2 m) d) as [C|[C|C]]; [|exact C|].
  - assert (2 ^ Zdigits2 m <= 2 ^ (d - 1)) by (apply Z.pow_le_mono_r; lia). lia.
  - assert (2 ^ d <= 2 ^ (Zdigits2 m - 1)) by (apply Z.pow_le_mono_r; lia). lia.
Qed.

Lemma Zdigits2_le (m n : Z) : 0 < m -> m <= n -> Zdigits2 m <= Zdigits2 n.
Proof.
  intros Hm Hn.
  pose proof (Zdigits2_bounds m Hm) as [B1 _].
  pose proof (Zdigits2_bounds n ltac:(lia)) as [_ B2].
  destruct (Z.le_gt_cases (Zdigits2 m) (Zdigits2 n)) as [|C]; [assumption|].
  assert (2 ^ Zdigits2 n <= 2 ^ (Zdigits2 m - 1)) by (apply Z.pow_le_mono_r; lia).
  lia.
Qed.

(** ** Shifting right *)

Lemma shr_1_m (mrs : shr_record) :
  0 <= shr_m mrs -> shr_m (shr_1 mrs) = shr_m mrs / 2.
Proof.
  destruct mrs as [m r s]. cbn [shr_m]. intros Hm.
  destruct m as [|[p|p|]|p]; cbn [shr_1 shr_m]; try lia.
  - reflexivity.
  - apply Z.div_unique with 1; lia.
  - apply Z.div_unique with 0; lia.
  - reflexivity.
Qed.

Lemma shr_iter_m (p : positive) (mrs : shr_record) :
  0 <= shr_m mrs ->
  shr_m (SpecFloat.iter_pos shr_1 p mrs) = shr_m mrs / 2 ^ Zpos p.
Proof.
  revert mrs. induction p as [p IH|p IH|]; intros mrs Hm; cbn [SpecFloat.iter_pos].
  - assert (H1 : 0 <= shr_m (shr_1 mrs))
      by (rewrite shr_1_m by exact Hm; apply Z.div_pos; lia).
    assert (H2 : 0 <= shr_m (SpecFloat.iter_pos shr_1 p (shr_1 mrs)))
      by (rewrite IH by exact H1; apply Z.div_pos; [exact H1 | lia]).
    rewrite IH, IH, shr_1_m by assumption.
    rewrite !Z.div_div by lia. f_equal.
    replace (Z.pos p~1) with (1 + Z.pos p + Z.pos p) by lia.
    rewrite !Z.pow_add_r by lia. change (2 ^ 1) with 2. ring.
  - assert (H2 : 0 <= shr_m (SpecFloat.iter_pos shr_1 p mrs))
      by (rewrite IH by exact Hm; apply Z.div_pos; [exact Hm | lia]).
    rewrite IH, IH by assumption.
    rewrite !Z.div_div by lia. f_equal.
    replace (Z.pos p~0) with (Z.pos p + Z.pos p) by lia.
    rewrite !Z.pow_add_r by lia. ring.
  - rewrite shr_1_m by exact Hm. reflexivity.
Qed.

Lemma shr_record_of_loc_m (m : Z) (l : location) :
  shr_m (shr_record_of_loc m l) = m.
Proof. destruct l as [|[]]; reflexivity. Qed.

Lemma loc_of_shr_record_of_loc (m : Z) (l : location) :
  loc_of_shr_record (shr_record_of_loc m l) = l.
Proof. destruct l as [|[]]; reflexivity. Qed.

(** What [shr_fexp] leaves: the mantissa divided by a power of two. *)
Lemma shr_fexp_spec (m e : Z) (l : location) :
  0 <= m ->
  let n := fexp64 (Zdigits2 m + e) - e in
  let '(mrs, e') := shr_fexp prec emax m e l in
  shr_m mrs = m / 2 ^ Z.max 0 n /\ e' = e + Z.max 0 n
  /\ (n <= 0 -> loc_of_shr_record mrs = l).
Proof.
  intros Hm n. unfold shr_fexp, shr. fold (fexp64 (Zdigits2 m + e)). fold n.
  destruct n as [|p|p] eqn:E.
  - cbn [Z.max]. rewrite shr_record_of_loc_m, Z.div_1_r, Z.add_0_r.
    repeat split. intros _. apply loc_of_shr_record_of_loc.
  - rewrite shr_iter_m by (rewrite shr_record_of_loc_m; exact Hm).
    rewrite shr_record_of_loc_m.
    replace (Z.max 0 (Zpos p)) with (Zpos p) by lia.
    repeat split. lia.
  - replace (Z.max 0 (Zneg p)) with 0 by lia.
    rewrite shr_record_of_loc_m, Z.div_1_r, Z.add_0_r.
    repeat split. intros _. apply loc_of_shr_record_of_loc.
Qed.

Lemma round_nearest_even_bounds (m : Z) (l : location) :
  m <= round_nearest_even m l <= m + 1
  /\ (l = loc_Exact -> round_nearest_even m l = m).
Proof.
  destruct l as [|[]]; cbn [round_nearest_even]; try (split; [lia | reflexivity || discriminate]);
    try (split; [lia | discriminate]).
  destruct (Z.even m); split; (lia || discriminate).
Qed.

Lemma fexp64_mono (x y : Z) : x <= y -> fexp64 x <= fexp64 y.
Proof. rewrite !fexp64_value. lia. Qed.

Lemma fexp64_ge_emin (x : Z) : -1074 <= fexp64 x.
Proof. rewrite fexp64_value. lia. Qed.

Lemma pow2_pos (k : Z) : 0 <= k -> 0 < 2 ^ k.
Proof. intros. apply Z.pow_pos_nonneg; lia. Qed.

Lemma div_pow2_bounds (m k : Z) :
  0 <= m -> 0 <= k ->
  m / 2 ^ k * 2 ^ k <= m /\ m + 1 <= (m / 2 ^ k + 1) * 2 ^ k /\ 0 <= m / 2 ^ k.
Proof.
  intros Hm Hk. pose proof (pow2_pos k Hk) as Hp.
  pose proof (Z.div_mod m (2 ^ k) ltac:(lia)) as D.
  pose proof (Z.mod_pos_bound m (2 ^ k) Hp) as B.
  assert (0 <= m / 2 ^ k) by (apply Z.div_pos; lia).
  nia.
Qed.

Lemma Zdigits2_div_pow2 (m k : Z) :
  0 < m -> 0 <= k -> 0 < m / 2 ^ k ->
  Zdigits2 (m / 2 ^ k) = Zdigits2 m - k.
Proof.
  intros Hm Hk Hq.
  pose proof (Zdigits2_bounds m Hm) as [B1 B2].
  pose proof (Zdigits2_pos m Hm) as Hd.
  pose proof (div_pow2_bounds m k ltac:(lia) Hk) as (D1 & D2 & _).
  pose proof (pow2_pos k Hk) as Hp.
  assert (Hkd : k <= Zdigits2 m - 1).
  { destruct (Z.le_gt_cases k (Zdigits2 m - 1)) as [|C]; [assumption|].
    assert (2 ^ Zdigits2 m <= 2 ^ k) by (apply Z.pow_le_mono_r; lia).
    assert (m / 2 ^ k = 0) by (apply Z.div_small; lia). lia. }
  apply Zdigits2_unique; [exact Hq|].
  assert (E1 : 2 ^ (Zdigits2 m - 1) = 2 ^ (Zdigits2 m - k - 1) * 2 ^ k)
    by (rewrite <- Z.pow_add_r by lia; f_equal; lia).
  assert (E2 : 2 ^ Zdigits2 m = 2 ^ (Zdigits2 m - k) * 2 ^ k)
    by (rewrite <- Z.pow_add_r by lia; f_equal; lia).
  split.
  - apply Z.div_le_lower_bound; [exact Hp|]. rewrite Z.mul_comm, <- E1. exact B1.
  - apply Z.div_lt_upper_bound; [exact Hp|]. rewrite Z.mul_comm, <- E2. exact B2.
Qed.


Lemma binary_round_aux_spec (s : bool) (m e : Z) (l : location) :
  0 <= m -> e <= fexp64 (Zdigits2 m + e) ->
  exists M K,
    0 <= K /\ 0 <= M
    /\ (M - 1) * 2 ^ K <= m /\ m + 1 <= (M + 1) * 2 ^ K
    /\ (0 < M -> fexp64 (Zdigits2 M + (e + K)) = e + K)
    /\ (M = 0 -> e + K = -1074)
    /\ binary_round_aux prec emax s m e l = rounded s M (e + K).
Proof.
  intros Hm P. unfold binary_round_aux.
  pose proof (shr_fexp_spec m e l Hm) as S1. cbv zeta in S1.
  destruct (shr_fexp prec emax m e l) as [mrs1 e1].
  destruct S1 as (Q & E1 & _).
  remember (fexp64 (Zdigits2 m + e) - e) as k1 eqn:Dk1.
  assert (Hk1 : 0 <= k1) by lia.
  rewrite (Z.max_r 0 k1 Hk1) in Q, E1.
  remember (m / 2 ^ k1) as q eqn:Dq.
  destruct (div_pow2_bounds m k1 Hm Hk1) as (Q1 & Q2 & Q0).
  rewrite <- Dq in Q1, Q2, Q0.
  destruct (round_nearest_even_bounds (shr_m mrs1) (loc_of_shr_record mrs1))
    as [RB _].
  remember (round_nearest_even (shr_m mrs1) (loc_of_shr_record mrs1)) as N
    eqn:DN.
  rewrite Q in RB.
  assert (HN : 0 <= N) by lia.
  pose proof (shr_fexp_spec N e1 loc_Exact HN) as S2. cbv zeta in S2.
  destruct (shr_fexp prec emax N e1 loc_Exact) as [mrs2 e2].
  destruct S2 as (QM & E2 & _).
  remember (fexp64 (Zdigits2 N + e1) - e1) as n2 eqn:Dn2.
  (* the exponent after the first shift *)
  assert (He1 : e1 = fexp64 (Zdigits2 m + e)) by lia.
  (* no mantissa left means the least exponent *)
  assert (Hq0 : q = 0 -> e1 = -1074).
  { intros Hq. rewrite He1, fexp64_value.
    destruct (Z.eq_dec m 0) as [Hm0|Hm0].
    - rewrite Hm0 in P. cbn [Zdigits2] in P. rewrite fexp64_value in P.
      rewrite Hm0. cbn [Zdigits2]. lia.
    - pose proof (Zdigits2_bounds m ltac:(lia)) as [B1 _].
      pose proof (Zdigits2_pos m ltac:(lia)) as Hd.
      assert (m < 2 ^ k1).
      { pose proof (pow2_pos k1 Hk1). nia. }
      assert (Zdigits2 m <= k1).
      { destruct (Z.le_gt_cases (Zdigits2 m) k1) as [|C]; [assumption|].
        assert (2 ^ k1 <= 2 ^ (Zdigits2 m - 1)) by (apply Z.pow_le_mono_r; lia).
        lia. }
      rewrite fexp64_value in Dk1. lia. }
  assert (Hn2 : 0 <= n2).
  { destruct (Z.eq_dec q 0) as [Hq|Hq].
    - pose proof (Hq0 Hq). pose proof (fexp64_ge_emin (Zdigits2 N + e1)). lia.
    - assert (Hqd : Zdigits2 q = Zdigits2 m - k1).
      { destruct (Z.eq_dec m 0) as [Hm0|Hm0].
        - rewrite Hm0, Z.div_0_l in Dq by (pose proof (pow2_pos k1 Hk1); lia).
          lia.
        - rewrite Dq. apply Zdigits2_div_pow2; lia. }
      assert (Zdigits2 q <= Zdigits2 N) by (apply Zdigits2_le; lia).
      assert (fexp64 (Zdigits2 q + e1) <= fexp64 (Zdigits2 N + e1))
        by (apply fexp64_mono; lia).
      replace (Zdigits2 q + e1) with (Zdigits2 m + e) in * by lia.
      lia. }
  rewrite (Z.max_r 0 n2 Hn2) in QM, E2.
  remember (N / 2 ^ n2) as M eqn:DM.
  destruct (div_pow2_bounds N n2 HN Hn2) as (M1 & M2 & M0).
  rewrite <- DM in M1, M2, M0.
  exists M, (k1 + n2).
  pose proof (pow2_pos k1 Hk1) as P1. pose proof (pow2_pos n2 Hn2) as P2.
  rewrite Z.pow_add_r by lia.
  split; [lia|]. split; [exact M0|].
  split; [nia|]. split; [nia|].
  replace (e + (k1 + n2)) with e2 by lia.
  split; [|split].
  - intros HM.
    destruct (Z.eq_dec n2 0) as [Hz|Hz].
    + assert (EM : M = N) by (rewrite DM, Hz; apply Z.div_1_r).
      rewrite EM. replace e2 with e1 by lia. lia.
    + assert (HNp : 0 < N).
      { destruct (Z.eq_dec N 0) as [HN0|]; [|lia].
        rewrite HN0, Z.div_0_l in DM by lia. lia. }
      assert (Zdigits2 M = Zdigits2 N - n2)
        by (rewrite DM; apply Zdigits2_div_pow2; lia).
      replace (Zdigits2 M + e2) with (Zdigits2 N + e1) by lia.
      lia.
  - intros HM.
    destruct (Z.eq_dec N 0) as [HN0|HN0].
    + assert (Hq : q = 0) by lia.
      pose proof (Hq0 Hq) as He.
      rewrite HN0 in Dn2. cbn [Zdigits2] in Dn2.
      rewrite fexp64_value in Dn2. lia.
    + assert (HNp : 0 < N) by lia.
      pose proof (Zdigits2_bounds N HNp) as [B1 _].
      pose proof (Zdigits2_pos N HNp) as Hd.
      assert (N < 2 ^ n2) by nia.
      assert (Zdigits2 N <= n2).
      { destruct (Z.le_gt_cases (Zdigits2 N) n2) as [|C]; [assumption|].
        assert (2 ^ n2 <= 2 ^ (Zdigits2 N - 1)) by (apply Z.pow_le_mono_r; lia).
        lia. }
      rewrite fexp64_value in Dn2. lia.
  - rewrite QM. reflexivity.
Qed.

(** *** Division *)

Lemma pow2_le_digits (q k : Z) : 0 <= k -> 2 ^ k <= q -> k + 1 <= Zdigits2 q.
Proof.
  intros Hk Hq. pose proof (pow2_pos k Hk).
  pose proof (Zdigits2_bounds q ltac:(lia)) as [_ B].
  assert (2 ^ k < 2 ^ Zdigits2 q) by lia.
  apply Z.pow_lt_mono_r_iff in H0; [lia|lia|apply Zdigits2_nonneg].
Qed.

Lemma SFdiv_core_spec (m1 m2 : positive) (e1 e2 : Z) :
  let '(q, e', l) := SFdiv_core_binary prec emax (Zpos m1) e1 (Zpos m2) e2 in
  0 <= q /\ e' <= fexp64 (Zdigits2 q + e')
  /\ exists s, 0 <= s /\ e' + s = e1 - e2
       /\ q * Zpos m2 <= Zpos m1 * 2 ^ s < (q + 1) * Zpos m2.
Proof.
  unfold SFdiv_core_binary.
  set (d1 := Zdigits2 (Zpos m1)). set (d2 := Zdigits2 (Zpos m2)).
  change (fexp prec emax (d1 + e1 - (d2 + e2)))
    with (fexp64 (d1 + e1 - (d2 + e2))).
  remember (Z.min (fexp64 (d1 + e1 - (d2 + e2))) (e1 - e2)) as e' eqn:He'.
  remember (e1 - e2 - e') as s eqn:Hs.
  assert (Hs0 : 0 <= s) by lia.
  assert (Hm' : match s with
                | 0 => Z.pos m1
                | Z.pos _ => Z.shiftl (Z.pos m1) s
                | Z.neg _ => 0
                end = Zpos m1 * 2 ^ s).
  { destruct s as [|p|p]; [cbn; lia| |lia].
    apply Z.shiftl_mul_pow2. lia. }
  rewrite Hm'. clear Hm'.
  pose proof (Z_div_mod (Zpos m1 * 2 ^ s) (Zpos m2) ltac:(lia)) as DM.
  destruct (Z.div_eucl (Z.pos m1 * 2 ^ s) (Z.pos m2)) as [q r].
  destruct DM as [DM Hr].
  pose proof (pow2_pos s Hs0) as P2s.
  assert (Hq : 0 <= q) by nia.
  split; [exact Hq|]. split.
  - pose proof (Zdigits2_bounds (Zpos m1) ltac:(lia)) as [B1 _].
    pose proof (Zdigits2_bounds (Zpos m2) ltac:(lia)) as [_ B2].
    fold d1 in B1. fold d2 in B2.
    assert (Hd1 : 0 < d1) by (apply Zdigits2_pos; lia).
    assert (Hd2 : 0 < d2) by (apply Zdigits2_pos; lia).
    destruct (Z.le_gt_cases s (d2 - d1)) as [Small|Big].
    + pose proof (fexp64_ge_emin (Zdigits2 q + e')).
      rewrite fexp64_value in He'. lia.
    + assert (K : 2 ^ (d1 - 1 + s - d2) <= q).
      { assert (E : 2 ^ (d1 - 1) * 2 ^ s
                    = 2 ^ (d1 - 1 + s - d2) * 2 ^ d2).
        { rewrite <- !Z.pow_add_r by lia. f_equal. lia. }
        pose proof (pow2_pos (d1 - 1 + s - d2) ltac:(lia)).
        pose proof (pow2_pos d2 ltac:(lia)).
        destruct (Z.le_gt_cases (2 ^ (d1 - 1 + s - d2)) q) as [|C];
          [assumption|exfalso].
        assert (Z.pos m1 * 2 ^ s < 2 ^ (d1 - 1 + s - d2) * Z.pos m2) by nia.
        nia. }
      apply pow2_le_digits in K; [|lia].
      pose proof (fexp64_mono (d1 + e1 - (d2 + e2)) (Zdigits2 q + e')
                    ltac:(lia)).
      lia.
  - exists s. split; [exact Hs0|]. split; [lia|]. nia.
Qed.

(** *** Square root *)

Lemma SFsqrt_core_spec (m : positive) (e : Z) :
  let '(q, e', l) := SFsqrt_core_binary prec emax (Zpos m) e in
  0 <= q /\ e' <= fexp64 (Zdigits2 q + e')
  /\ exists s, 0 <= s /\ 2 * e' + s = e
       /\ q * q <= Zpos m * 2 ^ s < (q + 1) * (q + 1).
Proof.
  unfold SFsqrt_core_binary.
  set (d := Zdigits2 (Zpos m)).
  change (fexp prec emax (Z.div2 (d + e + 1)))
    with (fexp64 (Z.div2 (d + e + 1))).
  rewrite !Z.div2_div.
  remember ((d + e + 1) / 2) as h eqn:Hh.
  remember (Z.min (fexp64 h) (e / 2)) as e' eqn:He'.
  remember (e - 2 * e') as s eqn:Hs.
  pose proof (Z.div_mod e 2 ltac:(lia)) as De.
  pose proof (Z.mod_pos_bound e 2 ltac:(lia)) as Be.
  pose proof (Z.div_mod (d + e + 1) 2 ltac:(lia)) as Dh.
  pose proof (Z.mod_pos_bound (d + e + 1) 2 ltac:(lia)) as Bh.
  rewrite <- Hh in Dh.
  assert (Hs0 : 0 <= s) by lia.
  assert (Hm' : match s with
                | 0 => Z.pos m
                | Z.pos _ => Z.shiftl (Z.pos m) s
                | Z.neg _ => 0
                end = Zpos m * 2 ^ s).
  { destruct s as [|p|p]; [cbn; lia| |lia].
    apply Z.shiftl_mul_pow2. lia. }
  rewrite Hm'. clear Hm'.
  pose proof (pow2_pos s Hs0) as P2s.
  pose proof (Z.sqrtrem_spec (Zpos m * 2 ^ s) ltac:(nia)) as SR.
  destruct (Z.sqrtrem (Z.pos m * 2 ^ s)) as [q r].
  destruct SR as [SR Hr].
  assert (Hq : 0 <= q) by lia.
  split; [exact Hq|]. split.
  - pose proof (Zdigits2_bounds (Zpos m) ltac:(lia)) as [B1 _].
    fold d in B1.
    assert (Hd : 0 < d) by (apply Zdigits2_pos; lia).
    destruct (Z.le_gt_cases h e') as [Small|Big].
    + pose proof (fexp64_ge_emin (Zdigits2 q + e')).
      rewrite fexp64_value in He'. lia.
    + assert (K : 2 ^ (h - 1 - e') <= q).
      { pose proof (pow2_pos (h - 1 - e') ltac:(lia)) as Pk.
        assert (E : 2 ^ (h - 1 - e') * 2 ^ (h - 1 - e')
                    <= 2 ^ (d - 1) * 2 ^ s).
        { rewrite <- !Z.pow_add_r by lia.
          apply Z.pow_le_mono_r; lia. }
        destruct (Z.le_gt_cases (2 ^ (h - 1 - e')) q) as [|C];
          [assumption|exfalso].
        assert ((q + 1) * (q + 1) <= 2 ^ (h - 1 - e') * 2 ^ (h - 1 - e'))
          by nia.
        nia. }
      apply pow2_le_digits in K; [|lia].
      pose proof (fexp64_mono h (Zdigits2 q + e') ltac:(lia)).
      lia.
  - exists s. split; [exact Hs0|]. split; [lia|]. nia.
Qed.

End Rounding.

Section Errors.
Local Open Scope R_scope.

(** ** Powers of two *)


Lemma bpow_pos (e : Z) : 0 < bpow e.
Proof. apply powerRZ_lt. lra. Qed.

Lemma bpow_add (a b : Z) : bpow (a + b) = bpow a * bpow b.
Proof. apply powerRZ_add. lra. Qed.

Lemma bpow_0 : bpow 0 = 1.
Proof. reflexivity. Qed.

Lemma bpow_1 : bpow 1 = 2.
Proof. unfold bpow. simpl. lra. Qed.

Lemma bpow_2 : bpow 2 = 4.
Proof. unfold bpow. simpl. lra. Qed.

Lemma bpow_IZR (k : Z) : (0 <= k)%Z -> bpow k = IZR (2 ^ k).
Proof.
  intros Hk. unfold bpow.
  rewrite <- (Z2Nat.id k Hk), <- pow_powerRZ, pow_IZR. reflexivity.
Qed.

Lemma bpow_ge_1 (k : Z) : (0 <= k)%Z -> 1 <= bpow k.
Proof.
  intros Hk. rewrite bpow_IZR by exact Hk. apply IZR_le.
  pose proof (pow2_pos k Hk). lia.
Qed.

Lemma bpow_le (a b : Z) : (a <= b)%Z -> bpow a <= bpow b.
Proof.
  intros H. replace b with (a + (b - a))%Z by lia. rewrite bpow_add.
  pose proof (bpow_pos a). pose proof (bpow_ge_1 (b - a) ltac:(lia)). nra.
Qed.

Lemma bpow_lt (a b : Z) : (a < b)%Z -> bpow a < bpow b.
Proof.
  intros H. replace b with (a + 1 + (b - a - 1))%Z by lia.
  rewrite !bpow_add.
  pose proof (bpow_pos a). pose proof (bpow_ge_1 (b - a - 1) ltac:(lia)).
  rewrite bpow_1. nra.
Qed.

Lemma bpow_opp (a : Z) : bpow (- a) = / bpow a.
Proof. apply powerRZ_neg'. Qed.


Lemma Rabs_bounds (a b : R) : Rabs a <= b -> - b <= a <= b.
Proof. unfold Rabs. destruct (Rcase_abs a); lra. Qed.

(** ** The real number a finite binary64 value stands for *)





Lemma rounded_finite (s : bool) (M e : Z) :
  (0 <= M)%Z -> (e <= 971)%Z ->
  SFfinite (rounded s M e) = true
  /\ SF2R (rounded s M e) = signed s (IZR M * bpow e).
Proof.
  intros HM He. unfold rounded.
  destruct M as [|p|p]; [| |lia].
  - cbn. split; [reflexivity|]. destruct s; cbn; lra.
  - change (emax - prec)%Z with 971%Z.
    destruct (Z.leb_spec e 971); [|lia].
    split; [reflexivity|]. destruct s; cbn; lra.
Qed.

(** A canonical mantissa is full, or the exponent is the least one. *)
Lemma canonical_cases (M e : Z) :
  (0 < M)%Z -> fexp64 (Zdigits2 M + e) = e ->
  (2 ^ 52 <= M)%Z \/ e = (-1074)%Z.
Proof.
  intros HM C. rewrite fexp64_value in C.
  destruct (Z.eq_dec e (-1074)) as [|Hne]; [right; assumption|left].
  assert (Hd : Zdigits2 M = 53%Z) by lia.
  pose proof (Zdigits2_bounds M HM) as [B _]. rewrite Hd in B. exact B.
Qed.

Lemma canonical_lt (M e : Z) :
  (0 < M)%Z -> fexp64 (Zdigits2 M + e) = e -> (M < 2 ^ 53)%Z.
Proof.
  intros HM C. rewrite fexp64_value in C.
  pose proof (Zdigits2_bounds M HM) as [_ B].
  assert (Hd : (Zdigits2 M <= 53)%Z) by lia.
  assert (2 ^ Zdigits2 M <= 2 ^ 53)%Z
    by (apply Z.pow_le_mono_r; pose proof (Zdigits2_pos M HM); lia).
  lia.
Qed.

(** The error of one rounding: the value [r' * 2 ^ e] lies in the
    interval of [m], it is rounded to a finite value of the same sign
    within the generous relative and absolute bounds. *)
Lemma binary_round_aux_approx (s : bool) (m e : Z) (l : location) (r' : R) :
  (0 <= m)%Z -> (e <= fexp64 (Zdigits2 m + e))%Z ->
  IZR m <= r' <= IZR m + 1 ->
  r' * bpow e <= bpow 1000 ->
  exists v,
    0 <= v
    /\ SFfinite (binary_round_aux prec emax s m e l) = true
    /\ SF2R (binary_round_aux prec emax s m e l) = signed s v
    /\ Rabs (v - r' * bpow e) <= u64 * (r' * bpow e) + a64.
Proof.
  intros Hm P Hr Hov.
  destruct (binary_round_aux_spec s m e l Hm P)
    as (M & K & HK & HM & L1 & L2 & C & Z0 & ->).
  pose proof (bpow_pos e) as Pe. pose proof (bpow_pos (e + K)) as PeK.
  assert (EK : bpow (e + K) = bpow e * IZR (2 ^ K))
    by (rewrite bpow_add, (bpow_IZR K HK); reflexivity).
  apply IZR_le in L1, L2. rewrite mult_IZR in L1, L2.
  rewrite minus_IZR in L1. rewrite !plus_IZR in L2.
  assert (Hm0 : 0 <= IZR m) by (apply IZR_le; exact Hm).
  assert (HM0 : 0 <= IZR M) by (apply IZR_le; exact HM).
  assert (P2K : 1 <= IZR (2 ^ K)).
  { apply IZR_le. pose proof (pow2_pos K HK). lia. }
  (* the error is at most one unit of the last place kept *)
  assert (Herr : Rabs (IZR M * bpow (e + K) - r' * bpow e) <= bpow (e + K)).
  { rewrite EK. apply Rabs_le. split; nra. }
  (* the unit of the last place is small *)
  assert (Hulp : bpow (e + K) <= u64 * (r' * bpow e) + a64
                 /\ (e + K <= 971)%Z).
  { destruct (Z.eq_dec M 0) as [HM'|HM'].
    - rewrite (Z0 HM'). split; [|lia].
      assert (0 <= u64 * (r' * bpow e)).
      { apply Rmult_le_pos; [apply Rlt_le, bpow_pos|].
        apply Rmult_le_pos; lra. }
      assert (bpow (-1074) <= a64) by (apply bpow_le; lia). lra.
    - assert (HMp : (0 < M)%Z) by lia.
      destruct (canonical_cases M (e + K) HMp (C HMp)) as [Full|Low].
      + apply IZR_le in Full.
        apply Rabs_bounds in Herr. destruct Herr as [E1 E2].
        assert (F52 : IZR (2 ^ 52) = bpow 52) by (rewrite bpow_IZR; [reflexivity|lia]).
        rewrite F52 in Full.
        assert (V : (bpow 52 - 1) * bpow (e + K) <= r' * bpow e) by nra.
        assert (B52 : 2 <= bpow 52) by (rewrite <- bpow_1; apply bpow_le; lia).
        split.
        * assert (U : bpow (e + K) <= u64 * ((bpow 52 - 1) * bpow (e + K))).
          { unfold u64.
            assert (bpow (-50) * bpow 52 = 4).
            { rewrite <- bpow_add. exact bpow_2. }
            assert (bpow (-50) <= 1) by (rewrite <- bpow_0; apply bpow_le; lia).
            nra. }
          assert (0 < u64) by apply bpow_pos.
          assert (0 < a64) by apply bpow_pos.
          nra.
        * destruct (Z.le_gt_cases (e + K) 971) as [|Big]; [assumption|].
          exfalso.
          assert (bpow 972 <= bpow (e + K)) by (apply bpow_le; lia).
          assert (bpow 1000 < bpow 972 * (bpow 52 - 1)).
          { assert (bpow 1000 = bpow 972 * bpow 28) by (rewrite <- bpow_add; reflexivity).
            assert (bpow 28 < bpow 52 - 1).
            { assert (bpow 29 <= bpow 52) by (apply bpow_le; lia).
              assert (bpow 29 = 2 * bpow 28) by (change 29%Z with (1 + 28)%Z;
                rewrite bpow_add, bpow_1; reflexivity).
              assert (1 <= bpow 28) by (apply bpow_ge_1; lia). lra. }
            pose proof (bpow_pos 972). nra. }
          pose proof (bpow_pos 972). nra.
      + rewrite Low. split; [|lia].
        assert (0 <= u64 * (r' * bpow e)).
        { apply Rmult_le_pos; [apply Rlt_le, bpow_pos|].
          apply Rmult_le_pos; lra. }
        assert (bpow (-1074) <= a64) by (apply bpow_le; lia). lra. }
  destruct Hulp as [Hulp Hfin].
  destruct (rounded_finite s M (e + K) HM Hfin) as [F V].
  exists (IZR M * bpow (e + K)).
  split; [apply Rmult_le_pos; lra|].
  split; [exact F|]. split; [exact V|]. lra.
Qed.

(** ** One operation: its result is finite and close to the exact one *)


Lemma rounds_to_exact (z : spec_float) (r : R) :
  SFfinite z = true -> SF2R z = r -> rounds_to z r.
Proof.
  intros F E. split; [exact F|]. rewrite E.
  replace (r - r) with 0 by ring. rewrite Rabs_R0.
  pose proof (Rabs_pos r). pose proof (bpow_pos (-50)). pose proof (bpow_pos (-1073)).
  unfold u64, a64. nra.
Qed.

Lemma signed_minus (s : bool) (v r : R) :
  Rabs (signed s v - signed s r) = Rabs (v - r).
Proof.
  destruct s; cbn; [|reflexivity].
  replace (- v - - r) with (- (v - r)) by ring. apply Rabs_Ropp.
Qed.

Lemma Rabs_signed (s : bool) (r : R) : 0 <= r -> Rabs (signed s r) = r.
Proof.
  intros H. destruct s; cbn; [rewrite Rabs_Ropp|]; apply Rabs_pos_eq, H.
Qed.

Lemma binary_round_aux_rounds (s : bool) (m e : Z) (l : location) (r' : R) :
  (0 <= m)%Z -> (e <= fexp64 (Zdigits2 m + e))%Z ->
  IZR m <= r' <= IZR m + 1 ->
  r' * bpow e <= bpow 1000 ->
  rounds_to (binary_round_aux prec emax s m e l) (signed s (r' * bpow e)).
Proof.
  intros Hm P Hr Hov.
  destruct (binary_round_aux_approx s m e l r' Hm P Hr Hov)
    as (v & Hv & F & V & E).
  split; [exact F|]. rewrite V, signed_minus, Rabs_signed; [exact E|].
  apply Rmult_le_pos; [|apply Rlt_le, bpow_pos].
  assert (0 <= IZR m) by (apply IZR_le; exact Hm). lra.
Qed.

(** *** Valid values *)

Lemma valid_finite (s : bool) (m : positive) (e : Z) :
  valid_binary (S754_finite s m e) = true ->
  fexp64 (Zdigits2 (Zpos m) + e) = e /\ (e <= 971)%Z.
Proof.
  cbn. unfold bounded, canonical_mantissa. intros H.
  apply andb_true_iff in H as [C B].
  apply Z.eqb_eq in C. apply Z.leb_le in B.
  split; [exact C|exact B].
Qed.

Lemma valid_cases (m : positive) (e : Z) :
  fexp64 (Zdigits2 (Zpos m) + e) = e ->
  (Zdigits2 (Zpos m) = 53 /\ -1074 <= e)%Z
  \/ (e = -1074 /\ Zdigits2 (Zpos m) <= 53)%Z.
Proof. rewrite fexp64_value. lia. Qed.

Lemma SF2R_finite (s : bool) (m : positive) (e : Z) :
  SF2R (S754_finite s m e) = signed s (IZR (Zpos m) * bpow e).
Proof. destruct s; cbn; ring. Qed.

Lemma signed_mult (s1 s2 : bool) (a b : R) :
  signed s1 a * signed s2 b = signed (xorb s1 s2) (a * b).
Proof. destruct s1, s2; cbn; ring. Qed.

(** *** Multiplication *)

Lemma SFmul_rounds (x y : spec_float) :
  valid_binary x = true -> valid_binary y = true ->
  SFfinite x = true -> SFfinite y = true ->
  Rabs (SF2R x * SF2R y) <= bpow 1000 ->
  rounds_to (SFmul prec emax x y) (SF2R x * SF2R y).
Proof.
  intros Vx Vy Fx Fy B.
  destruct x as [sx|sx| |sx mx ex]; try discriminate;
    destruct y as [sy|sy| |sy my ey]; try discriminate;
    try (apply rounds_to_exact; [reflexivity|cbn; ring]).
  destruct (valid_finite _ _ _ Vx) as [Cx _].
  destruct (valid_finite _ _ _ Vy) as [Cy _].
  rewrite !SF2R_finite, signed_mult in *.
  assert (Px : (0 < IZR (Z.pos mx))) by (apply IZR_lt; lia).
  assert (Py : (0 < IZR (Z.pos my))) by (apply IZR_lt; lia).
  pose proof (bpow_pos ex). pose proof (bpow_pos ey).
  rewrite Rabs_signed in B by (apply Rmult_le_pos; apply Rmult_le_pos; lra).
  replace (IZR (Z.pos mx) * bpow ex * (IZR (Z.pos my) * bpow ey))
    with (IZR (Z.pos (mx * my)) * bpow (ex + ey)) in *
    by (rewrite Pos2Z.inj_mul, mult_IZR, bpow_add; ring).
  cbn [SFmul].
  apply binary_round_aux_rounds; [lia| |lra|exact B].
  assert (Dx : (Zdigits2 (Z.pos mx) <= Zdigits2 (Z.pos (mx * my)))%Z)
    by (apply Zdigits2_le; nia).
  assert (Dy : (Zdigits2 (Z.pos my) <= Zdigits2 (Z.pos (mx * my)))%Z)
    by (apply Zdigits2_le; nia).
  rewrite fexp64_value.
  destruct (valid_cases _ _ Cx) as [[Nx Lx]|[Sx _]];
    destruct (valid_cases _ _ Cy) as [[Ny Ly]|[Sy _]]; lia.
Qed.

(** *** Addition and subtraction *)

Lemma iter_xO (m d : positive) :
  Zpos (Pos.iter xO m d) = (Zpos m * 2 ^ Zpos d)%Z.
Proof.
  change (Pos.iter xO m d) with (shift_pos d m).
  rewrite shift_pos_correct. change (Z.pow_pos 2 d) with (2 ^ Zpos d)%Z. ring.
Qed.

Lemma shl_align_spec (m : positive) (e e' : Z) :
  let '(m', e'') := shl_align m e e' in
  IZR (Zpos m') * bpow e'' = IZR (Zpos m) * bpow e
  /\ ((e' <= e)%Z -> e'' = e')
  /\ ((e <= e')%Z -> m' = m /\ e'' = e)
  /\ (Zdigits2 (Zpos m') + e'' = Zdigits2 (Zpos m) + e)%Z.
Proof.
  unfold shl_align. destruct (e' - e)%Z as [|d|d] eqn:D.
  - repeat split; lia.
  - repeat split; lia.
  - assert (E : e = (e' + Zpos d)%Z) by lia.
    split; [|split; [reflexivity|split; [lia|]]].
    + rewrite iter_xO, mult_IZR, E, bpow_add, (bpow_IZR (Zpos d)) by lia. ring.
    + rewrite iter_xO.
      assert (H : Zdigits2 (Z.pos m * 2 ^ Z.pos d)
                  = (Zdigits2 (Z.pos m) + Z.pos d)%Z).
      { pose proof (Zdigits2_bounds (Zpos m) ltac:(lia)) as [B1 B2].
        pose proof (pow2_pos (Zpos d) ltac:(lia)).
        apply Zdigits2_unique; [nia|].
        replace (Zdigits2 (Z.pos m) + Z.pos d - 1)%Z
          with ((Zdigits2 (Z.pos m) - 1) + Z.pos d)%Z by lia.
        pose proof (Zdigits2_pos (Zpos m) ltac:(lia)).
        rewrite !Z.pow_add_r by lia. nia. }
      rewrite H. lia.
Qed.

Lemma binary_round_rounds (s : bool) (m : positive) (e : Z) :
  IZR (Zpos m) * bpow e <= bpow 1000 ->
  rounds_to (binary_round prec emax s m e) (signed s (IZR (Zpos m) * bpow e)).
Proof.
  intros B. unfold binary_round.
  pose proof (shl_align_spec m e (fexp prec emax (Z.pos (digits2_pos m) + e)))
    as S.
  destruct (shl_align m e _) as [mz ez].
  destruct S as (V & S1 & S2 & D).
  rewrite <- V in *.
  apply binary_round_aux_rounds; [lia| |lra|exact B].
  rewrite D.
  change (fexp prec emax (Z.pos (digits2_pos m) + e))
    with (fexp64 (Zdigits2 (Zpos m) + e)) in S1, S2.
  destruct (Z.le_ge_cases (fexp64 (Zdigits2 (Z.pos m) + e)) e) as [L|L].
  - rewrite (S1 L). lia.
  - destruct (S2 L) as [_ ->]. exact L.
Qed.

Lemma binary_normalize_rounds (m e : Z) (szero : bool) :
  Rabs (IZR m * bpow e) <= bpow 1000 ->
  rounds_to (binary_normalize prec emax m e szero) (IZR m * bpow e).
Proof.
  intros B. pose proof (bpow_pos e).
  destruct m as [|p|p]; cbn [binary_normalize].
  - apply rounds_to_exact; [reflexivity|cbn; ring].
  - assert (0 < IZR (Zpos p)) by (apply IZR_lt; lia).
    rewrite Rabs_pos_eq in B by nra.
    apply (binary_round_rounds false p e B).
  - assert (0 < IZR (Zpos p)) by (apply IZR_lt; lia).
    replace (IZR (Z.neg p) * bpow e) with (signed true (IZR (Zpos p) * bpow e)) in *
      by (cbn; change (Z.neg p) with (- Zpos p)%Z; rewrite opp_IZR; ring).
    rewrite Rabs_signed in B by nra.
    apply (binary_round_rounds true p e B).
Qed.

Lemma cond_Zopp_IZR (s : bool) (m : Z) :
  IZR (cond_Zopp s m) = signed s (IZR m).
Proof. destruct s; cbn; [apply opp_IZR|reflexivity]. Qed.

Lemma signed_scale (s : bool) (a b : R) : signed s a * b = signed s (a * b).
Proof. destruct s; cbn; ring. Qed.

Lemma aligned_value (s : bool) (m : positive) (e ez : Z) :
  (ez <= e)%Z ->
  IZR (cond_Zopp s (Zpos (fst (shl_align m e ez)))) * bpow ez
  = SF2R (S754_finite s m e).
Proof.
  intros L. pose proof (shl_align_spec m e ez) as S.
  destruct (shl_align m e ez) as [m' e'']. destruct S as (V & S1 & _).
  rewrite (S1 L) in V. cbn [fst].
  rewrite cond_Zopp_IZR, signed_scale, V, SF2R_finite. reflexivity.
Qed.

Lemma SFadd_rounds (x y : spec_float) :
  SFfinite x = true -> SFfinite y = true ->
  Rabs (SF2R x + SF2R y) <= bpow 1000 ->
  rounds_to (SFadd prec emax x y) (SF2R x + SF2R y).
Proof.
  intros Fx Fy B.
  destruct x as [sx|sx| |sx mx ex]; try discriminate;
    destruct y as [sy|sy| |sy my ey]; try discriminate.
  - apply rounds_to_exact; [destruct sx, sy; reflexivity|].
    destruct sx, sy; cbn; ring.
  - apply rounds_to_exact; [reflexivity|]. cbn [SFadd SF2R]. ring.
  - apply rounds_to_exact; [reflexivity|]. cbn [SFadd SF2R]. ring.
  - cbn [SFadd].
    rewrite <- (aligned_value sx mx ex (Z.min ex ey)) in * by lia.
    rewrite <- (aligned_value sy my ey (Z.min ex ey)) in * by lia.
    rewrite <- Rmult_plus_distr_r, <- plus_IZR in *.
    apply binary_normalize_rounds, B.
Qed.

Lemma SFsub_rounds (x y : spec_float) :
  SFfinite x = true -> SFfinite y = true ->
  Rabs (SF2R x - SF2R y) <= bpow 1000 ->
  rounds_to (SFsub prec emax x y) (SF2R x - SF2R y).
Proof.
  intros Fx Fy B.
  destruct x as [sx|sx| |sx mx ex]; try discriminate;
    destruct y as [sy|sy| |sy my ey]; try discriminate.
  - apply rounds_to_exact; [destruct sx, sy; reflexivity|].
    destruct sx, sy; cbn; ring.
  - apply rounds_to_exact; [reflexivity|]. cbn [SFsub].
    rewrite !SF2R_finite. destruct sy; cbn; ring.
  - apply rounds_to_exact; [reflexivity|]. cbn [SFsub SF2R]. ring.
  - cbn [SFsub].
    rewrite <- (aligned_value sx mx ex (Z.min ex ey)) in * by lia.
    rewrite <- (aligned_value sy my ey (Z.min ex ey)) in * by lia.
    rewrite <- Rmult_minus_distr_r, <- minus_IZR in *.
    apply binary_normalize_rounds, B.
Qed.

Lemma signed_div (s1 s2 : bool) (a b : R) :
  b <> 0 -> signed s1 a / signed s2 b = signed (xorb s1 s2) (a / b).
Proof. intros Hb. destruct s1, s2; cbn; field; exact Hb. Qed.

Lemma SFdiv_rounds (x y : spec_float) :
  SFfinite x = true -> SFfinite y = true -> SF2R y <> 0 ->
  Rabs (SF2R x / SF2R y) <= bpow 1000 ->
  rounds_to (SFdiv prec emax x y) (SF2R x / SF2R y).
Proof.
  intros Fx Fy Ny B.
  destruct x as [sx|sx| |sx mx ex]; try discriminate;
    destruct y as [sy|sy| |sy my ey]; try discriminate;
    try (exfalso; apply Ny; reflexivity).
  - apply rounds_to_exact; [reflexivity|]. cbn [SFdiv SF2R].
    unfold Rdiv. ring.
  - cbn [SFdiv].
    pose proof (SFdiv_core_spec mx my ex ey) as S.
    destruct (SFdiv_core_binary prec emax (Z.pos mx) ex (Z.pos my) ey)
      as [[q e'] l].
    destruct S as (Hq & P & s & Hs & E & Lo & Hi).
    assert (Px : 0 < IZR (Z.pos mx)) by (apply IZR_lt; lia).
    assert (Py : 0 < IZR (Z.pos my)) by (apply IZR_lt; lia).
    pose proof (bpow_pos ex). pose proof (bpow_pos ey).
    pose proof (bpow_pos e'). pose proof (bpow_pos s).
    assert (V : IZR (Z.pos mx) * bpow ex / (IZR (Z.pos my) * bpow ey)
                = IZR (Z.pos mx) * bpow s / IZR (Z.pos my) * bpow e').
    { assert (Eb : bpow ex = bpow e' * bpow s * bpow ey).
      { rewrite <- !bpow_add. f_equal. lia. }
      rewrite Eb. field. split; lra. }
    rewrite !SF2R_finite in *.
    rewrite signed_div in * by nra.
    rewrite V in *.
    assert (Q0 : 0 <= IZR q) by (apply IZR_le; exact Hq).
    assert (R0 : 0 <= IZR (Z.pos mx) * bpow s / IZR (Z.pos my)).
    { apply Rmult_le_pos; [nra|]. apply Rlt_le, Rinv_0_lt_compat, Py. }
    rewrite Rabs_signed in B by nra.
    apply binary_round_aux_rounds; [exact Hq|exact P| |exact B].
    apply IZR_le in Lo. apply IZR_lt in Hi.
    rewrite !mult_IZR in Lo, Hi. rewrite plus_IZR in Hi.
    rewrite <- (bpow_IZR s Hs) in Lo, Hi.
    split.
    + apply Rmult_le_reg_r with (IZR (Z.pos my)); [exact Py|].
      unfold Rdiv. rewrite Rmult_assoc, Rinv_l by lra. lra.
    + apply Rmult_le_reg_r with (IZR (Z.pos my)); [exact Py|].
      unfold Rdiv. rewrite Rmult_assoc, Rinv_l by lra. lra.
Qed.

Lemma sqrt_bpow_double (e : Z) : R_sqrt.sqrt (bpow (2 * e)) = bpow e.
Proof.
  replace (2 * e)%Z with (e + e)%Z by lia. rewrite bpow_add.
  apply sqrt_square, Rlt_le, bpow_pos.
Qed.

Lemma sqrt_between (q x : R) :
  0 <= q -> q * q <= x -> x < (q + 1) * (q + 1) -> q <= R_sqrt.sqrt x <= q + 1.
Proof.
  intros Hq Lo Hi. split.
  - rewrite <- (sqrt_square q Hq). apply sqrt_le_1_alt, Lo.
  - rewrite <- (sqrt_square (q + 1)) by lra. apply sqrt_le_1_alt. lra.
Qed.

Lemma SFsqrt_rounds (x : spec_float) :
  valid_binary x = true -> SFfinite x = true -> 0 <= SF2R x ->
  rounds_to (SFsqrt prec emax x) (R_sqrt.sqrt (SF2R x)).
Proof.
  intros Vx Fx Px.
  destruct x as [sx|sx| |sx mx ex]; try discriminate.
  - apply rounds_to_exact; [reflexivity|]. cbn [SFsqrt SF2R].
    symmetry. apply sqrt_0.
  - assert (Pm : 0 < IZR (Z.pos mx)) by (apply IZR_lt; lia).
    pose proof (bpow_pos ex) as Pe.
    destruct sx.
    { exfalso. cbn in Px. nra. }
    destruct (valid_finite _ _ _ Vx) as [C Hex].
    pose proof (canonical_lt (Zpos mx) ex ltac:(lia) C) as Hlt.
    cbn [SFsqrt].
    pose proof (SFsqrt_core_spec mx ex) as S.
    destruct (SFsqrt_core_binary prec emax (Z.pos mx) ex) as [[q e'] l].
    destruct S as (Hq & P & s & Hs & E & Lo & Hi).
    pose proof (bpow_pos e'). pose proof (bpow_pos s).
    assert (Q0 : 0 <= IZR q) by (apply IZR_le; exact Hq).
    assert (A : R_sqrt.sqrt (IZR (Z.pos mx) * bpow ex)
                = R_sqrt.sqrt (IZR (Z.pos mx) * bpow s) * bpow e').
    { assert (Eb : bpow ex = bpow s * bpow (2 * e')).
      { rewrite <- bpow_add. f_equal. lia. }
      rewrite Eb, <- Rmult_assoc, sqrt_mult_alt by nra.
      rewrite sqrt_bpow_double. reflexivity. }
    assert (V : R_sqrt.sqrt (SF2R (S754_finite false mx ex))
                = signed false (R_sqrt.sqrt (IZR (Z.pos mx) * bpow s) * bpow e'))
      by exact A.
    rewrite V.
    apply IZR_le in Lo. apply IZR_lt in Hi.
    rewrite !mult_IZR in Lo, Hi. rewrite !plus_IZR in Hi.
    rewrite <- (bpow_IZR s Hs) in Lo, Hi.
    apply binary_round_aux_rounds; [exact Hq|exact P| |].
    + apply sqrt_between; assumption.
    + (* no overflow: the argument is below 2 ^ 1024 *)
      rewrite <- A.
      rewrite <- (sqrt_square (bpow 1000)) by (apply Rlt_le, bpow_pos).
      apply sqrt_le_1_alt. rewrite <- bpow_add.
      apply IZR_lt in Hlt. rewrite <- (bpow_IZR 53) in Hlt by lia.
      assert (bpow ex <= bpow 971) by (apply bpow_le; lia).
      assert (bpow 53 * bpow 971 <= bpow (1000 + 1000))
        by (rewrite <- bpow_add; apply bpow_le; lia).
      pose proof (bpow_pos 53). nra.
Qed.

(** ** The operations of the program's numbers *)



Lemma mul_fl (x y : float) :
  finite x = true -> finite y = true ->
  Rabs (F2R x * F2R y) <= bpow 1000 ->
  fl (x * y) (F2R x * F2R y).
Proof.
  intros Fx Fy B. unfold fl, finite, F2R. rewrite mul_spec.
  apply SFmul_rounds; try apply Prim2SF_valid; assumption.
Qed.

Lemma add_fl (x y : float) :
  finite x = true -> finite y = true ->
  Rabs (F2R x + F2R y) <= bpow 1000 ->
  fl (x + y) (F2R x + F2R y).
Proof.
  intros Fx Fy B. unfold fl, finite, F2R. rewrite add_spec.
  apply SFadd_rounds; assumption.
Qed.

Lemma sub_fl (x y : float) :
  finite x = true -> finite y = true ->
  Rabs (F2R x - F2R y) <= bpow 1000 ->
  fl (x - y) (F2R x - F2R y).
Proof.
  intros Fx Fy B. unfold fl, finite, F2R. rewrite sub_spec.
  apply SFsub_rounds; assumption.
Qed.

Lemma div_fl (x y : float) :
  finite x = true -> finite y = true -> F2R y <> 0 ->
  Rabs (F2R x / F2R y) <= bpow 1000 ->
  fl (x / y) (F2R x / F2R y).
Proof.
  intros Fx Fy Ny B. unfold fl, finite, F2R. rewrite div_spec.
  apply SFdiv_rounds; assumption.
Qed.

Lemma sqrt_fl (x : float) :
  finite x = true -> 0 <= F2R x ->
  fl (PrimFloat.sqrt x) (R_sqrt.sqrt (F2R x)).
Proof.
  intros Fx Px. unfold fl, finite, F2R. rewrite sqrt_spec.
  apply SFsqrt_rounds; try apply Prim2SF_valid; assumption.
Qed.

Lemma abs_exact (x : float) :
  finite x = true ->
  finite (abs x) = true /\ F2R (abs x) = Rabs (F2R x).
Proof.
  unfold finite, F2R. rewrite abs_spec.
  destruct (Prim2SF x) as [s|s| |s m e]; intros F; try discriminate.
  - split; [reflexivity|]. cbn. symmetry. apply Rabs_R0.
  - split; [reflexivity|]. rewrite SF2R_finite.
    assert (0 < IZR (Zpos m)) by (apply IZR_lt; lia).
    pose proof (bpow_pos e).
    rewrite Rabs_signed by nra. cbn. reflexivity.
Qed.

(** A finite value of magnitude at most [2 ^ -30] is below one millionth. *)
Lemma small_leb_tolerance (x : float) :
  finite x = true -> Rabs (F2R x) <= bpow (-30) ->
  (abs x <=? 0x1.0c6f7a0b5ed8dp-20)%float = true.
Proof.
  intros F B. rewrite leb_spec, abs_spec.
  pose proof (Prim2SF_valid x) as V.
  unfold finite, F2R in *.
  destruct (Prim2SF x) as [s|s| |s m e]; try discriminate.
  - reflexivity.
  - destruct (valid_finite _ _ _ V) as [C _].
    rewrite SF2R_finite in B.
    assert (0 < IZR (Zpos m)) by (apply IZR_lt; lia).
    pose proof (bpow_pos e).
    rewrite Rabs_signed in B by nra.
    assert (E : (e < -72)%Z).
    { destruct (Z.lt_ge_cases e (-72)) as [|G]; [assumption|exfalso].
      destruct (canonical_cases (Zpos m) e ltac:(lia) C) as [Full|Low]; [|lia].
      apply IZR_le in Full. rewrite <- (bpow_IZR 52) in Full by lia.
      assert (bpow (-72) <= bpow e) by (apply bpow_le; lia).
      assert (bpow (-30) < bpow 52 * bpow (-72))
        by (rewrite <- bpow_add; apply bpow_lt; lia).
      pose proof (bpow_pos 52). pose proof (bpow_pos (-72)). nra. }
    change (Prim2SF 0x1.0c6f7a0b5ed8dp-20)
      with (S754_finite false 4722366482869645 (-72)).
    unfold SFleb, SFabs, SFcompare.
    destruct (Z.compare_spec e (-72)) as [| |]; [lia|reflexivity|lia].
Qed.

(** ** Error bounds in numbers *)

Lemma u64_value : u64 = / 1125899906842624.
Proof.
  unfold u64. change (-50)%Z with (- (50))%Z.
  rewrite bpow_opp, (bpow_IZR 50) by lia. reflexivity.
Qed.

Lemma a64_pos : 0 < a64.
Proof. apply bpow_pos. Qed.

(** [2 ^ 60 * a64 = 2 ^ -1013]. *)
Lemma a64_scaled : 1152921504606846976 * a64 = bpow (-1013).
Proof.
  unfold a64. change (-1013)%Z with (60 + -1073)%Z.
  rewrite bpow_add, (bpow_IZR 60) by lia. reflexivity.
Qed.

Lemma a64_below (k : Z) (x : R) :
  (-1013 <= k)%Z -> bpow k <= x -> 1152921504606846976 * a64 <= x.
Proof.
  intros Hk Hx. rewrite a64_scaled.
  apply Rle_trans with (bpow k); [apply bpow_le, Hk|exact Hx].
Qed.

Ltac split_Rabs :=
  unfold Rabs in *;
  repeat match goal with
         | H : context [Rcase_abs ?x] |- _ => destruct (Rcase_abs x)
         | |- context [Rcase_abs ?x] => destruct (Rcase_abs x)
         end.

(** The sum of three squares, each product and each sum rounded. *)
Lemma sum_squares_real (X0 X1 X2 q0 q1 q2 s1 S : R) :
  0 <= X0 -> 0 <= X1 -> 0 <= X2 ->
  1152921504606846976 * a64 <= X0 + X1 + X2 ->
  Rabs (q0 - X0) <= u64 * Rabs X0 + a64 ->
  Rabs (q1 - X1) <= u64 * Rabs X1 + a64 ->
  Rabs (q2 - X2) <= u64 * Rabs X2 + a64 ->
  Rabs (s1 - (q0 + q1)) <= u64 * Rabs (q0 + q1) + a64 ->
  Rabs (S - (s1 + q2)) <= u64 * Rabs (s1 + q2) + a64 ->
  Rabs (S - (X0 + X1 + X2)) <= (X0 + X1 + X2) / 70368744177664
  /\ Rabs (q0 + q1) <= 2 * (X0 + X1 + X2)
  /\ Rabs (s1 + q2) <= 2 * (X0 + X1 + X2).
Proof.
  intros P0 P1 P2 A H0 H1 H2 H3 H4.
  pose proof a64_pos. rewrite u64_value in *.
  rewrite (Rabs_pos_eq X0 P0) in H0. rewrite (Rabs_pos_eq X1 P1) in H1.
  rewrite (Rabs_pos_eq X2 P2) in H2.
  apply Rabs_bounds in H0, H1, H2.
  assert (B1 : Rabs (q0 + q1) <= q0 + q1 + 4 * a64).
  { unfold Rabs. destruct (Rcase_abs (q0 + q1)); lra. }
  assert (H3' : Rabs (s1 - (q0 + q1))
                <= / 1125899906842624 * (q0 + q1 + 4 * a64) + a64) by lra.
  clear H3. apply Rabs_bounds in H3'.
  assert (B2 : Rabs (s1 + q2) <= s1 + q2 + 12 * a64).
  { unfold Rabs. destruct (Rcase_abs (s1 + q2)); lra. }
  assert (H4' : Rabs (S - (s1 + q2))
                <= / 1125899906842624 * (s1 + q2 + 12 * a64) + a64) by lra.
  clear H4. apply Rabs_bounds in H4'.
  split; [apply Rabs_le; lra|]. split; lra.
Qed.

Lemma sqrt_rel (T S e : R) :
  0 <= T -> 0 <= e <= 1 ->
  (1 - e) * T <= S <= (1 + e) * T ->
  (1 - e) * R_sqrt.sqrt T <= R_sqrt.sqrt S <= (1 + e) * R_sqrt.sqrt T.
Proof.
  intros HT He HS. split.
  - rewrite <- (sqrt_square (1 - e)) by lra.
    rewrite <- sqrt_mult_alt by nra.
    apply sqrt_le_1_alt. nra.
  - rewrite <- (sqrt_square (1 + e)) by lra.
    rewrite <- sqrt_mult_alt by nra.
    apply sqrt_le_1_alt. nra.
Qed.

(** The rounded square root of an approximation of [T]. *)
Lemma sqrt_real (T S m : R) :
  0 <= T ->
  1152921504606846976 * a64 <= R_sqrt.sqrt T ->
  Rabs (S - T) <= T / 70368744177664 ->
  Rabs (m - R_sqrt.sqrt S) <= u64 * Rabs (R_sqrt.sqrt S) + a64 ->
  Rabs (m - R_sqrt.sqrt T) <= R_sqrt.sqrt T / 17592186044416.
Proof.
  intros HT A HS Hm.
  pose proof a64_pos. rewrite u64_value in *.
  assert (B : (1 - / 70368744177664) * T <= S <= (1 + / 70368744177664) * T).
  { apply Rabs_bounds in HS. lra. }
  apply sqrt_rel in B; [|exact HT|lra].
  pose proof (sqrt_pos S). pose proof (sqrt_pos T).
  split_Rabs; lra.
Qed.

(** A component divided by the approximate magnitude. *)
Lemma quotient_real (c N m n : R) :
  0 < N -> Rabs c <= N ->
  Rabs (m - N) <= N / 17592186044416 ->
  Rabs (n - c / m) <= u64 * Rabs (c / m) + a64 ->
  a64 <= / 1152921504606846976 ->
  Rabs (c / m) <= 2
  /\ Rabs (n - c / N) <= / 2199023255552.
Proof.
  intros HN Hc Hm Hn A.
  pose proof a64_pos. rewrite u64_value in *.
  apply Rabs_bounds in Hm.
  assert (Pm : 0 < m) by lra.
  set (w := c / N). set (rho := N / m).
  assert (Ew : c / m = w * rho).
  { unfold w, rho. field. split; lra. }
  assert (Hw : -1 <= w <= 1).
  { apply Rabs_bounds in Hc. unfold w. split.
    - apply Rmult_le_reg_r with N; [exact HN|].
      unfold Rdiv. rewrite Rmult_assoc, Rinv_l by lra. lra.
    - apply Rmult_le_reg_r with N; [exact HN|].
      unfold Rdiv. rewrite Rmult_assoc, Rinv_l by lra. lra. }
  assert (Hrho : - / 8796093022208 <= rho - 1 <= / 8796093022208).
  { unfold rho. split.
    - apply Rmult_le_reg_r with m; [exact Pm|].
      unfold Rdiv. rewrite Rmult_minus_distr_r, Rmult_assoc, Rinv_l by lra.
      lra.
    - apply Rmult_le_reg_r with m; [exact Pm|].
      unfold Rdiv. rewrite Rmult_minus_distr_r, Rmult_assoc, Rinv_l by lra.
      lra. }
  rewrite Ew in *.
  assert (D : - / 8796093022208 <= w * rho - w <= / 8796093022208) by nra.
  split.
  - apply Rabs_le. lra.
  - assert (Rabs (w * rho) <= 2) by (apply Rabs_le; lra).
    apply Rabs_bounds in Hn. apply Rabs_le. lra.
Qed.

(** The squares of components close to a unit vector sum up close to 1. *)
Lemma unit_squares_real (w0 w1 w2 n0 n1 n2 : R) :
  w0 * w0 + w1 * w1 + w2 * w2 = 1 ->
  Rabs (n0 - w0) <= / 2199023255552 ->
  Rabs (n1 - w1) <= / 2199023255552 ->
  Rabs (n2 - w2) <= / 2199023255552 ->
  Rabs (n0 * n0 + n1 * n1 + n2 * n2 - 1) <= / 137438953472
  /\ Rabs n0 <= 2 /\ Rabs n1 <= 2 /\ Rabs n2 <= 2.
Proof.
  intros U H0 H1 H2.
  apply Rabs_bounds in H0, H1, H2.
  assert (-1 <= w0 <= 1) by nra.
  assert (-1 <= w1 <= 1) by nra.
  assert (-1 <= w2 <= 1) by nra.
  repeat split; try (apply Rabs_le; lra).
  apply Rabs_le.
  set (d0 := n0 - w0) in *. set (d1 := n1 - w1) in *. set (d2 := n2 - w2) in *.
  replace (n0 * n0 + n1 * n1 + n2 * n2 - 1)
    with (d0 * (2 * w0 + d0) + d1 * (2 * w1 + d1) + d2 * (2 * w2 + d2))
    by (unfold d0, d1, d2; nra).
  assert (- / 549755813888 <= d0 * (2 * w0 + d0) <= / 549755813888) by nra.
  assert (- / 549755813888 <= d1 * (2 * w1 + d1) <= / 549755813888) by nra.
  assert (- / 549755813888 <= d2 * (2 * w2 + d2) <= / 549755813888) by nra.
  lra.
Qed.

Lemma bpow_mult_lit (k e : Z) :
  (0 <= k)%Z -> IZR (2 ^ k) * bpow e = bpow (k + e).
Proof. intros Hk. rewrite bpow_add, (bpow_IZR k Hk). reflexivity. Qed.

Lemma a64_le (k : Z) : (-1073 <= k)%Z -> a64 <= bpow k.
Proof. intros Hk. apply bpow_le, Hk. Qed.

(** A rounded value is at most three times a bound of the exact one. *)
Lemma fl_upper (z : float) (r B : R) :
  fl z r -> Rabs r <= B -> a64 <= B -> Rabs (F2R z) <= 3 * B.
Proof.
  intros [_ E] Hr Ha. rewrite u64_value in E. pose proof a64_pos.
  split_Rabs; lra.
Qed.

Lemma square_le (c B : R) : Rabs c <= B -> c * c <= B * B.
Proof. intros H. apply Rabs_bounds in H. nra. Qed.

Lemma square_nonneg (c : R) : 0 <= c * c.
Proof. nra. Qed.

(** The magnitude of a vector of moderate finite components. *)
Lemma magnitude_fl (c : V3.t float) :
  let T := F2R (V3.get0 c) * F2R (V3.get0 c)
           + F2R (V3.get1 c) * F2R (V3.get1 c)
           + F2R (V3.get2 c) * F2R (V3.get2 c) in
  finite (V3.get0 c) = true -> finite (V3.get1 c) = true ->
  finite (V3.get2 c) = true ->
  Rabs (F2R (V3.get0 c)) <= bpow 450 ->
  Rabs (F2R (V3.get1 c)) <= bpow 450 ->
  Rabs (F2R (V3.get2 c)) <= bpow 450 ->
  bpow (-900) <= T ->
  finite (V3.magnitude c) = true
  /\ Rabs (F2R (V3.magnitude c) - R_sqrt.sqrt T)
     <= R_sqrt.sqrt T / 17592186044416.
Proof.
  destruct c as [c0 c1 c2]. cbn [V3.get0 V3.get1 V3.get2]. cbv zeta.
  intros F0 F1 F2 B0 B1 B2 L.
  unfold V3.magnitude. cbn [V3.get0 V3.get1 V3.get2 nadd nmul nsqrt float_Number].
  set (X0 := F2R c0 * F2R c0) in *. set (X1 := F2R c1 * F2R c1) in *.
  set (X2 := F2R c2 * F2R c2) in *.
  set (T := X0 + X1 + X2) in *.
  assert (P0 : 0 <= X0) by apply square_nonneg.
  assert (P1 : 0 <= X1) by apply square_nonneg.
  assert (P2 : 0 <= X2) by apply square_nonneg.
  assert (E900 : bpow 450 * bpow 450 = bpow 900)
    by (rewrite <- bpow_add; reflexivity).
  assert (U0 : X0 <= bpow 900) by (rewrite <- E900; apply square_le, B0).
  assert (U1 : X1 <= bpow 900) by (rewrite <- E900; apply square_le, B1).
  assert (U2 : X2 <= bpow 900) by (rewrite <- E900; apply square_le, B2).
  pose proof (bpow_mult_lit 7 900 ltac:(lia)) as E907.
  change (IZR (2 ^ 7)) with 128 in E907.
  assert (L1000 : bpow (7 + 900) <= bpow 1000) by (apply bpow_le; lia).
  pose proof (a64_le 900 ltac:(lia)) as A900.
  pose proof (bpow_pos 900) as P900.
  (* the three squares *)
  assert (Q0 : fl (c0 * c0) X0)
    by (apply mul_fl; try assumption; fold X0;
        rewrite Rabs_pos_eq by exact P0; lra).
  assert (Q1 : fl (c1 * c1) X1)
    by (apply mul_fl; try assumption; fold X1;
        rewrite Rabs_pos_eq by exact P1; lra).
  assert (Q2 : fl (c2 * c2) X2)
    by (apply mul_fl; try assumption; fold X2;
        rewrite Rabs_pos_eq by exact P2; lra).
  pose proof (fl_upper _ _ (bpow 900) Q0
                ltac:(rewrite Rabs_pos_eq by exact P0; exact U0) A900) as V0.
  pose proof (fl_upper _ _ (bpow 900) Q1
                ltac:(rewrite Rabs_pos_eq by exact P1; exact U1) A900) as V1.
  pose proof (fl_upper _ _ (bpow 900) Q2
                ltac:(rewrite Rabs_pos_eq by exact P2; exact U2) A900) as V2.
  (* the two sums *)
  assert (W1 : Rabs (F2R (c0 * c0) + F2R (c1 * c1)) <= 6 * bpow 900).
  { apply Rle_trans with (1 := Rabs_triang _ _). lra. }
  assert (S1 : fl (c0 * c0 + c1 * c1) (F2R (c0 * c0) + F2R (c1 * c1)))
    by (apply add_fl; [apply Q0|apply Q1|lra]).
  pose proof (fl_upper _ _ (6 * bpow 900) S1 W1 ltac:(lra)) as V3.
  assert (W2 : Rabs (F2R (c0 * c0 + c1 * c1) + F2R (c2 * c2)) <= 21 * bpow 900).
  { apply Rle_trans with (1 := Rabs_triang _ _). lra. }
  assert (S2 : fl (c0 * c0 + c1 * c1 + c2 * c2)
                  (F2R (c0 * c0 + c1 * c1) + F2R (c2 * c2)))
    by (apply add_fl; [apply S1|apply Q2|lra]).
  pose proof (a64_below (-900) T ltac:(lia) L) as AT.
  destruct (sum_squares_real X0 X1 X2 _ _ _ _ _ P0 P1 P2 AT
              (proj2 Q0) (proj2 Q1) (proj2 Q2) (proj2 S1) (proj2 S2))
    as (ES & _ & _).
  fold T in ES.
  (* the square root *)
  assert (PT : 0 < T) by (pose proof (bpow_pos (-900)); lra).
  assert (PS : 0 <= F2R (c0 * c0 + c1 * c1 + c2 * c2)).
  { apply Rabs_bounds in ES. lra. }
  pose proof (sqrt_fl _ (proj1 S2) PS) as [FM EM].
  split; [exact FM|].
  refine (sqrt_real T _ _ (Rlt_le _ _ PT) _ ES EM).
  apply (a64_below (-450)); [lia|].
  rewrite <- (sqrt_bpow_double (-450)).
  apply sqrt_le_1_alt. exact L.
Qed.

Lemma sqrt_abs_le (c T : R) : c * c <= T -> Rabs c <= R_sqrt.sqrt T.
Proof.
  intros H. rewrite <- sqrt_Rsqr_abs. apply sqrt_le_1_alt. exact H.
Qed.

Lemma F2R_one : F2R 1 = 1.
Proof.
  unfold F2R.
  change (Prim2SF 1) with (S754_finite false 4503599627370496 (-52)).
  rewrite SF2R_finite. cbn [signed].
  change 4503599627370496%Z with (2 ^ 52)%Z.
  rewrite <- (bpow_IZR 52), <- bpow_add by lia. reflexivity.
Qed.

Lemma tolerance_real (T' mm d : R) :
  Rabs (T' - 1) <= / 137438953472 ->
  Rabs (mm - R_sqrt.sqrt T') <= R_sqrt.sqrt T' / 17592186044416 ->
  Rabs (d - (mm - 1)) <= u64 * Rabs (mm - 1) + a64 ->
  Rabs (mm - 1) <= 1 /\ Rabs d <= bpow (-30).
Proof.
  intros E1 EM ED.
  assert (R1 : (1 - / 137438953472) * R_sqrt.sqrt 1 <= R_sqrt.sqrt T'
               <= (1 + / 137438953472) * R_sqrt.sqrt 1).
  { apply sqrt_rel; [lra|lra|]. apply Rabs_bounds in E1. lra. }
  rewrite sqrt_1 in R1. clear E1.
  assert (B30 : bpow (-30) = / 1073741824).
  { change (-30)%Z with (- (30))%Z. rewrite bpow_opp, (bpow_IZR 30) by lia.
    reflexivity. }
  assert (A60 : a64 <= / 1152921504606846976).
  { pose proof (a64_below 0 1 ltac:(lia) ltac:(rewrite bpow_0; lra)). lra. }
  rewrite B30. rewrite u64_value in ED. pose proof a64_pos.
  generalize dependent (R_sqrt.sqrt T'). intros s EM R1.
  split_Rabs; split; lra.
Qed.

(** A vector of moderate finite components is normalised to a vector whose
    computed magnitude is within one millionth of one. *)
Lemma normalize_unit (c : V3.t float) :
  finite (V3.get0 c) = true -> finite (V3.get1 c) = true ->
  finite (V3.get2 c) = true ->
  Rabs (F2R (V3.get0 c)) <= bpow 450 ->
  Rabs (F2R (V3.get1 c)) <= bpow 450 ->
  Rabs (F2R (V3.get2 c)) <= bpow 450 ->
  bpow (-900) <= F2R (V3.get0 c) * F2R (V3.get0 c)
                 + F2R (V3.get1 c) * F2R (V3.get1 c)
                 + F2R (V3.get2 c) * F2R (V3.get2 c) ->
  unit_within_tolerance (V3.normalize c) = true.
Proof.
  intros F0 F1 F2 B0 B1 B2 L.
  destruct (magnitude_fl c F0 F1 F2 B0 B1 B2 L) as [FM EM].
  unfold V3.normalize. cbv zeta.
  set (m := V3.magnitude c) in *.
  destruct c as [c0 c1 c2]. cbn [V3.get0 V3.get1 V3.get2] in *.
  set (T := F2R c0 * F2R c0 + F2R c1 * F2R c1 + F2R c2 * F2R c2) in *.
  set (N := R_sqrt.sqrt T) in *.
  assert (PT : 0 < T) by (pose proof (bpow_pos (-900)); lra).
  assert (PN : 0 < N) by (apply sqrt_lt_R0, PT).
  assert (NN : N * N = T) by (apply sqrt_sqrt; lra).
  assert (C0 : Rabs (F2R c0) <= N)
    by (apply sqrt_abs_le; unfold T; pose proof (square_nonneg (F2R c1));
        pose proof (square_nonneg (F2R c2)); lra).
  assert (C1 : Rabs (F2R c1) <= N)
    by (apply sqrt_abs_le; unfold T; pose proof (square_nonneg (F2R c0));
        pose proof (square_nonneg (F2R c2)); lra).
  assert (C2 : Rabs (F2R c2) <= N)
    by (apply sqrt_abs_le; unfold T; pose proof (square_nonneg (F2R c0));
        pose proof (square_nonneg (F2R c1)); lra).
  assert (Pm : F2R m <> 0).
  { apply Rabs_bounds in EM. lra. }
  assert (A60 : a64 <= / 1152921504606846976).
  { pose proof (a64_below 0 1 ltac:(lia) ltac:(rewrite bpow_0; lra)). lra. }
  assert (Q : forall ck : float,
             finite ck = true -> Rabs (F2R ck) <= N ->
             finite (ck / m) = true
             /\ Rabs (F2R (ck / m) - F2R ck / N) <= / 2199023255552).
  { intros ck Fk Ck.
    assert (D : Rabs (F2R ck / F2R m) <= 2).
    { pose proof (bpow_pos 0).
      eapply (quotient_real (F2R ck) N (F2R m) (F2R ck / F2R m) PN Ck EM);
        [|exact A60].
      replace (F2R ck / F2R m - F2R ck / F2R m) with 0 by ring.
      rewrite Rabs_R0. pose proof a64_pos. rewrite u64_value.
      pose proof (Rabs_pos (F2R ck / F2R m)). lra. }
    assert (D' : Rabs (F2R ck / F2R m) <= bpow 1000).
    { apply Rle_trans with (1 := D). rewrite <- bpow_1. apply bpow_le. lia. }
    destruct (div_fl ck m Fk FM Pm D') as [Fq Eq].
    split; [exact Fq|].
    apply (quotient_real (F2R ck) N (F2R m) _ PN Ck EM Eq A60). }
  destruct (Q c0 F0 C0) as [G0 H0].
  destruct (Q c1 F1 C1) as [G1 H1].
  destruct (Q c2 F2 C2) as [G2 H2].
  assert (U : F2R c0 / N * (F2R c0 / N) + F2R c1 / N * (F2R c1 / N)
              + F2R c2 / N * (F2R c2 / N) = 1).
  { replace (F2R c0 / N * (F2R c0 / N) + F2R c1 / N * (F2R c1 / N)
             + F2R c2 / N * (F2R c2 / N)) with (T / (N * N))
      by (unfold T; field; lra).
    rewrite NN. field. lra. }
  destruct (unit_squares_real _ _ _ _ _ _ U H0 H1 H2) as (E1 & K0 & K1 & K2).
  cbn [V3.get0 V3.get1 V3.get2 ndiv float_Number].
  set (n := V3.create (c0 / m)%float (c1 / m)%float (c2 / m)%float).
  assert (B450 : 2 <= bpow 450) by (rewrite <- bpow_1; apply bpow_le; lia).
  assert (L' : bpow (-900)
               <= F2R (V3.get0 n) * F2R (V3.get0 n)
                  + F2R (V3.get1 n) * F2R (V3.get1 n)
                  + F2R (V3.get2 n) * F2R (V3.get2 n)).
  { cbn [V3.get0 V3.get1 V3.get2 n].
    apply Rabs_bounds in E1.
    assert (bpow (-900) <= bpow (-1)) by (apply bpow_le; lia).
    assert (bpow (-1) = / 2).
    { change (-1)%Z with (- (1))%Z. rewrite bpow_opp, bpow_1. reflexivity. }
    lra. }
  destruct (magnitude_fl n G0 G1 G2
              (Rle_trans _ _ _ K0 B450) (Rle_trans _ _ _ K1 B450)
              (Rle_trans _ _ _ K2 B450) L')
    as [FM' EM'].
  cbn [V3.get0 V3.get1 V3.get2 n] in EM'.
  assert (F1' : finite 1 = true) by reflexivity.
  assert (D1 : Rabs (F2R (V3.magnitude n) - 1) <= 1).
  { eapply (tolerance_real _ _ (F2R (V3.magnitude n) - 1) E1 EM').
    replace (F2R (V3.magnitude n) - 1 - (F2R (V3.magnitude n) - 1)) with 0
      by ring.
    rewrite Rabs_R0. pose proof a64_pos. rewrite u64_value.
    pose proof (Rabs_pos (F2R (V3.magnitude n) - 1)). lra. }
  assert (D1' : Rabs (F2R (V3.magnitude n) - F2R 1) <= bpow 1000).
  { rewrite F2R_one. apply Rle_trans with (1 := D1).
    rewrite <- bpow_0. apply bpow_le. lia. }
  destruct (sub_fl (V3.magnitude n) 1 FM' F1' D1') as [FD ED].
  rewrite F2R_one in ED.
  unfold unit_within_tolerance.
  apply small_leb_tolerance; [exact FD|].
  apply (tolerance_real _ _ _ E1 EM' ED).
Qed.

(** ** Comparisons *)

Lemma canonical_order (m1 m2 : positive) (e1 e2 : Z) :
  fexp64 (Zdigits2 (Zpos m1) + e1) = e1 ->
  fexp64 (Zdigits2 (Zpos m2) + e2) = e2 ->
  (e1 < e2)%Z ->
  IZR (Zpos m1) * bpow e1 <= IZR (Zpos m2) * bpow e2.
Proof.
  intros C1 C2 L.
  pose proof (canonical_lt (Zpos m1) e1 ltac:(lia) C1) as U.
  pose proof (fexp64_ge_emin (Zdigits2 (Zpos m1) + e1)) as G.
  destruct (canonical_cases (Zpos m2) e2 ltac:(lia) C2) as [F|F]; [|lia].
  apply IZR_lt in U. apply IZR_le in F.
  rewrite <- (bpow_IZR 53) in U by lia. rewrite <- (bpow_IZR 52) in F by lia.
  pose proof (bpow_pos e1). pose proof (bpow_pos e2).
  assert (bpow 53 * bpow e1 <= bpow 52 * bpow e2)
    by (rewrite <- !bpow_add; apply bpow_le; lia).
  pose proof (bpow_pos 52). pose proof (bpow_pos 53). nra.
Qed.

Lemma compare_cont_le (m1 m2 : positive) :
  Pos.compare_cont Eq m1 m2 <> Gt -> IZR (Zpos m1) <= IZR (Zpos m2).
Proof.
  intros H. apply IZR_le. change (Pos.compare_cont Eq m1 m2) with (m1 ?= m2)%positive in H.
  destruct (Pos.compare_spec m1 m2); [lia|lia|congruence].
Qed.

Lemma compare_cont_ge (m1 m2 : positive) :
  Pos.compare_cont Eq m1 m2 <> Lt -> IZR (Zpos m2) <= IZR (Zpos m1).
Proof.
  intros H. apply IZR_le. change (Pos.compare_cont Eq m1 m2) with (m1 ?= m2)%positive in H.
  destruct (Pos.compare_spec m1 m2); [lia|congruence|lia].
Qed.

Lemma SFleb_sound (x y : spec_float) :
  valid_binary x = true -> valid_binary y = true ->
  SFfinite x = true -> SFfinite y = true ->
  SFleb x y = true -> SF2R x <= SF2R y.
Proof.
  intros Vx Vy Fx Fy.
  destruct x as [sx|sx| |sx mx ex]; try discriminate;
    destruct y as [sy|sy| |sy my ey]; try discriminate.
  - intros _. cbn. lra.
  - unfold SFleb, SFcompare. rewrite SF2R_finite.
    assert (0 < IZR (Zpos my)) by (apply IZR_lt; lia). pose proof (bpow_pos ey).
    destruct sy; [discriminate|]. intros _. cbn. nra.
  - unfold SFleb, SFcompare. rewrite SF2R_finite.
    assert (0 < IZR (Zpos mx)) by (apply IZR_lt; lia). pose proof (bpow_pos ex).
    destruct sx; [|discriminate]. intros _. cbn. nra.
  - destruct (valid_finite _ _ _ Vx) as [Cx _].
    destruct (valid_finite _ _ _ Vy) as [Cy _].
    assert (Px : 0 < IZR (Zpos mx)) by (apply IZR_lt; lia).
    assert (Py : 0 < IZR (Zpos my)) by (apply IZR_lt; lia).
    pose proof (bpow_pos ex). pose proof (bpow_pos ey).
    rewrite !SF2R_finite. unfold SFleb, SFcompare.
    destruct sx, sy; cbn [signed]; try discriminate.
    + destruct (Z.compare_spec ex ey) as [E|L|G]; intros Hc.
      * subst ey.
        assert (IZR (Zpos my) <= IZR (Zpos mx)).
        { apply compare_cont_ge. intros E.
          rewrite E in Hc. discriminate. }
        nra.
      * discriminate.
      * pose proof (canonical_order my mx ey ex Cy Cx G). lra.
    + intros _. nra.
    + destruct (Z.compare_spec ex ey) as [E|L|G]; intros Hc.
      * subst ey.
        assert (IZR (Zpos mx) <= IZR (Zpos my)).
        { apply compare_cont_le. intros E.
          rewrite E in Hc. discriminate. }
        nra.
      * apply canonical_order; assumption.
      * discriminate.
Qed.

Lemma leb_sound (x y : float) :
  finite x = true -> finite y = true ->
  (x <=? y)%float = true -> F2R x <= F2R y.
Proof.
  intros Fx Fy H. rewrite leb_spec in H.
  apply SFleb_sound; try apply Prim2SF_valid; assumption.
Qed.

(** A value between two finite ones is finite. *)
Lemma leb_between (lo x hi : float) :
  finite lo = true -> finite hi = true ->
  (lo <=? x)%float = true -> (x <=? hi)%float = true ->
  finite x = true /\ F2R lo <= F2R x <= F2R hi.
Proof.
  intros Fl Fh L H.
  assert (Fx : finite x = true).
  { rewrite leb_spec in L, H. unfold finite in *.
    destruct (Prim2SF x) as [s|s| |s m e]; try reflexivity.
    - destruct s.
      + destruct (Prim2SF lo) as [?|?| |? ? ?]; discriminate.
      + destruct (Prim2SF hi) as [?|?| |? ? ?]; discriminate.
    - destruct (Prim2SF lo) as [?|?| |? ? ?]; discriminate. }
  split; [exact Fx|]. split; apply leb_sound; assumption.
Qed.

(** A value whose magnitude is below a finite one is finite. *)
Lemma abs_leb (x y : float) :
  finite y = true -> (abs x <=? y)%float = true ->
  finite x = true /\ Rabs (F2R x) <= F2R y.
Proof.
  intros Fy H.
  assert (Fx : finite x = true).
  { rewrite leb_spec, abs_spec in H. unfold finite in *.
    destruct (Prim2SF x) as [s|s| |s m e]; try reflexivity.
    - destruct (Prim2SF y) as [?|?| |? ? ?]; discriminate.
    - destruct (Prim2SF y) as [?|?| |? ? ?]; discriminate. }
  split; [exact Fx|].
  destruct (abs_exact x Fx) as [Fa Ea]. rewrite <- Ea.
  apply leb_sound; assumption.
Qed.

Lemma leb_abs (x y : float) :
  finite x = true -> finite y = true ->
  (x <=? abs y)%float = true -> F2R x <= Rabs (F2R y).
Proof.
  intros Fx Fy H.
  destruct (abs_exact y Fy) as [Fa Ea]. rewrite <- Ea.
  apply leb_sound; assumption.
Qed.

(** *** The constants compared with *)

Lemma SF2R_pow2 (e : Z) :
  SF2R (S754_finite false 4503599627370496 e) = bpow (52 + e).
Proof.
  rewrite SF2R_finite. cbn [signed].
  change 4503599627370496%Z with (2 ^ 52)%Z.
  rewrite <- (bpow_IZR 52), <- bpow_add by lia. reflexivity.
Qed.

Lemma F2R_two : F2R 2 = bpow 1.
Proof. exact (SF2R_pow2 (-51)). Qed.

Lemma F2R_low : F2R 0x1p-200 = bpow (-200).
Proof. exact (SF2R_pow2 (-252)). Qed.

Lemma F2R_high : F2R 0x1p+200 = bpow 200.
Proof. exact (SF2R_pow2 148). Qed.

Lemma F2R_gap : F2R 0x1p-10 = bpow (-10).
Proof. exact (SF2R_pow2 (-62)). Qed.

Lemma F2R_zero : F2R (float_of_nat 0) = 0.
Proof. reflexivity. Qed.

Lemma finite_zero : finite (float_of_nat 0) = true.
Proof. reflexivity. Qed.

(** ** Magnitudes tracked by powers of two *)


Lemma bpow_double (k : Z) : 2 * bpow k = bpow (k + 1).
Proof. rewrite bpow_add, bpow_1. ring. Qed.

Lemma bpow_half (k : Z) : bpow k / 2 = bpow (k - 1).
Proof.
  replace k with ((k - 1) + 1)%Z at 1 by lia. rewrite bpow_add, bpow_1. field.
Qed.

Lemma fl_below (z : float) (r : R) (k : Z) :
  fl z r -> Rabs r <= bpow k -> (-1073 <= k)%Z -> below z (k + 2).
Proof.
  intros F B Hk. split; [apply F|].
  pose proof (fl_upper z r (bpow k) F B (a64_le k Hk)).
  replace (k + 2)%Z with (k + 1 + 1)%Z by lia.
  rewrite <- !bpow_double. pose proof (bpow_pos k). lra.
Qed.

Lemma fl_above (z : float) (r : R) (k : Z) :
  fl z r -> bpow k <= Rabs r -> (-1000 <= k)%Z ->
  bpow (k - 1) <= Rabs (F2R z).
Proof.
  intros [_ E] B Hk. rewrite <- bpow_half.
  pose proof (a64_below k _ ltac:(lia) B) as A.
  rewrite u64_value in E. pose proof a64_pos.
  generalize dependent (bpow k). intros b B.
  generalize dependent (F2R z). intros v E.
  split_Rabs; lra.
Qed.

Lemma mul_below (x y : float) (k1 k2 : Z) :
  below x k1 -> below y k2 ->
  (-1073 <= k1 + k2 <= 1000)%Z ->
  fl (x * y) (F2R x * F2R y) /\ below (x * y) (k1 + k2 + 2).
Proof.
  intros [Fx Bx] [Fy By] Hk.
  assert (B : Rabs (F2R x * F2R y) <= bpow (k1 + k2)).
  { rewrite Rabs_mult, bpow_add.
    apply Rmult_le_compat; try apply Rabs_pos; assumption. }
  assert (F : fl (x * y) (F2R x * F2R y)).
  { apply mul_fl; [exact Fx|exact Fy|].
    apply Rle_trans with (1 := B). apply bpow_le. lia. }
  split; [exact F|]. apply (fl_below _ _ _ F B). lia.
Qed.

Lemma sub_below (x y : float) (k : Z) :
  below x k -> below y k ->
  (-1073 <= k <= 998)%Z ->
  fl (x - y) (F2R x - F2R y) /\ below (x - y) (k + 3).
Proof.
  intros [Fx Bx] [Fy By] Hk.
  assert (B : Rabs (F2R x - F2R y) <= bpow (k + 1)).
  { rewrite <- bpow_double.
    apply Rabs_bounds in Bx, By. apply Rabs_le. lra. }
  assert (F : fl (x - y) (F2R x - F2R y)).
  { apply sub_fl; [exact Fx|exact Fy|].
    apply Rle_trans with (1 := B). apply bpow_le. lia. }
  split; [exact F|].
  replace (k + 3)%Z with (k + 1 + 2)%Z by lia.
  apply (fl_below _ _ _ F B). lia.
Qed.

Lemma below_mono (z : float) (k l : Z) :
  below z k -> (k <= l)%Z -> below z l.
Proof.
  intros [F B] H. split; [exact F|].
  apply Rle_trans with (1 := B). apply bpow_le, H.
Qed.

Lemma mul_above (x y : R) (k1 k2 : Z) :
  bpow k1 <= Rabs x -> bpow k2 <= Rabs y -> bpow (k1 + k2) <= Rabs (x * y).
Proof.
  intros Hx Hy. rewrite Rabs_mult, bpow_add.
  apply Rmult_le_compat; try (apply Rlt_le, bpow_pos); assumption.
Qed.

(** *** Exact zeros *)

Lemma zero_value (y : float) :
  finite y = true -> F2R y = 0 -> exists s, Prim2SF y = S754_zero s.
Proof.
  unfold finite, F2R.
  destruct (Prim2SF y) as [s|s| |s m e]; try discriminate.
  - intros _ _. exists s. reflexivity.
  - intros _ E. exfalso. rewrite SF2R_finite in E.
    assert (0 < IZR (Zpos m)) by (apply IZR_lt; lia).
    pose proof (bpow_pos e). destruct s; cbn in E; nra.
Qed.

Lemma mul_zero_r (x y : float) :
  finite x = true -> finite y = true -> F2R y = 0 ->
  finite (x * y) = true /\ F2R (x * y) = 0.
Proof.
  intros Fx Fy E. destruct (zero_value y Fy E) as [s Hs].
  unfold finite, F2R in *. rewrite mul_spec, Hs.
  destruct (Prim2SF x) as [sx|sx| |sx mx ex]; try discriminate;
    split; reflexivity.
Qed.

(** *** Two ring positions apart *)

(** The difference of two rounded products [r * ci] and [r * cj] is at
    least [r / 2 ^ 12] in magnitude when [ci] and [cj] are [2 ^ -11]
    apart. *)
Lemma ring_gap_real (r ci cj bi bj : R) :
  bpow (-200) <= r ->
  Rabs ci <= bpow 1 -> Rabs cj <= bpow 1 ->
  bpow (-11) <= Rabs (cj - ci) ->
  Rabs (bi - r * ci) <= u64 * Rabs (r * ci) + a64 ->
  Rabs (bj - r * cj) <= u64 * Rabs (r * cj) + a64 ->
  bpow (-212) <= Rabs (bj - bi).
Proof.
  intros Hr Hi Hj G Ei Ej. rewrite bpow_1 in Hi, Hj.
  pose proof (bpow_pos (-200)) as P200.
  assert (Pi : Rabs (r * ci) <= 2 * r).
  { rewrite Rabs_mult, (Rabs_pos_eq r) by lra.
    rewrite (Rmult_comm 2). apply Rmult_le_compat_l; lra. }
  assert (Pj : Rabs (r * cj) <= 2 * r).
  { rewrite Rabs_mult, (Rabs_pos_eq r) by lra.
    rewrite (Rmult_comm 2). apply Rmult_le_compat_l; lra. }
  assert (B11 : bpow (-11) = / 2048).
  { change (-11)%Z with (- (11))%Z. rewrite bpow_opp, (bpow_IZR 11) by lia.
    reflexivity. }
  assert (D : r / 2048 <= Rabs (r * cj - r * ci)).
  { rewrite <- Rmult_minus_distr_l, Rabs_mult, (Rabs_pos_eq r) by lra.
    unfold Rdiv. rewrite <- B11. apply Rmult_le_compat_l; lra. }
  assert (B212 : bpow (-212) = bpow (-200) / 4096).
  { change (-212)%Z with (-200 + - (12))%Z.
    rewrite bpow_add, bpow_opp, (bpow_IZR 12) by lia. reflexivity. }
  pose proof (a64_below (-200) r ltac:(lia) Hr) as A.
  rewrite B212. rewrite u64_value in *. pose proof a64_pos.
  clear Hi Hj G B11 B212.
  generalize dependent (r * ci). intros pi Ei Pi.
  generalize dependent (r * cj). intros pj Ej Pj D.
  split_Rabs; lra.
Qed.

Lemma moderate_range (x : float) :
  moderate x = true ->
  finite x = true /\ bpow (-200) <= F2R x <= bpow 200.
Proof.
  unfold moderate. intros H. apply andb_true_iff in H as [L U].
  rewrite <- F2R_low, <- F2R_high.
  apply leb_between; (reflexivity || assumption).
Qed.

Lemma moderate_below (x : float) : moderate x = true -> below x 200.
Proof.
  intros H. destruct (moderate_range x H) as [F [L U]].
  split; [exact F|]. pose proof (bpow_pos (-200)).
  rewrite Rabs_pos_eq; lra.
Qed.

Lemma abs_leb_two (x : float) :
  (abs x <=? 2)%float = true -> below x 1.
Proof.
  intros H. unfold below. rewrite <- F2R_two.
  apply abs_leb; [reflexivity|exact H].
Qed.

Lemma gap_real (d x : R) :
  bpow (-10) <= Rabs d ->
  Rabs (d - x) <= u64 * Rabs x + a64 ->
  bpow (-11) <= Rabs x.
Proof.
  intros G E.
  assert (B10 : bpow (-10) = / 1024).
  { change (-10)%Z with (- (10))%Z. rewrite bpow_opp, (bpow_IZR 10) by lia.
    reflexivity. }
  assert (B11 : bpow (-11) = / 2048).
  { change (-11)%Z with (- (11))%Z. rewrite bpow_opp, (bpow_IZR 11) by lia.
    reflexivity. }
  assert (A60 : a64 <= / 1152921504606846976).
  { pose proof (a64_below 0 1 ltac:(lia) ltac:(rewrite bpow_0; lra)). lra. }
  rewrite B10 in G. rewrite B11. rewrite u64_value in E. pose proof a64_pos.
  split_Rabs; lra.
Qed.

(** Two values at most 2 in magnitude whose computed difference is at
    least [2 ^ -10] are [2 ^ -11] apart. *)
Lemma gap_apart (x y : float) :
  below x 1 -> below y 1 ->
  (0x1p-10 <=? abs (y - x))%float = true ->
  bpow (-11) <= Rabs (F2R y - F2R x).
Proof.
  intros Bx By H.
  destruct (sub_below y x 1 By Bx ltac:(lia)) as [F [Fd _]].
  apply (gap_real (F2R (y - x))); [|apply F].
  rewrite <- F2R_gap. apply leb_abs; [reflexivity|exact Fd|exact H].
Qed.

Lemma square_above (c : R) (k : Z) :
  bpow k <= Rabs c -> bpow (k + k) <= c * c.
Proof.
  intros H. rewrite bpow_add. pose proof (bpow_pos k).
  split_Rabs; nra.
Qed.

Lemma zero_below (k : Z) : below (float_of_nat 0) k.
Proof.
  split; [reflexivity|]. rewrite F2R_zero, Rabs_R0. apply Rlt_le, bpow_pos.
Qed.

(** The cross product of a side: its components are finite and moderate,
    and one of them is not small. *)
Lemma cross_moderate (ci si cj sj h r1 r2 : float) :
  below ci 1 -> below si 1 -> below cj 1 -> below sj 1 ->
  moderate h = true -> moderate r1 = true -> moderate r2 = true ->
  bpow (-11) <= Rabs (F2R cj - F2R ci)
  \/ bpow (-11) <= Rabs (F2R sj - F2R si) ->
  let zero := float_of_nat 0 in
  let Bi := V3.create (r1 * ci)%float zero (r1 * si)%float in
  let Ti := V3.create (r2 * ci)%float h (r2 * si)%float in
  let Bj := V3.create (r1 * cj)%float zero (r1 * sj)%float in
  let C := V3.cross (V3.subtract Ti Bi) (V3.subtract Bj Bi) in
  below (V3.get0 C) 450 /\ below (V3.get1 C) 450 /\ below (V3.get2 C) 450
  /\ bpow (-900) <= F2R (V3.get0 C) * F2R (V3.get0 C)
                    + F2R (V3.get1 C) * F2R (V3.get1 C)
                    + F2R (V3.get2 C) * F2R (V3.get2 C).
Proof.
  intros Bci Bsi Bcj Bsj Mh M1 M2 Gap zero Bi Ti Bj C.
  destruct (moderate_range h Mh) as [Fh [Lh Uh]].
  destruct (moderate_range r1 M1) as [F1 [L1 U1]].
  pose proof (moderate_below h Mh) as Bh.
  pose proof (moderate_below r1 M1) as B1.
  pose proof (moderate_below r2 M2) as B2.
  (* the ring vertices *)
  destruct (mul_below r1 ci 200 1 B1 Bci ltac:(lia)) as [Ebxi Bbxi].
  destruct (mul_below r1 si 200 1 B1 Bsi ltac:(lia)) as [Ebzi Bbzi].
  destruct (mul_below r1 cj 200 1 B1 Bcj ltac:(lia)) as [Ebxj Bbxj].
  destruct (mul_below r1 sj 200 1 B1 Bsj ltac:(lia)) as [Ebzj Bbzj].
  destruct (mul_below r2 ci 200 1 B2 Bci ltac:(lia)) as [_ Btxi].
  destruct (mul_below r2 si 200 1 B2 Bsi ltac:(lia)) as [_ Btzi].
  change (200 + 1 + 2)%Z with 203%Z in *.
  (* the two edges *)
  destruct (sub_below _ _ 203 Btxi Bbxi ltac:(lia)) as [_ BA0].
  destruct (sub_below h zero 203 (below_mono h 200 203 Bh ltac:(lia))
              (zero_below 203) ltac:(lia)) as [EA1 BA1].
  destruct (sub_below _ _ 203 Btzi Bbzi ltac:(lia)) as [_ BA2].
  destruct (sub_below _ _ 203 Bbxj Bbxi ltac:(lia)) as [EB0 BB0].
  destruct (sub_below _ _ 203 Bbzj Bbzi ltac:(lia)) as [EB2 BB2].
  change (203 + 3)%Z with 206%Z in *.
  assert (ZB1 : finite (zero - zero) = true /\ F2R (zero - zero) = 0)
    by (split; reflexivity).
  destruct ZB1 as [FB1 VB1].
  (* the products of the cross product *)
  destruct (mul_below _ _ 206 206 BA1 BB2 ltac:(lia)) as [Ep0 Bp0].
  destruct (mul_zero_r _ (zero - zero) (proj1 BA2) FB1 VB1) as [Fz0 Vz0].
  destruct (mul_below _ _ 206 206 BA2 BB0 ltac:(lia)) as [_ Bp1].
  destruct (mul_below _ _ 206 206 BA0 BB2 ltac:(lia)) as [_ Bq1].
  destruct (mul_zero_r _ (zero - zero) (proj1 BA0) FB1 VB1) as [Fz2 Vz2].
  destruct (mul_below _ _ 206 206 BA1 BB0 ltac:(lia)) as [Ep2 Bp2].
  change (206 + 206 + 2)%Z with 414%Z in *.
  assert (Bz0 : below ((r2 * si - r1 * si) * (zero - zero)) 414).
  { split; [exact Fz0|]. rewrite Vz0, Rabs_R0. apply Rlt_le, bpow_pos. }
  assert (Bz2 : below ((r2 * ci - r1 * ci) * (zero - zero)) 414).
  { split; [exact Fz2|]. rewrite Vz2, Rabs_R0. apply Rlt_le, bpow_pos. }
  destruct (sub_below _ _ 414 Bp0 Bz0 ltac:(lia)) as [EC0 BC0].
  destruct (sub_below _ _ 414 Bp1 Bq1 ltac:(lia)) as [_ BC1].
  destruct (sub_below _ _ 414 Bz2 Bp2 ltac:(lia)) as [EC2 BC2].
  change (414 + 3)%Z with 417%Z in *.
  unfold C, V3.cross, V3.subtract, Bi, Ti, Bj.
  cbn [V3.get0 V3.get1 V3.get2 nsub nmul float_Number].
  split; [apply (below_mono _ 417); [exact BC0|lia]|].
  split; [apply (below_mono _ 417); [exact BC1|lia]|].
  split; [apply (below_mono _ 417); [exact BC2|lia]|].
  (* the height edge is at least half the height *)
  assert (LA1 : bpow (-201) <= Rabs (F2R (h - zero))).
  { apply (fl_above _ _ (-200) EA1); [|lia].
    change (F2R zero) with 0. pose proof (bpow_pos (-200)).
    rewrite Rminus_0_r, Rabs_pos_eq; lra. }
  match goal with
  | |- _ <= ?x * ?x + ?y * ?y + ?z * ?z =>
      pose proof (square_nonneg x); pose proof (square_nonneg y);
      pose proof (square_nonneg z)
  end.
  destruct Gap as [G|G].
  - (* apart in the first coordinate: the third component is not small *)
    pose proof (ring_gap_real _ _ _ _ _ L1 (proj2 Bci) (proj2 Bcj) G
                  (proj2 Ebxi) (proj2 Ebxj)) as LD.
    pose proof (fl_above _ _ (-212) EB0 LD ltac:(lia)) as LB0.
    pose proof (mul_above _ _ _ _ LA1 LB0) as LP.
    pose proof (fl_above _ _ _ Ep2 LP ltac:(lia)) as Lp2.
    assert (LC : bpow (-201 + (-212 - 1) - 1)
                 <= Rabs (F2R ((r2 * ci - r1 * ci) * (zero - zero))
                          - F2R ((h - zero) * (r1 * cj - r1 * ci)))).
    { rewrite Vz2, Rminus_0_l, Rabs_Ropp. exact Lp2. }
    pose proof (fl_above _ _ _ EC2 LC ltac:(lia)) as LC2.
    apply square_above in LC2.
    match type of LC2 with
    | bpow ?k <= _ => assert (M : bpow (-900) <= bpow k) by (apply bpow_le; lia)
    end.
    lra.
  - (* apart in the third coordinate: the first component is not small *)
    pose proof (ring_gap_real _ _ _ _ _ L1 (proj2 Bsi) (proj2 Bsj) G
                  (proj2 Ebzi) (proj2 Ebzj)) as LD.
    pose proof (fl_above _ _ (-212) EB2 LD ltac:(lia)) as LB2.
    pose proof (mul_above _ _ _ _ LA1 LB2) as LP.
    pose proof (fl_above _ _ _ Ep0 LP ltac:(lia)) as Lp0.
    assert (LC : bpow (-201 + (-212 - 1) - 1)
                 <= Rabs (F2R ((h - zero) * (r1 * sj - r1 * si))
                          - F2R ((r2 * si - r1 * si) * (zero - zero)))).
    { rewrite Vz0, Rminus_0_r. exact Lp0. }
    pose proof (fl_above _ _ _ EC0 LC ltac:(lia)) as LC0.
    apply square_above in LC0.
    match type of LC0 with
    | bpow ?k <= _ => assert (M : bpow (-900) <= bpow k) by (apply bpow_le; lia)
    end.
    lra.
Qed.

Section AnyHost.
Context {T : Trig float}.

(** Within the moderate range, at well placed ring positions, the
    computed side normal has a computed magnitude within one millionth
    of one. *)
Lemma side_normal_unit (sides : nat) (h r1 r2 : float) (i : nat) :
  moderate h = true -> moderate r1 = true -> moderate r2 = true ->
  well_placed sides i = true ->
  unit_within_tolerance (side_normal sides h r1 r2 i) = true.
Proof.
  intros Mh M1 M2 W. unfold well_placed in W.
  cbv zeta in W.
  apply andb_true_iff in W as [W G].
  apply andb_true_iff in W as [W Wsj].
  apply andb_true_iff in W as [W Wcj].
  apply andb_true_iff in W as [Wci Wsi].
  apply abs_leb_two in Wci, Wsi, Wcj, Wsj.
  assert (Gap : bpow (-11)
                <= Rabs (F2R (ncos (ring_angle sides ((i + 1) mod sides)))
                         - F2R (ncos (ring_angle sides i)))
                \/ bpow (-11)
                   <= Rabs (F2R (nsin (ring_angle sides ((i + 1) mod sides)))
                            - F2R (nsin (ring_angle sides i)))).
  { apply orb_true_iff in G as [G|G]; [left|right];
      apply gap_apart; assumption. }
  destruct (cross_moderate _ _ _ _ h r1 r2 Wci Wsi Wcj Wsj Mh M1 M2 Gap)
    as ([F0 B0] & [F1 B1] & [F2 B2] & L).
  unfold side_normal. cbv zeta.
  apply normalize_unit; assumption.
Qed.

End AnyHost.

(** A moderate height or radius is positive, as the validation asks. *)
Lemma moderate_positive (x : float) :
  moderate x = true -> (0 <? x)%float = true.
Proof.
  unfold moderate. intros H. apply andb_true_iff in H as [L _].
  rewrite leb_spec in L. rewrite ltb_spec.
  change (Prim2SF 0x1p-200)
    with (S754_finite false 4503599627370496 (-252)) in L.
  change (Prim2SF 0) with (S754_zero false).
  unfold SFleb, SFltb, SFcompare in *.
  destruct (Prim2SF x) as [s|s| |s m e]; try discriminate;
    destruct s; (discriminate || reflexivity).
Qed.

End Errors.

(** ** Texts and their lines *)

Lemma append_assoc (a b c : string) : ((a ++ b) ++ c = a ++ (b ++ c))%string.
Proof. induction a as [|x a IH]; cbn; [reflexivity | now rewrite IH]. Qed.

Lemma has_LF_app (a b : string) :
  has_LF (a ++ b)%string = has_LF a || has_LF b.
Proof.
  induction a as [|x a IH]; cbn; [reflexivity|].
  rewrite IH. apply orb_assoc.
Qed.

Lemma lines_no_LF (s : string) : has_LF s = false -> lines s = [s].
Proof.
  induction s as [|c r IH]; cbn; [reflexivity|].
  intros H. apply orb_false_iff in H as [Hc Hr].
  rewrite Hc, (IH Hr). reflexivity.
Qed.

Lemma lines_app_LF (s1 s2 : string) :
  has_LF s1 = false -> lines (s1 ++ LF ++ s2)%string = s1 :: lines s2.
Proof.
  induction s1 as [|c r IH].
  - reflexivity.
  - cbn [append lines has_LF]. intros H. apply orb_false_iff in H as [Hc Hr].
    rewrite Hc, (IH Hr). reflexivity.
Qed.

(** Joining pieces that hold no line feed and splitting again gives the
    pieces back. *)
Lemma lines_concat (l : list string) :
  l <> [] -> Forall (fun s => has_LF s = false) l ->
  lines (String.concat LF l) = l.
Proof.
  induction l as [|x [|y t] IH]; intros Hne Hall.
  - contradiction.
  - cbn. apply lines_no_LF. inversion Hall; assumption.
  - cbn [String.concat]. inversion Hall as [|? ? Hx Ht]; subst.
    rewrite lines_app_LF by exact Hx. f_equal. apply IH; [discriminate|exact Ht].
Qed.

Lemma concat_nested (hs body : list string) :
  hs <> [] -> body <> [] ->
  String.concat LF (String.concat LF hs :: body) = String.concat LF (hs ++ body).
Proof.
  intros Hh Hb. destruct body as [|b body]; [contradiction|].
  cbn [String.concat].
  induction hs as [|x [|y t] IH]; [contradiction| |].
  - reflexivity.
  - change (String.concat LF (x :: y :: t)) with (x ++ LF ++ String.concat LF (y :: t))%string.
    change ((x :: y :: t) ++ b :: body) with (x :: (y :: t) ++ b :: body).
    change (String.concat LF (x :: (y :: t) ++ b :: body))
      with (x ++ LF ++ String.concat LF ((y :: t) ++ b :: body))%string.
    rewrite <- IH by discriminate. rewrite !append_assoc. reflexivity.
Qed.

Lemma has_LF_string_of_uint (d : Decimal.uint) :
  has_LF (NilEmpty.string_of_uint d) = false.
Proof. induction d; cbn; assumption || reflexivity. Qed.

Lemma has_LF_show (d : Decimal.uint) :
  has_LF (NilZero.string_of_uint d) = false.
Proof.
  destruct d; try apply (has_LF_string_of_uint (_ d)); reflexivity.
Qed.

Lemma has_LF_show_nat (n : nat) : has_LF (JS.show_nat n) = false.
Proof. apply has_LF_show. Qed.

Lemma has_LF_show_Z (n : Z) : has_LF (JS.show_Z n) = false.
Proof. apply has_LF_show. Qed.

Lemma has_LF_zeros (k : nat) : has_LF (JS.zeros k) = false.
Proof. induction k; cbn; [reflexivity | assumption]. Qed.

Lemma has_LF_substring (s : string) (n m : nat) :
  has_LF s = false -> has_LF (substring n m s) = false.
Proof.
  revert n m. induction s as [|c r IH]; intros n m H.
  - destruct n, m; reflexivity.
  - cbn in H. apply orb_false_iff in H as [Hc Hr].
    destruct n as [|n]; cbn.
    + destruct m as [|m]; cbn; [reflexivity|]. rewrite Hc. apply IH, Hr.
    + apply IH, Hr.
Qed.


Lemma prefix_app (p s : string) : String.prefix p (p ++ s)%string = true.
Proof.
  induction p as [|c p IH]; cbn.
  - destruct s; reflexivity.
  - destruct (ascii_dec c c); [exact IH | contradiction].
Qed.

Lemma filter_all {A : Type} (p : A -> bool) (l : list A) :
  Forall (fun x => p x = true) l -> filter p l = l.
Proof.
  induction 1 as [|x l Hx _ IH]; cbn; [reflexivity|]. now rewrite Hx, IH.
Qed.

Lemma filter_none {A : Type} (p : A -> bool) (l : list A) :
  Forall (fun x => p x = false) l -> filter p l = [].
Proof.
  induction 1 as [|x l Hx _ IH]; cbn; [reflexivity|]. now rewrite Hx.
Qed.

(** ** Numerals *)

Lemma list_ascii_of_string_app (a b : string) :
  list_ascii_of_string (a ++ b)
  = list_ascii_of_string a ++ list_ascii_of_string b.
Proof. induction a as [|c a IH]; cbn; [reflexivity | now rewrite IH]. Qed.

Lemma append_empty (s : string) : (s ++ "")%string = s.
Proof. induction s as [|c s IH]; cbn; [reflexivity | now rewrite IH]. Qed.

Lemma append_inj_l (p a b : string) : (p ++ a = p ++ b)%string -> a = b.
Proof.
  induction p as [|c p IH]; cbn; [auto|]. intros E. injection E as E. auto.
Qed.

Lemma length_append (a b : string) :
  String.length (a ++ b)%string = String.length a + String.length b.
Proof. induction a as [|c a IH]; cbn; [reflexivity | now rewrite IH]. Qed.

(** The digits of a numeral are read up to what follows it, and their
    value in radix 10 is the number it denotes. *)
Lemma span_digits_numeral (d : Decimal.uint) (tail : list ascii) (acc : nat) :
  fst (JS.span_digits 10 tail) = [] ->
  let (ds, rest) :=
    JS.span_digits 10
      (list_ascii_of_string (NilEmpty.string_of_uint d) ++ tail) in
  fold_left (fun a x => a * 10 + x)%Z ds (Z.of_nat acc)
  = Z.of_nat (Nat.of_uint_acc d acc)
  /\ (d <> Decimal.Nil -> ds <> []).
Proof.
  intros Ht. revert acc.
  induction d as [|d IH|d IH|d IH|d IH|d IH|d IH|d IH|d IH|d IH|d IH];
    intros acc;
    [cbn [NilEmpty.string_of_uint list_ascii_of_string app];
     destruct (JS.span_digits 10 tail) as [ds rest]; cbn [fst] in Ht;
     subst ds; split; [reflexivity | congruence]|..];
    cbn [NilEmpty.string_of_uint list_ascii_of_string JS.span_digits app];
    match goal with
    | |- context [JS.digit_of 10 ?c] =>
        let v := eval vm_compute in (JS.digit_of 10 c) in
        change (JS.digit_of 10 c) with v; cbv iota
    end;
    match goal with
    | |- context [Nat.of_uint_acc (_ d) acc] =>
        cbn [Nat.of_uint_acc]
    end;
    match goal with
    | |- context [Nat.of_uint_acc d ?acc'] => specialize (IH acc')
    end;
    destruct (JS.span_digits 10 (_ ++ tail)) as [ds rest];
    destruct IH as (V & _);
    (split; [|discriminate]);
    cbn [fold_left]; rewrite <- V; f_equal;
    rewrite Nat.tail_mul_spec; lia.
Qed.

(** A numeral starts with no white space and no sign, and a numeral
    followed by a point, or by nothing, is no hexadecimal literal. *)
Lemma parseInt_numeral_prefix (d : Decimal.uint) (tail : list ascii) :
  d <> Decimal.Nil ->
  tail = [] \/ (exists r, tail = "."%char :: r) ->
  JS.parseInt (string_of_list_ascii
                 (list_ascii_of_string (NilEmpty.string_of_uint d) ++ tail))
  = Some (Z.of_nat (Nat.of_uint d)).
Proof.
  intros Hd Ht. unfold JS.parseInt.
  rewrite list_ascii_of_string_of_list_ascii.
  assert (P : forall cs : list ascii,
            cs = list_ascii_of_string (NilEmpty.string_of_uint d) ++ tail ->
            JS.trim_start cs = cs /\ JS.strip_sign cs = (false, cs)
            /\ match cs with
               | "0"%char :: ("x"%char | "X"%char) :: r => (16%Z, r)
               | _ => (10%Z, cs)
               end = (10%Z, cs)).
  { intros cs ->.
    destruct d as [|d|d|d|d|d|d|d|d|d|d]; [contradiction|..];
      try (repeat split; reflexivity).
    destruct d; try (repeat split; reflexivity).
    destruct Ht as [-> | [r ->]]; repeat split; reflexivity. }
  destruct (P _ eq_refl) as (T & S & X).
  rewrite T, S, X.
  assert (Hs : fst (JS.span_digits 10 tail) = [])
    by (destruct Ht as [-> | [r ->]]; reflexivity).
  pose proof (span_digits_numeral d tail 0 Hs) as V.
  destruct (JS.span_digits 10 (_ ++ tail)) as [ds rest].
  destruct V as (V & N). cbn [fst].
  destruct ds as [|x ds]; [contradiction (N Hd); reflexivity|].
  unfold JS.digits_value. change 0%Z with (Z.of_nat 0). rewrite V. reflexivity.
Qed.

Lemma parseInt_show_nat_prefix (n : nat) (tail : list ascii) :
  tail = [] \/ (exists r, tail = "."%char :: r) ->
  JS.parseInt (JS.show_nat n ++ string_of_list_ascii tail)
  = Some (Z.of_nat n).
Proof.
  intros Ht.
  rewrite <- (string_of_list_ascii_of_string
                (JS.show_nat n ++ string_of_list_ascii tail)).
  rewrite list_ascii_of_string_app, list_ascii_of_string_of_list_ascii.
  unfold JS.show_nat.
  pose proof (Unsigned.of_to n) as E.
  destruct (Nat.to_uint n) as [|d|d|d|d|d|d|d|d|d|d] eqn:U;
    [cbn in E; subst n; destruct Ht as [-> | [r ->]]; reflexivity|..];
    cbn [NilZero.string_of_uint];
    rewrite parseInt_numeral_prefix by (discriminate || exact Ht);
    rewrite E; reflexivity.
Qed.

(** [parseInt] reads the decimal numeral of a number back. *)
Lemma parseInt_show_nat (n : nat) :
  JS.parseInt (JS.show_nat n) = Some (Z.of_nat n).
Proof.
  rewrite <- (append_empty (JS.show_nat n)).
  apply (parseInt_show_nat_prefix n []). left. reflexivity.
Qed.

(** [parseInt] stops at the decimal point. *)
Lemma parseInt_fraction (n : nat) (r : string) :
  JS.parseInt (JS.show_nat n ++ "." ++ r) = Some (Z.of_nat n).
Proof.
  rewrite <- (string_of_list_ascii_of_string r).
  apply (parseInt_show_nat_prefix n ("."%char :: list_ascii_of_string r)).
  right. eexists. reflexivity.
Qed.

Lemma show_nat_inj (n n' : nat) : JS.show_nat n = JS.show_nat n' -> n = n'.
Proof.
  intros E. apply (f_equal JS.parseInt) in E.
  rewrite !parseInt_show_nat in E. injection E as E. lia.
Qed.

Lemma occurs_numeral (c : ascii) (d : Decimal.uint) :
  JS.digit_of 10 c = None -> occurs c (NilEmpty.string_of_uint d) = false.
Proof.
  intros Hc.
  induction d; cbn [NilEmpty.string_of_uint occurs]; [reflexivity|..];
    rewrite IHd, orb_false_r;
    match goal with
    | |- Ascii.eqb c ?k = false =>
        destruct (Ascii.eqb_spec c k) as [E|E]; [|reflexivity];
        rewrite E in Hc; vm_compute in Hc; discriminate
    end.
Qed.

Lemma occurs_show_nat (c : ascii) (n : nat) :
  JS.digit_of 10 c = None -> occurs c (JS.show_nat n) = false.
Proof.
  intros Hc. unfold JS.show_nat.
  destruct (Nat.to_uint n) eqn:U; cbn [NilZero.string_of_uint];
    try (apply occurs_numeral; exact Hc).
  cbn [occurs]. rewrite orb_false_r.
  destruct (Ascii.eqb_spec c "0") as [E|E]; [|reflexivity].
  rewrite E in Hc. vm_compute in Hc. discriminate.
Qed.

(** Two texts that agree, each a prefix, then a separator that neither
    prefix holds, then a rest, have the same prefix and the same rest. *)
Lemma same_prefix_before (c : ascii) (a b r r' : string) :
  occurs c a = false -> occurs c b = false ->
  (a ++ String c r)%string = (b ++ String c r')%string -> a = b /\ r = r'.
Proof.
  revert b. induction a as [|x a IH]; intros [|y b] Ha Hb E; cbn in *.
  - injection E as ->. split; reflexivity.
  - injection E as -> _. rewrite Ascii.eqb_refl in Hb. discriminate.
  - injection E as -> _. rewrite Ascii.eqb_refl in Ha. discriminate.
  - injection E as -> E. apply orb_false_iff in Ha as [_ Ha].
    apply orb_false_iff in Hb as [_ Hb].
    destruct (IH b Ha Hb E) as [-> ->]. split; reflexivity.
Qed.

(** A numeral followed by a separator determines the number. *)
Lemma numeral_before (c : ascii) (n n' : nat) (r r' : string) :
  JS.digit_of 10 c = None ->
  (JS.show_nat n ++ String c r)%string = (JS.show_nat n' ++ String c r')%string ->
  n = n' /\ r = r'.
Proof.
  intros Hc E.
  apply same_prefix_before in E; try (apply occurs_show_nat; exact Hc).
  destruct E as [E ->]. split; [apply show_nat_inj, E | reflexivity].
Qed.

(** X14. A face line determines its face record: the three vertex indices
    and the normal index can be read back from the text, so two different
    records are never written as the same line. *)
Theorem face_line_injective (t t' : face) :
  face_line t = face_line t' -> t = t'.
Proof.
  destruct t as [a b c n], t' as [a' b' c' n'].
  unfold face_line. cbn [fv1 fv2 fv3 fn]. intros E.
  injection E as E.
  apply (numeral_before "/") in E as [-> E]; [|reflexivity].
  injection E as E.
  apply (numeral_before " ") in E as [-> E]; [|reflexivity].
  apply (numeral_before "/") in E as [-> E]; [|reflexivity].
  injection E as E.
  apply (numeral_before " ") in E as [_ E]; [|reflexivity].
  apply (numeral_before "/") in E as [-> E]; [|reflexivity].
  reflexivity.
Qed.

(** ** Digits *)

Lemma digits_only_app (a b : string) :
  digits_only (a ++ b)%string = digits_only a && digits_only b.
Proof.
  induction a as [|c a IH]; cbn; [reflexivity|].
  rewrite IH. apply andb_assoc.
Qed.

Lemma digits_only_numeral (d : Decimal.uint) :
  digits_only (NilEmpty.string_of_uint d) = true.
Proof. induction d; cbn; assumption || reflexivity. Qed.

Lemma digits_only_show_Z (n : Z) : digits_only (JS.show_Z n) = true.
Proof.
  unfold JS.show_Z. destruct (N.to_uint _);
    try apply (digits_only_numeral (_ u)); reflexivity.
Qed.

Lemma digits_only_zeros (k : nat) : digits_only (JS.zeros k) = true.
Proof. induction k; cbn; [reflexivity | assumption]. Qed.

Lemma digits_only_substring (s : string) (n m : nat) :
  digits_only s = true -> digits_only (substring n m s) = true.
Proof.
  revert n m. induction s as [|c r IH]; intros n m H.
  - destruct n, m; reflexivity.
  - cbn in H. apply andb_true_iff in H as [Hc Hr].
    destruct n as [|n]; cbn.
    + destruct m as [|m]; cbn; [reflexivity|]. rewrite Hc. apply IH, Hr.
    + apply IH, Hr.
Qed.

Lemma length_substring (s : string) (n m : nat) :
  n + m <= String.length s -> String.length (substring n m s) = m.
Proof.
  revert n m. induction s as [|c r IH]; intros n m H; cbn in H.
  - destruct n, m; cbn; lia.
  - destruct n as [|n]; cbn.
    + destruct m as [|m]; cbn; [reflexivity|]. rewrite (IH 0 m) by lia.
      reflexivity.
    + apply IH. lia.
Qed.

Lemma length_zeros (k : nat) : String.length (JS.zeros k) = k.
Proof. induction k; cbn; [reflexivity | now f_equal]. Qed.

Lemma length_show_Z (n : Z) : 1 <= String.length (JS.show_Z n).
Proof.
  unfold JS.show_Z. destruct (N.to_uint _); cbn; lia.
Qed.

(** ** Lists *)

(** Pairs laid out flat hold what the two columns hold. *)
Lemma interleaved_permutation {A : Type} (g1 g2 : nat -> A) (l : list nat) :
  Permutation (flat_map (fun i => [g1 i; g2 i]) l) (map g1 l ++ map g2 l).
Proof.
  induction l as [|x l IH]; [constructor|].
  cbn [flat_map map app]. apply perm_skip.
  apply Permutation_cons_app. exact IH.
Qed.

Lemma length_edges (fs : list face) :
  List.length (edges fs) = 3 * List.length fs.
Proof.
  induction fs as [|t fs IH]; [reflexivity|].
  unfold edges in *. cbn [flat_map]. rewrite length_app, IH. cbn. lia.
Qed.

(** The faces of every admissible number of sides form a closed surface:
    the check runs on each of the 34 face lists. *)
Lemma closed_surface_faces (sides : nat) :
  3 <= sides <= 36 -> closed_surface (faces sides) = true.
Proof.
  intros [Hlo Hhi].
  do 3 (destruct sides as [|sides]; [lia|]).
  do 34 (destruct sides as [|sides]; [vm_compute; reflexivity|]).
  lia.
Qed.

(** ** What the loops leave in the arrays *)

Section Facts.
Variables cos_approx sin_approx : float -> float.
Variable Number_toString : float -> string.

#[local]
Instance trig : Trig float := float_Trig cos_approx sin_approx.

Local Abbreviation generate :=
  (generate cos_approx sin_approx Number_toString).
Local Abbreviation main := (main cos_approx sin_approx Number_toString).
Local Abbreviation Math_cos := (Math_cos cos_approx).
Local Abbreviation Math_sin := (Math_sin sin_approx).
Local Abbreviation ring_body :=
  (ring_body cos_approx sin_approx Number_toString).
Local Abbreviation bottom_line :=
  (bottom_line cos_approx sin_approx Number_toString).
Local Abbreviation top_line :=
  (top_line cos_approx sin_approx Number_toString).
Local Abbreviation fmt := (fmt Number_toString).
Local Abbreviation vertex_line := (vertex_line Number_toString).
Local Abbreviation vertex_line_of := (vertex_line_of Number_toString).
Local Abbreviation normal_line := (normal_line Number_toString).
Local Abbreviation normal_line_of := (normal_line_of Number_toString).
Local Abbreviation side_normal_body := (side_normal_body Number_toString).
Local Abbreviation roof_body := (roof_body Number_toString).
Local Abbreviation floor_body := (floor_body Number_toString).
Local Abbreviation side_normal_lines :=
  (side_normal_lines cos_approx sin_approx Number_toString).
Local Abbreviation roof_normal_lines := (roof_normal_lines Number_toString).
Local Abbreviation floor_normal_lines := (floor_normal_lines Number_toString).
Local Abbreviation arrays_spec :=
  (arrays_spec cos_approx sin_approx Number_toString).
Local Abbreviation is_vertex_line := (is_vertex_line Number_toString).
Local Abbreviation is_normal_line := (is_normal_line Number_toString).
Local Abbreviation nombre_archivo := (nombre_archivo Number_toString).
Local Abbreviation header := (header Number_toString).
Local Abbreviation header_lines := (header_lines Number_toString).
Local Abbreviation file_lines := (file_lines Number_toString).
Local Abbreviation contenido := (contenido Number_toString).

Ltac fields := cbn [v vn f bottomVertices topVertices vReorganized].

Lemma ring_loop (sides : nat) (h r1 r2 : float) (k : nat) :
  for_loop k (ring_body sides h r1 r2) no_arrays =
  mk_arrays
    (flat_map (fun i => [bottom_line sides r1 i; top_line sides h r2 i])
              (seq 0 k))
    [] []
    (map (bottom_vertex sides r1) (seq 0 k))
    (map (top_vertex sides h r2) (seq 0 k))
    [].
Proof.
  induction k as [|k IH].
  - reflexivity.
  - rewrite for_loop_S, IH, seq_S, flat_map_app, !map_app.
    cbn [flat_map map]. rewrite app_nil_r.
    unfold Generator.ring_body, push_v, push_topVertices, push_bottomVertices.
    fields. rewrite <- app_assoc. reflexivity.
Qed.

Lemma regroup_bottom_loop (a : arrays) (k : nat) :
  for_loop k regroup_bottom_body a =
  mk_arrays (v a) (vn a) (f a) (bottomVertices a) (topVertices a)
    (vReorganized a ++ map (fun i => nth (i * 2) (v a) EmptyString) (seq 0 k)).
Proof.
  induction k as [|k IH].
  - cbn. rewrite app_nil_r. destruct a; reflexivity.
  - rewrite for_loop_S, IH, seq_S, map_app, app_assoc. reflexivity.
Qed.

Lemma regroup_top_loop (a : arrays) (k : nat) :
  for_loop k regroup_top_body a =
  mk_arrays (v a) (vn a) (f a) (bottomVertices a) (topVertices a)
    (vReorganized a
       ++ map (fun i => nth (i * 2 + 1) (v a) EmptyString) (seq 0 k)).
Proof.
  induction k as [|k IH].
  - cbn. rewrite app_nil_r. destruct a; reflexivity.
  - rewrite for_loop_S, IH, seq_S, map_app, app_assoc. reflexivity.
Qed.

(** The reads of the two rings succeed at every turn, so the loop of the
    side normals never throws. *)
Lemma side_normal_loop (sides : nat) (h r1 r2 : float) (a : arrays) (k : nat) :
  bottomVertices a = map (bottom_vertex sides r1) (seq 0 sides) ->
  topVertices a = map (top_vertex sides h r2) (seq 0 sides) ->
  k <= sides ->
  for_loop_throwing k (side_normal_body sides) a =
  Some (mk_arrays (v a)
          (vn a ++ map (fun i => normal_line_of (side_normal sides h r1 r2 i))
                       (seq 0 k))
          (f a) (bottomVertices a) (topVertices a) (vReorganized a)).
Proof.
  intros Hb Ht. induction k as [|k IH]; intros Hk.
  - cbn. rewrite app_nil_r. destruct a; reflexivity.
  - rewrite for_loop_throwing_S, IH by lia.
    unfold Generator.side_normal_body. fields.
    assert (Hj : (k + 1) mod sides < sides) by (apply Nat.mod_upper_bound; lia).
    rewrite Hb, Ht, !nth_error_map_seq by lia.
    rewrite seq_S, map_app, app_assoc. reflexivity.
Qed.

Lemma side_face_loop (sides : nat) (a : arrays) (k : nat) :
  for_loop k (side_face_body sides) a =
  mk_arrays (v a) (vn a)
    (f a ++ map face_line (flat_map (side_faces sides) (seq 0 k)))
    (bottomVertices a) (topVertices a) (vReorganized a).
Proof.
  induction k as [|k IH].
  - cbn. rewrite app_nil_r. destruct a; reflexivity.
  - rewrite for_loop_S, IH, seq_S, flat_map_app, map_app.
    cbn [flat_map map]. rewrite app_nil_r.
    unfold side_face_body, push_f. fields.
    rewrite <- !app_assoc. reflexivity.
Qed.

(** Each turn of the roof loop appends one normal and numbers its face
    with the new length of [vn]. *)
Lemma roof_loop (sides c : nat) (a : arrays) (k : nat) :
  for_loop k (roof_body sides c) a =
  mk_arrays (v a)
    (vn a ++ repeat (normal_line 0 1 0) k)
    (f a ++ map (fun i => face_line
                   (mk_face c (sides + 1 + (i + 1) mod sides) (sides + 1 + i)
                            (List.length (vn a) + i + 1)))
                (seq 0 k))
    (bottomVertices a) (topVertices a) (vReorganized a).
Proof.
  induction k as [|k IH].
  - cbn. rewrite !app_nil_r. destruct a; reflexivity.
  - rewrite for_loop_S, IH, seq_S, map_app.
    unfold Generator.roof_body, push_f, push_vn. fields. cbn [map].
    rewrite <- !app_assoc, !length_app, repeat_length.
    replace (repeat (normal_line 0 1 0) k ++ [normal_line 0 1 0])
      with (repeat (normal_line 0 1 0) (S k))
      by (rewrite <- repeat_cons; reflexivity).
    cbn [List.length Nat.add]. rewrite Nat.add_assoc. reflexivity.
Qed.

Lemma floor_loop (sides c : nat) (a : arrays) (k : nat) :
  for_loop k (floor_body sides c) a =
  mk_arrays (v a)
    (vn a ++ repeat (normal_line 0 (-1) 0) k)
    (f a ++ map (fun i => face_line
                   (mk_face c (1 + i) (1 + (i + 1) mod sides)
                            (List.length (vn a) + i + 1)))
                (seq 0 k))
    (bottomVertices a) (topVertices a) (vReorganized a).
Proof.
  induction k as [|k IH].
  - cbn. rewrite !app_nil_r. destruct a; reflexivity.
  - rewrite for_loop_S, IH, seq_S, map_app.
    unfold Generator.floor_body, push_f, push_vn. fields. cbn [map].
    rewrite <- !app_assoc, !length_app, repeat_length.
    replace (repeat (normal_line 0 (-1) 0) k ++ [normal_line 0 (-1) 0])
      with (repeat (normal_line 0 (-1) 0) (S k))
      by (rewrite <- repeat_cons; reflexivity).
    cbn [List.length Nat.add]. rewrite Nat.add_assoc. reflexivity.
Qed.

(** [generate] never throws, and fills the arrays with the closed forms. *)
Lemma generate_spec (sides : nat) (h r1 r2 : float) :
  generate sides h r1 r2 = Some (arrays_spec sides h r1 r2).
Proof.
  unfold Generator.generate.
  rewrite ring_loop, regroup_bottom_loop, regroup_top_loop. fields.
  unfold push_vReorganized. fields.
  rewrite (side_normal_loop sides h r1 r2) by (reflexivity || lia). fields.
  rewrite side_face_loop, roof_loop, floor_loop. fields.
  unfold Generator.arrays_spec, Generator.side_normal_lines,
    Generator.roof_normal_lines, Generator.floor_normal_lines,
    side_face_lines, roof_face_lines, floor_face_lines.
  cbn [app]. rewrite !length_app, !repeat_length, !length_map, !length_seq.
  rewrite <- !app_assoc, !map_map. cbn [app].
  do 2 f_equal.
  - do 2 f_equal. apply map_seq_ext. intros i Hi. unfold floor_face.
    do 2 f_equal. lia.
  - f_equal; [|f_equal]; apply map_seq_ext; intros i Hi;
      apply (nth_interleaved _ _ EmptyString sides i Hi).
Qed.

(** *** Lengths and positions in the closed forms *)

Lemma length_side_faces (sides k : nat) :
  List.length (flat_map (side_faces sides) (seq 0 k)) = 2 * k.
Proof.
  induction k as [|k IH]; [reflexivity|].
  rewrite seq_S, flat_map_app, length_app, IH. cbn. lia.
Qed.

Lemma length_side_normal_lines (sides : nat) (h r1 r2 : float) :
  List.length (side_normal_lines sides h r1 r2) = sides.
Proof.
  unfold Generator.side_normal_lines. rewrite length_map. apply length_seq.
Qed.

Lemma length_side_face_lines (sides : nat) :
  List.length (side_face_lines sides) = 2 * sides.
Proof.
  unfold side_face_lines. rewrite length_map. apply length_side_faces.
Qed.

Lemma length_roof_face_lines (sides : nat) :
  List.length (roof_face_lines sides) = sides.
Proof.
  unfold roof_face_lines. rewrite !length_map. apply length_seq.
Qed.

Lemma length_floor_face_lines (sides : nat) :
  List.length (floor_face_lines sides) = sides.
Proof.
  unfold floor_face_lines. rewrite !length_map. apply length_seq.
Qed.

Lemma length_vReorganized (sides : nat) (h r1 r2 : float) :
  List.length (vReorganized (arrays_spec sides h r1 r2)) = 2 * sides + 2.
Proof.
  cbn [Generator.arrays_spec vReorganized].
  rewrite !length_app, !length_map, length_seq. cbn. lia.
Qed.

Lemma length_vn (sides : nat) (h r1 r2 : float) :
  List.length (vn (arrays_spec sides h r1 r2)) = 3 * sides.
Proof.
  cbn [Generator.arrays_spec vn].
  rewrite !length_app, length_side_normal_lines.
  unfold Generator.roof_normal_lines, Generator.floor_normal_lines.
  rewrite !repeat_length. lia.
Qed.

Lemma length_f (sides : nat) (h r1 r2 : float) :
  List.length (f (arrays_spec sides h r1 r2)) = 4 * sides.
Proof.
  cbn [Generator.arrays_spec f].
  rewrite !length_app, length_side_face_lines, length_roof_face_lines,
    length_floor_face_lines. lia.
Qed.

(** Where the vertices are in [vReorganized], by 1-based index. *)
Lemma bottom_vertex_position (sides : nat) (h r1 r2 : float) (i : nat) :
  i < sides ->
  obj_index (vReorganized (arrays_spec sides h r1 r2)) (1 + i)
  = Some (bottom_line sides r1 i).
Proof.
  intros Hi. cbn [Generator.arrays_spec vReorganized obj_index Nat.add].
  rewrite nth_error_app1 by (rewrite length_map, length_seq; exact Hi).
  apply nth_error_map_seq. exact Hi.
Qed.

Lemma top_vertex_position (sides : nat) (h r1 r2 : float) (i : nat) :
  i < sides ->
  obj_index (vReorganized (arrays_spec sides h r1 r2)) (sides + 1 + i)
  = Some (top_line sides h r2 i).
Proof.
  intros Hi. replace (sides + 1 + i) with (S (sides + i)) by lia.
  cbn [Generator.arrays_spec vReorganized obj_index].
  rewrite nth_error_skip by (rewrite length_map; apply length_seq).
  rewrite nth_error_app1 by (rewrite length_map, length_seq; exact Hi).
  apply nth_error_map_seq. exact Hi.
Qed.

Lemma center_positions (sides : nat) (h r1 r2 : float) :
  obj_index (vReorganized (arrays_spec sides h r1 r2)) (2 * sides + 1)
  = Some (vertex_line 0 0 0)
  /\ obj_index (vReorganized (arrays_spec sides h r1 r2)) (2 * sides + 2)
     = Some (vertex_line 0 h 0).
Proof.
  replace (2 * sides + 1) with (S (sides + (sides + 0))) by lia.
  replace (2 * sides + 2) with (S (sides + (sides + 1))) by lia.
  cbn [Generator.arrays_spec vReorganized obj_index].
  rewrite !nth_error_skip by (rewrite length_map; apply length_seq).
  split; reflexivity.
Qed.

(** Where the normals are in [vn], by 1-based index. *)
Lemma side_normal_position (sides : nat) (h r1 r2 : float) (i : nat) :
  i < sides ->
  obj_index (vn (arrays_spec sides h r1 r2)) (1 + i)
  = Some (normal_line_of (side_normal sides h r1 r2 i)).
Proof.
  intros Hi. cbn [Generator.arrays_spec vn obj_index Nat.add].
  rewrite nth_error_app1 by (rewrite length_side_normal_lines; exact Hi).
  apply (nth_error_map_seq
           (fun i => normal_line_of (side_normal sides h r1 r2 i))). exact Hi.
Qed.

Lemma roof_normal_position (sides : nat) (h r1 r2 : float) (i : nat) :
  i < sides ->
  obj_index (vn (arrays_spec sides h r1 r2)) (sides + i + 1)
  = Some (normal_line 0 1 0).
Proof.
  intros Hi. replace (sides + i + 1) with (S (sides + i)) by lia.
  cbn [Generator.arrays_spec vn obj_index].
  rewrite nth_error_skip by apply length_side_normal_lines.
  rewrite nth_error_app1
    by (unfold Generator.roof_normal_lines; rewrite repeat_length; exact Hi).
  apply nth_error_repeat_lt. exact Hi.
Qed.

Lemma floor_normal_position (sides : nat) (h r1 r2 : float) (i : nat) :
  i < sides ->
  obj_index (vn (arrays_spec sides h r1 r2)) (2 * sides + i + 1)
  = Some (normal_line 0 (-1) 0).
Proof.
  intros Hi. replace (2 * sides + i + 1) with (S (sides + (sides + i))) by lia.
  cbn [Generator.arrays_spec vn obj_index].
  rewrite nth_error_skip by apply length_side_normal_lines.
  rewrite nth_error_skip
    by (unfold Generator.roof_normal_lines; apply repeat_length).
  apply nth_error_repeat_lt. exact Hi.
Qed.

(** Where the faces are in [f], by 0-based position. *)
Lemma side_face_positions (sides : nat) (h r1 r2 : float) (i : nat) :
  i < sides ->
  nth_error (f (arrays_spec sides h r1 r2)) (2 * i)
  = Some (face_line (mk_face (1 + i) (sides + 1 + i)
                             (1 + (i + 1) mod sides) (1 + i)))
  /\ nth_error (f (arrays_spec sides h r1 r2)) (2 * i + 1)
     = Some (face_line (mk_face (1 + (i + 1) mod sides) (sides + 1 + i)
                                (sides + 1 + (i + 1) mod sides) (1 + i))).
Proof.
  intros Hi. cbn [Generator.arrays_spec f].
  rewrite !nth_error_app1 by (rewrite length_side_face_lines; lia).
  unfold side_face_lines. rewrite !nth_error_map.
  replace (2 * i) with (i * 2) by lia.
  destruct (nth_error_interleaved
              (fun i => mk_face (1 + i) (sides + 1 + i)
                                (1 + (i + 1) mod sides) (1 + i))
              (fun i => mk_face (1 + (i + 1) mod sides) (sides + 1 + i)
                                (sides + 1 + (i + 1) mod sides) (1 + i))
              sides 0 i Hi) as [H1 H2].
  unfold side_faces. rewrite H1, H2. split; reflexivity.
Qed.

(** *** The keyword of each line *)

Lemma vReorganized_vertex_lines (sides : nat) (h r1 r2 : float) :
  Forall is_vertex_line (vReorganized (arrays_spec sides h r1 r2)).
Proof.
  cbn [Generator.arrays_spec vReorganized].
  rewrite !Forall_app. repeat split.
  - apply Forall_map, Forall_forall. intros i _. do 3 eexists. reflexivity.
  - apply Forall_map, Forall_forall. intros i _. do 3 eexists. reflexivity.
  - repeat constructor; do 3 eexists; reflexivity.
Qed.

Lemma vn_normal_lines (sides : nat) (h r1 r2 : float) :
  Forall is_normal_line (vn (arrays_spec sides h r1 r2)).
Proof.
  cbn [Generator.arrays_spec vn].
  rewrite !Forall_app. repeat split.
  - apply Forall_map, Forall_forall. intros i _. do 3 eexists. reflexivity.
  - apply Forall_forall. intros s Hs. apply repeat_spec in Hs. subst.
    do 3 eexists. reflexivity.
  - apply Forall_forall. intros s Hs. apply repeat_spec in Hs. subst.
    do 3 eexists. reflexivity.
Qed.

Lemma f_face_lines (sides : nat) (h r1 r2 : float) :
  Forall is_face_line (f (arrays_spec sides h r1 r2)).
Proof.
  cbn [Generator.arrays_spec f].
  unfold side_face_lines, roof_face_lines, floor_face_lines.
  rewrite !Forall_app. repeat split;
    apply Forall_map, Forall_forall; intros t _; eexists; reflexivity.
Qed.

Lemma keyword_of_vertex_line (s : string) :
  is_vertex_line s ->
  String.prefix "v " s = true /\ String.prefix "vn " s = false
  /\ String.prefix "f " s = false.
Proof.
  intros (x & y & z & ->). unfold Generator.vertex_line. repeat split.
  apply prefix_app.
Qed.

Lemma keyword_of_normal_line (s : string) :
  is_normal_line s ->
  String.prefix "v " s = false /\ String.prefix "vn " s = true
  /\ String.prefix "f " s = false.
Proof.
  intros (x & y & z & ->). unfold Generator.normal_line. repeat split.
  apply prefix_app.
Qed.

Lemma keyword_of_face_line (s : string) :
  is_face_line s ->
  String.prefix "v " s = false /\ String.prefix "vn " s = false
  /\ String.prefix "f " s = true.
Proof.
  intros (t & ->). unfold face_line. repeat split.
  apply prefix_app.
Qed.

Lemma count_vertex_lines (vs ns fs : list string) :
  Forall is_vertex_line vs -> Forall is_normal_line ns ->
  Forall is_face_line fs ->
  count_prefixed "v " (vs ++ ns ++ fs) = List.length vs
  /\ count_prefixed "vn " (vs ++ ns ++ fs) = List.length ns
  /\ count_prefixed "f " (vs ++ ns ++ fs) = List.length fs.
Proof.
  intros Hv Hn Hf. unfold count_prefixed. rewrite !filter_app.
  repeat split.
  - rewrite (filter_all _ vs), (filter_none _ ns), (filter_none _ fs).
    + rewrite app_nil_r. reflexivity.
    + eapply Forall_impl; [|exact Hf]. intros s H. apply keyword_of_face_line, H.
    + eapply Forall_impl; [|exact Hn]. intros s H. apply keyword_of_normal_line, H.
    + eapply Forall_impl; [|exact Hv]. intros s H. apply keyword_of_vertex_line, H.
  - rewrite (filter_none _ vs), (filter_all _ ns), (filter_none _ fs).
    + rewrite app_nil_r. reflexivity.
    + eapply Forall_impl; [|exact Hf]. intros s H. apply keyword_of_face_line, H.
    + eapply Forall_impl; [|exact Hn]. intros s H. apply keyword_of_normal_line, H.
    + eapply Forall_impl; [|exact Hv]. intros s H. apply keyword_of_vertex_line, H.
  - rewrite (filter_none _ vs), (filter_none _ ns), (filter_all _ fs).
    + reflexivity.
    + eapply Forall_impl; [|exact Hf]. intros s H. apply keyword_of_face_line, H.
    + eapply Forall_impl; [|exact Hn]. intros s H. apply keyword_of_normal_line, H.
    + eapply Forall_impl; [|exact Hv]. intros s H. apply keyword_of_vertex_line, H.
Qed.

(** *** Lines without line feeds *)

Section OneLine.
Hypothesis Number_toString_one_line : forall x, has_LF (Number_toString x) = false.
Lemma has_LF_fmt (x : float) : has_LF (fmt x) = false.
Proof.
  unfold Generator.fmt, JS.toFixed.
  destruct (negb (is_finite x)); [apply Number_toString_one_line|].
  cbv zeta.
  assert (Hs : has_LF (if (x <? 0)%float then "-" else "")%string = false)
    by (destruct (x <? 0)%float; reflexivity).
  destruct (_ <=? _)%float.
  - rewrite has_LF_app, Hs. apply Number_toString_one_line.
  - match goal with
    | |- context [if ?c then (JS.zeros ?k ++ ?m)%string else _] =>
        assert (Hm : has_LF (if c then (JS.zeros k ++ m)%string else m) = false)
          by (destruct c; [rewrite has_LF_app, has_LF_zeros|];
              apply has_LF_show_Z)
    end.
    rewrite !has_LF_app, Hs, !has_LF_substring by exact Hm. reflexivity.
Qed.

Lemma has_LF_vertex_line (s : string) : is_vertex_line s -> has_LF s = false.
Proof.
  intros (x & y & z & ->). unfold Generator.vertex_line.
  rewrite !has_LF_app, !has_LF_fmt. reflexivity.
Qed.

Lemma has_LF_normal_line (s : string) : is_normal_line s -> has_LF s = false.
Proof.
  intros (x & y & z & ->). unfold Generator.normal_line.
  rewrite !has_LF_app, !has_LF_fmt. reflexivity.
Qed.

Lemma has_LF_face_line (s : string) : is_face_line s -> has_LF s = false.
Proof.
  intros (t & ->). unfold face_line.
  rewrite !has_LF_app, !has_LF_show_nat. reflexivity.
Qed.

Lemma has_LF_header_lines (sides : nat) (h r1 r2 : float) (nv nn nf : nat) :
  Forall (fun s => has_LF s = false)
         (header_lines sides h r1 r2 nv nn nf).
Proof.
  unfold header_lines, nombre_archivo.
  repeat constructor;
    rewrite !has_LF_app, ?has_LF_show_nat, ?Number_toString_one_line;
    reflexivity.
Qed.


(** C10. The counts declared in the header of the file that [main] writes
    equal the numbers of vertex, normal and face lines in the body of that
    file: the third, fourth and fifth lines of the text state how many of
    the lines after the header start with [v], [vn] and [f]. *)
Theorem header_counts_match_body (args : list string) (name text : string) :
  main args = Wrote name text ->
  exists l1 l2 body,
    lines text
    = l1 :: l2
      :: ("# Vertices totales: "
            ++ JS.show_nat (count_prefixed "v " body))%string
      :: ("# Normales totales: "
            ++ JS.show_nat (count_prefixed "vn " body))%string
      :: ("# Caras totales: "
            ++ JS.show_nat (count_prefixed "f " body))%string
      :: EmptyString :: body.
Proof.
  unfold Generator.main. destruct (invalid _ _ _ _); [discriminate|].
  rewrite generate_spec. intros H. injection H as _ <-.
  set (sides := loop_bound (read_sides args)).
  set (a := arrays_spec sides (read_h args) (read_r1 args) (read_r2 args)).
  pose proof (vReorganized_vertex_lines sides (read_h args) (read_r1 args)
                (read_r2 args)) as Hv.
  pose proof (vn_normal_lines sides (read_h args) (read_r1 args)
                (read_r2 args)) as Hn.
  pose proof (f_face_lines sides (read_h args) (read_r1 args)
                (read_r2 args)) as Hf.
  fold a in Hv, Hn, Hf.
  destruct (count_vertex_lines _ _ _ Hv Hn Hf) as (Cv & Cn & Cf).
  unfold Generator.contenido, Generator.file_lines, Generator.header.
  rewrite concat_nested.
  - rewrite lines_concat.
    + do 2 eexists. exists (vReorganized a ++ vn a ++ f a).
      rewrite Cv, Cn, Cf. reflexivity.
    + discriminate.
    + rewrite !Forall_app. repeat split.
      * apply has_LF_header_lines.
      * repeat constructor.
      * eapply Forall_impl; [|exact Hv]. apply has_LF_vertex_line.
      * eapply Forall_impl; [|exact Hn]. apply has_LF_normal_line.
      * eapply Forall_impl; [|exact Hf]. apply has_LF_face_line.
  - discriminate.
  - subst a. cbn [Generator.arrays_spec vReorganized].
    intros E. apply (f_equal (@List.length string)) in E.
    rewrite !length_app in E. cbn in E. lia.
Qed.

End OneLine.

(** *** The face records behind the lines of [f] *)

Lemma f_is_faces (sides : nat) (h r1 r2 : float) :
  f (arrays_spec sides h r1 r2) = map face_line (faces sides).
Proof.
  cbn [Generator.arrays_spec f].
  unfold side_face_lines, roof_face_lines, floor_face_lines, faces.
  rewrite !map_app. reflexivity.
Qed.

Lemma nth_error_faces_side (sides i : nat) :
  i < sides ->
  nth_error (faces sides) (2 * i)
  = Some (mk_face (1 + i) (sides + 1 + i) (1 + (i + 1) mod sides) (1 + i))
  /\ nth_error (faces sides) (2 * i + 1)
     = Some (mk_face (1 + (i + 1) mod sides) (sides + 1 + i)
                     (sides + 1 + (i + 1) mod sides) (1 + i)).
Proof.
  intros Hi. unfold faces.
  rewrite !nth_error_app1 by (rewrite length_side_faces; lia).
  replace (2 * i) with (i * 2) by lia.
  apply (nth_error_interleaved
           (fun i => mk_face (1 + i) (sides + 1 + i)
                             (1 + (i + 1) mod sides) (1 + i))
           (fun i => mk_face (1 + (i + 1) mod sides) (sides + 1 + i)
                             (sides + 1 + (i + 1) mod sides) (1 + i))
           sides 0 i Hi).
Qed.

Lemma nth_error_faces_roof (sides i : nat) :
  i < sides -> nth_error (faces sides) (2 * sides + i) = Some (roof_face sides i).
Proof.
  intros Hi. unfold faces.
  rewrite nth_error_skip by apply length_side_faces.
  rewrite nth_error_app1 by (rewrite length_map, length_seq; exact Hi).
  apply nth_error_map_seq. exact Hi.
Qed.

Lemma nth_error_faces_floor (sides i : nat) :
  i < sides ->
  nth_error (faces sides) (3 * sides + i) = Some (floor_face sides i).
Proof.
  intros Hi. unfold faces.
  replace (3 * sides + i) with (2 * sides + (sides + i)) by lia.
  rewrite nth_error_skip by apply length_side_faces.
  rewrite nth_error_skip by (rewrite length_map; apply length_seq).
  apply nth_error_map_seq. exact Hi.
Qed.

Lemma length_faces (sides : nat) : List.length (faces sides) = 4 * sides.
Proof.
  unfold faces.
  rewrite !length_app, length_side_faces, !length_map, length_seq. lia.
Qed.

(** Every position of the face list is a side, roof or floor position. *)
Lemma faces_position_cases (sides p : nat) (t : face) :
  nth_error (faces sides) p = Some t ->
  (exists i, i < sides /\ (p = 2 * i \/ p = 2 * i + 1)
             /\ In t (side_faces sides i))
  \/ (exists i, i < sides /\ p = 2 * sides + i /\ t = roof_face sides i)
  \/ (exists i, i < sides /\ p = 3 * sides + i /\ t = floor_face sides i).
Proof.
  intros Hp.
  assert (Hlen : p < 4 * sides).
  { rewrite <- length_faces. apply nth_error_Some. rewrite Hp. discriminate. }
  destruct (Nat.lt_ge_cases p (2 * sides)) as [H2|H2].
  - left. exists (p / 2).
    assert (Hi : p / 2 < sides) by (apply Nat.Div0.div_lt_upper_bound; lia).
    destruct (nth_error_faces_side sides (p / 2) Hi) as [F1 F2].
    pose proof (Nat.div_mod_eq p 2) as Hd.
    pose proof (Nat.mod_upper_bound p 2 ltac:(lia)) as Hm.
    split; [exact Hi|].
    destruct (Nat.eq_dec (p mod 2) 0) as [E|E].
    + assert (Ep : p = 2 * (p / 2)) by lia.
      split; [left; exact Ep|]. rewrite Ep, F1 in Hp at 1.
      injection Hp as <-. left. reflexivity.
    + assert (Ep : p = 2 * (p / 2) + 1) by lia.
      split; [right; exact Ep|]. rewrite Ep, F2 in Hp at 1.
      injection Hp as <-. right. left. reflexivity.
  - destruct (Nat.lt_ge_cases p (3 * sides)) as [H3|H3].
    + right. left. exists (p - 2 * sides).
      assert (Hi : p - 2 * sides < sides) by lia.
      replace p with (2 * sides + (p - 2 * sides)) in Hp at 1 by lia.
      rewrite (nth_error_faces_roof _ _ Hi) in Hp. injection Hp as <-.
      repeat split; [exact Hi | lia].
    + right. right. exists (p - 3 * sides).
      assert (Hi : p - 3 * sides < sides) by lia.
      replace p with (3 * sides + (p - 3 * sides)) in Hp at 1 by lia.
      rewrite (nth_error_faces_floor _ _ Hi) in Hp. injection Hp as <-.
      repeat split; [exact Hi | lia].
Qed.

(** The normal index of the face at a position. *)
Lemma faces_normal_index (sides p : nat) (t : face) :
  nth_error (faces sides) p = Some t ->
  (p < 2 * sides /\ fn t = p / 2 + 1)
  \/ (2 * sides <= p /\ fn t = p - sides + 1).
Proof.
  intros Hp.
  destruct (faces_position_cases sides p t Hp)
    as [(i & Hi & Hpi & Hin) | [(i & Hi & -> & ->) | (i & Hi & -> & ->)]].
  - left. split; [lia|].
    assert (fn t = 1 + i) as ->.
    { destruct Hin as [<- | [<- | []]]; reflexivity. }
    assert (p / 2 = i) as ->; [|lia].
    destruct Hpi as [-> | ->].
    + rewrite Nat.mul_comm. apply Nat.div_mul. lia.
    + rewrite Nat.mul_comm, Nat.div_add_l by lia. cbn. lia.
  - right. cbn [roof_face fn]. lia.
  - right. cbn [floor_face fn]. lia.
Qed.

(** ** The claims about [generate] *)


(** C3. For every valid parameter set the vertex list holds the [sides]
    bottom-ring vertices in ring order, then the [sides] top-ring vertices
    in the same order, then exactly two centers: the bottom center
    [(0, 0, 0)] at 1-based position [2 sides + 1] and the top center
    [(0, h, 0)] at position [2 sides + 2]. *)
Theorem vertex_list_order (sides : nat) (h r1 r2 : float) :
  valid_parameters sides h r1 r2 ->
  exists a,
    generate sides h r1 r2 = Some a
    /\ bottomVertices a = map (bottom_vertex sides r1) (seq 0 sides)
    /\ topVertices a = map (top_vertex sides h r2) (seq 0 sides)
    /\ vReorganized a
       = map vertex_line_of (bottomVertices a)
         ++ map vertex_line_of (topVertices a)
         ++ [vertex_line_of (V3.create 0 0 0)%float;
             vertex_line_of (V3.create 0 h 0)%float]
    /\ (forall i, i < sides ->
          obj_index (vReorganized a) (1 + i)
          = option_map vertex_line_of (nth_error (bottomVertices a) i)
          /\ obj_index (vReorganized a) (sides + 1 + i)
             = option_map vertex_line_of (nth_error (topVertices a) i))
    /\ obj_index (vReorganized a) (2 * sides + 1) = Some (vertex_line 0 0 0)
    /\ obj_index (vReorganized a) (2 * sides + 2) = Some (vertex_line 0 h 0)
    /\ List.length (vReorganized a) = 2 * sides + 2.
Proof.
  intros _. exists (arrays_spec sides h r1 r2).
  split; [apply generate_spec|].
  split; [reflexivity|]. split; [reflexivity|].
  split.
  { cbn [Generator.arrays_spec vReorganized bottomVertices topVertices].
    rewrite !map_map. reflexivity. }
  split.
  { intros i Hi. rewrite bottom_vertex_position, top_vertex_position by exact Hi.
    cbn [Generator.arrays_spec bottomVertices topVertices].
    rewrite !nth_error_map_seq by exact Hi. split; reflexivity. }
  split; [apply center_positions|].
  split; [apply center_positions | apply length_vReorganized].
Qed.

(** C4. For every valid parameter set and every [i < sides], with
    [j = (i + 1) mod sides], the faces of side [i] are the two triangles
    [(bottom[i], top[i], bottom[j])] and [(bottom[j], top[i], top[j])], in
    that vertex order, at positions [2 i] and [2 i + 1] of the face list;
    the vertex indices are the positions of those ring vertices, and all
    six pairs carry the normal index [i + 1], the position of side
    normal [i]. *)
Theorem side_faces_of_position (sides : nat) (h r1 r2 : float) (i : nat) :
  valid_parameters sides h r1 r2 -> i < sides ->
  let j := (i + 1) mod sides in
  exists a bottom_i top_i bottom_j top_j,
    generate sides h r1 r2 = Some a
    /\ nth_error (f a) (2 * i)
       = Some (face_line (mk_face bottom_i top_i bottom_j (i + 1)))
    /\ nth_error (f a) (2 * i + 1)
       = Some (face_line (mk_face bottom_j top_i top_j (i + 1)))
    /\ obj_index (vReorganized a) bottom_i
       = option_map vertex_line_of (nth_error (bottomVertices a) i)
    /\ obj_index (vReorganized a) top_i
       = option_map vertex_line_of (nth_error (topVertices a) i)
    /\ obj_index (vReorganized a) bottom_j
       = option_map vertex_line_of (nth_error (bottomVertices a) j)
    /\ obj_index (vReorganized a) top_j
       = option_map vertex_line_of (nth_error (topVertices a) j)
    /\ bottom_i = 1 + i /\ top_i = sides + 1 + i
    /\ bottom_j = 1 + j /\ top_j = sides + 1 + j
    /\ obj_index (vn a) (i + 1)
       = Some (normal_line_of (side_normal sides h r1 r2 i)).
Proof.
  intros _ Hi j.
  assert (Hj : j < sides) by (apply Nat.mod_upper_bound; lia).
  exists (arrays_spec sides h r1 r2), (1 + i), (sides + 1 + i), (1 + j),
    (sides + 1 + j).
  destruct (side_face_positions sides h r1 r2 i Hi) as [F1 F2].
  split; [apply generate_spec|].
  replace (i + 1) with (1 + i) by lia.
  split; [exact F1|]. split; [exact F2|].
  rewrite !bottom_vertex_position, !top_vertex_position by assumption.
  cbn [Generator.arrays_spec bottomVertices topVertices].
  rewrite !nth_error_map_seq by assumption.
  repeat (split; [reflexivity|]).
  apply side_normal_position. exact Hi.
Qed.

(** C5. For every valid parameter set and every [i < sides], with
    [next = (i + 1) mod sides]: roof face [i] is the triangle
    [(top-center, top[next], top[i])] and carries a normal of its own,
    equal to [(0, 1, 0)], appended for it; floor face [i] is the triangle
    [(bottom-center, bottom[i], bottom[next])] and carries a normal of its
    own, equal to [(0, -1, 0)], appended for it; two different faces carry
    the same normal only if they are the two triangles of one side. *)
Theorem roof_and_floor_faces (sides : nat) (h r1 r2 : float) :
  valid_parameters sides h r1 r2 ->
  exists a,
    generate sides h r1 r2 = Some a
    /\ f a = map face_line (faces sides)
    /\ (forall i, i < sides ->
          let next := (i + 1) mod sides in
          nth_error (faces sides) (2 * sides + i)
          = Some (mk_face (2 * sides + 2) (sides + 1 + next) (sides + 1 + i)
                          (sides + i + 1))
          /\ obj_index (vn a) (sides + i + 1) = Some (normal_line 0 1 0)
          /\ nth_error (faces sides) (3 * sides + i)
             = Some (mk_face (2 * sides + 1) (1 + i) (1 + next)
                             (2 * sides + i + 1))
          /\ obj_index (vn a) (2 * sides + i + 1)
             = Some (normal_line 0 (-1) 0)
          /\ obj_index (vReorganized a) (sides + 1 + i)
             = option_map vertex_line_of (nth_error (topVertices a) i)
          /\ obj_index (vReorganized a) (sides + 1 + next)
             = option_map vertex_line_of (nth_error (topVertices a) next)
          /\ obj_index (vReorganized a) (1 + i)
             = option_map vertex_line_of (nth_error (bottomVertices a) i)
          /\ obj_index (vReorganized a) (1 + next)
             = option_map vertex_line_of (nth_error (bottomVertices a) next))
    /\ obj_index (vReorganized a) (2 * sides + 2) = Some (vertex_line 0 h 0)
    /\ obj_index (vReorganized a) (2 * sides + 1) = Some (vertex_line 0 0 0)
    /\ normal_line 0 1 0 = "vn 0.0000 1.0000 0.0000"%string
    /\ normal_line 0 (-1) 0 = "vn 0.0000 -1.0000 0.0000"%string
    /\ (forall c i a0,
          let a1 := roof_body sides c i a0 in
          vn a1 = vn a0 ++ [normal_line 0 1 0]
          /\ f a1 = f a0 ++ [face_line
                               (mk_face c (sides + 1 + (i + 1) mod sides)
                                        (sides + 1 + i) (List.length (vn a1)))])
    /\ (forall c i a0,
          let a1 := floor_body sides c i a0 in
          vn a1 = vn a0 ++ [normal_line 0 (-1) 0]
          /\ f a1 = f a0 ++ [face_line
                               (mk_face c (1 + i) (1 + (i + 1) mod sides)
                                        (List.length (vn a1)))])
    /\ (forall p q t1 t2,
          nth_error (faces sides) p = Some t1 ->
          nth_error (faces sides) q = Some t2 ->
          p <> q -> fn t1 = fn t2 ->
          p < 2 * sides /\ q < 2 * sides /\ p / 2 = q / 2).
Proof.
  intros _. exists (arrays_spec sides h r1 r2).
  split; [apply generate_spec|].
  split; [apply f_is_faces|].
  split.
  { intros i Hi next.
    assert (Hn : next < sides) by (apply Nat.mod_upper_bound; lia).
    split; [apply (nth_error_faces_roof sides i Hi)|].
    split; [apply roof_normal_position, Hi|].
    split; [apply (nth_error_faces_floor sides i Hi)|].
    split; [apply floor_normal_position, Hi|].
    rewrite !bottom_vertex_position, !top_vertex_position by assumption.
    cbn [Generator.arrays_spec bottomVertices topVertices].
    rewrite !nth_error_map_seq by assumption.
    repeat split; reflexivity. }
  split; [apply center_positions|].
  split; [apply center_positions|].
  split; [reflexivity|]. split; [reflexivity|].
  split; [intros c i a0; split; reflexivity|].
  split; [intros c i a0; split; reflexivity|].
  intros p q t1 t2 Hp Hq Hpq Hfn.
  destruct (faces_normal_index sides p t1 Hp) as [[Hp2 E1] | [Hp2 E1]];
    destruct (faces_normal_index sides q t2 Hq) as [[Hq2 E2] | [Hq2 E2]].
  - repeat split; [exact Hp2 | exact Hq2 | lia].
  - assert (p / 2 < sides) by (apply Nat.Div0.div_lt_upper_bound; lia). lia.
  - assert (q / 2 < sides) by (apply Nat.Div0.div_lt_upper_bound; lia). lia.
  - lia.
Qed.

(** C6, amended.  For every valid parameter set and every [i < sides], with
    [j = (i + 1) mod sides], side normal [i] is
    [normalize(cross(top[i] - bottom[i], bottom[j] - bottom[i]))] with the
    right-handed cross product, and the [sides] side normals are the first
    [sides] entries of the normal list, in the order of [i].  When moreover
    [h], [r1] and [r2] lie between [2 ^ -200] and [2 ^ 200], a parameter
    set that is then valid, and the cosines and sines of the host at ring
    positions [i] and [j] are at most 2 in magnitude and [2 ^ -10] apart in
    one coordinate, the magnitude that binary64 arithmetic computes for
    side normal [i] is within [1e-6] of one. *)
Theorem side_normals_formula (sides : nat) :
  (forall (h r1 r2 : float) (i : nat),
     valid_parameters sides h r1 r2 -> i < sides ->
     let j := (i + 1) mod sides in
     exists a Bi Ti Bj,
       generate sides h r1 r2 = Some a
       /\ nth_error (bottomVertices a) i = Some Bi
       /\ nth_error (topVertices a) i = Some Ti
       /\ nth_error (bottomVertices a) j = Some Bj
       /\ side_normal sides h r1 r2 i
          = V3.normalize (V3.cross (V3.subtract Ti Bi) (V3.subtract Bj Bi))
       /\ nth_error (vn a) i
          = Some (normal_line_of (side_normal sides h r1 r2 i))
       /\ firstn sides (vn a)
          = map (fun k => normal_line_of (side_normal sides h r1 r2 k))
                (seq 0 sides))
  /\ (forall (h r1 r2 : float) (i : nat),
        3 <= sides <= 36 -> i < sides ->
        moderate h = true -> moderate r1 = true -> moderate r2 = true ->
        well_placed sides i = true ->
        valid_parameters sides h r1 r2
        /\ unit_within_tolerance (side_normal sides h r1 r2 i) = true).
Proof.
  split.
  - intros h r1 r2 i _ Hi j.
    assert (Hj : j < sides) by (apply Nat.mod_upper_bound; lia).
    exists (arrays_spec sides h r1 r2), (bottom_vertex sides r1 i),
      (top_vertex sides h r2 i), (bottom_vertex sides r1 j).
    split; [apply generate_spec|].
    cbn [Generator.arrays_spec bottomVertices topVertices vn].
    rewrite !nth_error_map_seq by assumption.
    repeat (split; [reflexivity|]).
    split.
    + rewrite nth_error_app1 by (rewrite length_side_normal_lines; exact Hi).
      apply (nth_error_map_seq
               (fun k => normal_line_of (side_normal sides h r1 r2 k))).
      exact Hi.
    + rewrite firstn_app, length_side_normal_lines, Nat.sub_diag, firstn_O,
        app_nil_r.
      unfold Generator.side_normal_lines.
      apply firstn_all2. rewrite length_map, length_seq. lia.
  - intros h r1 r2 i Hs Hi Mh M1 M2 W. split.
    + split; [exact Hs|].
      repeat split; apply moderate_positive; assumption.
    + apply side_normal_unit; assumption.
Qed.

(** C7. For every valid parameter set, every face record has its three
    vertex indices within [1, 2 sides + 2], the number of vertices, and
    its normal index within [1, 3 sides], the number of normals. *)
Theorem face_indices_in_bounds (sides : nat) (h r1 r2 : float) :
  valid_parameters sides h r1 r2 ->
  exists a,
    generate sides h r1 r2 = Some a
    /\ f a = map face_line (faces sides)
    /\ List.length (vReorganized a) = 2 * sides + 2
    /\ List.length (vn a) = 3 * sides
    /\ Forall (face_in_bounds sides) (faces sides).
Proof.
  intros [[Hlo _] _]. exists (arrays_spec sides h r1 r2).
  split; [apply generate_spec|].
  split; [apply f_is_faces|].
  split; [apply length_vReorganized|].
  split; [apply length_vn|].
  apply Forall_forall. intros t Ht.
  apply In_nth_error in Ht as [p Hp].
  destruct (faces_position_cases sides p t Hp)
    as [(i & Hi & _ & Hin) | [(i & Hi & _ & ->) | (i & Hi & _ & ->)]];
    assert (Hj : (i + 1) mod sides < sides)
      by (apply Nat.mod_upper_bound; lia).
  - destruct Hin as [<- | [<- | []]]; unfold face_in_bounds;
      cbn [fv1 fv2 fv3 fn]; lia.
  - unfold face_in_bounds, roof_face; cbn [fv1 fv2 fv3 fn]; lia.
  - unfold face_in_bounds, floor_face; cbn [fv1 fv2 fv3 fn]; lia.
Qed.

(** C8. For every valid parameter set and every [i < sides], with
    [angle = (i / sides) * 2 * pi], bottom ring vertex [i] is
    [(r1 cos angle, 0, r1 sin angle)] and top ring vertex [i] is
    [(r2 cos angle, h, r2 sin angle)]; for [sides = 8], [h = 6.0],
    [r1 = 1.0], [r2 = 0.8] the first bottom vertex is printed
    [1.0000 0.0000 0.0000] and the first top vertex [0.8000 6.0000 0.0000]. *)
Theorem ring_vertices :
  (forall (sides : nat) (h r1 r2 : float) (i : nat),
     valid_parameters sides h r1 r2 -> i < sides ->
     let angle :=
       (float_of_nat i / float_of_nat sides * 2 * JS.Math_PI)%float in
     exists a,
       generate sides h r1 r2 = Some a
       /\ nth_error (bottomVertices a) i
          = Some (V3.create (r1 * Math_cos angle)%float 0%float
                            (r1 * Math_sin angle)%float)
       /\ nth_error (topVertices a) i
          = Some (V3.create (r2 * Math_cos angle)%float h
                            (r2 * Math_sin angle)%float)
       /\ obj_index (vReorganized a) (1 + i)
          = Some (vertex_line (r1 * Math_cos angle) 0 (r1 * Math_sin angle))
       /\ obj_index (vReorganized a) (sides + 1 + i)
          = Some (vertex_line (r2 * Math_cos angle) h (r2 * Math_sin angle)))
  /\ (exists a,
        generate 8 6 1 0x1.999999999999ap-1 = Some a
        /\ nth_error (bottomVertices a) 0 = Some (V3.create 1 0 0)%float
        /\ nth_error (topVertices a) 0
           = Some (V3.create 0x1.999999999999ap-1 6 0)%float
        /\ obj_index (vReorganized a) 1 = Some "v 1.0000 0.0000 0.0000"%string
        /\ obj_index (vReorganized a) 9
           = Some "v 0.8000 6.0000 0.0000"%string).
Proof.
  split.
  - intros sides h r1 r2 i _ Hi angle.
    exists (arrays_spec sides h r1 r2).
    split; [apply generate_spec|].
    rewrite (bottom_vertex_position sides h r1 r2 i Hi),
      (top_vertex_position sides h r1 r2 i Hi).
    cbn [Generator.arrays_spec bottomVertices topVertices].
    rewrite !nth_error_map_seq by exact Hi.
    repeat split; reflexivity.
  - exists (arrays_spec 8 6 1 0x1.999999999999ap-1).
    split; [apply generate_spec|].
    rewrite (bottom_vertex_position 8 _ _ _ 0) by lia.
    rewrite (top_vertex_position 8 _ _ _ 0 ltac:(lia)).
    cbn [Generator.arrays_spec bottomVertices topVertices].
    rewrite !nth_error_map_seq by lia.
    repeat split; vm_compute; reflexivity.
Qed.

(** X3. A height of [Infinity] passes the validation, and then the first
    component of every side normal is NaN, whatever the host computes for
    the cosines and sines: no such normal is a unit vector. *)
Theorem infinite_height_normal_is_NaN (sides : nat) (r1 r2 : float) (i : nat) :
  (infinity <=? 0)%float = false
  /\ V3.get0 (side_normal sides infinity r1 r2 i) = nan
  /\ unit_within_tolerance (side_normal sides infinity r1 r2 i) = false.
Proof.
  assert (N : V3.get0 (side_normal sides infinity r1 r2 i) = nan).
  { unfold side_normal, V3.normalize, V3.magnitude, V3.cross, V3.subtract,
      top_vertex, bottom_vertex.
    cbn [V3.get0 V3.get1 V3.get2 nadd nsub nmul ndiv nsqrt float_Number
         of_nat].
    replace (infinity - float_of_nat 0)%float with infinity by reflexivity.
    match goal with
    | |- (?x / PrimFloat.sqrt ?s)%float = nan =>
        assert (Hx : inf_or_nan x)
          by (apply inf_or_nan_sub, infinity_mul);
        apply (inf_or_nan_div x (PrimFloat.sqrt s) Hx);
        apply pinf_or_nan_sqrt, pinf_or_nan_add, pinf_or_nan_add,
          inf_or_nan_square, Hx
    end. }
  split; [reflexivity|]. split; [exact N|].
  apply nan_component_not_unit, N.
Qed.

(** ** The claims about [main] *)

Lemma main_unfold (args : list string) :
  main args =
  if invalid (read_sides args) (read_h args) (read_r1 args) (read_r2 args)
  then Rejected error_message
  else
    let sides := loop_bound (read_sides args) in
    Wrote (nombre_archivo sides (read_h args) (read_r1 args) (read_r2 args))
          (contenido sides (read_h args) (read_r1 args) (read_r2 args)
             (arrays_spec sides (read_h args) (read_r1 args) (read_r2 args))).
Proof.
  unfold Generator.main. destruct (invalid _ _ _ _); [reflexivity|].
  rewrite generate_spec. reflexivity.
Qed.

(** C2, amended.  [sides] is read with [parseInt] and the other three
    parameters with [parseFloat].  Whenever no integer can be read for
    [sides] or the integer read is outside [3, 36], or the number read
    for the height, the base radius or the top radius is at most zero,
    the program reports the error and returns without writing a file; so
    are rejected [sides = 2], [sides = 37], [height = 0] and
    [baseRadius = -1].  For [sides = 3.5] the integer read is 3, and the
    run goes on as for [sides = 3]: a file is written. *)
Theorem invalid_parameters_rejected :
  (forall args : list string,
     match read_sides args with
     | None => True
     | Some z => (z < 3)%Z \/ (36 < z)%Z
     end
     \/ (read_h args <=? 0)%float = true
     \/ (read_r1 args <=? 0)%float = true
     \/ (read_r2 args <=? 0)%float = true ->
     main args = Rejected error_message)
  /\ main ["2"%string] = Rejected error_message
  /\ main ["37"%string] = Rejected error_message
  /\ main ["8"%string; "0"%string] = Rejected error_message
  /\ main ["8"%string; "6"%string; "-1"%string] = Rejected error_message
  /\ JS.parseInt "3.5" = Some 3%Z
  /\ main ["3.5"%string] = main ["3"%string]
  /\ exists name text, main ["3.5"%string] = Wrote name text.
Proof.
  split; [|do 5 (split; [reflexivity|]); split].
  2:{ unfold Generator.main.
      change (read_sides ["3.5"%string]) with (read_sides ["3"%string]).
      reflexivity. }
  2:{ rewrite main_unfold. change (invalid _ _ _ _) with false.
      cbv iota. eexists _, _. reflexivity. }
  intros args H. rewrite main_unfold.
  replace (invalid _ _ _ _) with true; [reflexivity|].
  symmetry. unfold invalid, lt_const, gt_const, isNaN.
  destruct H as [H | [H | [H | H]]].
  - destruct (read_sides args) as [z|]; [|reflexivity].
    destruct H as [H | H].
    + apply Z.ltb_lt in H. rewrite H. reflexivity.
    + apply Z.gtb_lt in H. rewrite H, orb_true_r. reflexivity.
  - rewrite H. rewrite !orb_true_r. reflexivity.
  - rewrite H. rewrite !orb_true_r. reflexivity.
  - rewrite H. rewrite !orb_true_r. reflexivity.
Qed.

(** X1. The arguments that read as a valid parameter set are never rejected:
    the file named after the four parameters is written, with the text
    made of the header and the three arrays. *)
Theorem valid_parameters_write_file (args : list string) (sides : nat) :
  read_sides args = Some (Z.of_nat sides) ->
  valid_parameters sides (read_h args) (read_r1 args) (read_r2 args) ->
  main args
  = Wrote (nombre_archivo sides (read_h args) (read_r1 args) (read_r2 args))
          (contenido sides (read_h args) (read_r1 args) (read_r2 args)
             (arrays_spec sides (read_h args) (read_r1 args) (read_r2 args))).
Proof.
  intros Hs V. rewrite main_unfold, Hs, (valid_parameters_pass _ _ _ _ V).
  cbn [loop_bound]. rewrite Nat2Z.id. reflexivity.
Qed.

(** X2. A height that is not a number passes the validation, since
    [NaN <= 0] is false: the run is not rejected and a file is written. *)
Theorem non_numeric_height_is_accepted :
  read_h ["8"; "abc"]%string = nan
  /\ invalid (read_sides ["8"; "abc"]%string) (read_h ["8"; "abc"]%string)
             (read_r1 ["8"; "abc"]%string) (read_r2 ["8"; "abc"]%string)
     = false
  /\ exists name text, main ["8"; "abc"]%string = Wrote name text.
Proof.
  split; [reflexivity|]. split; [reflexivity|].
  rewrite main_unfold.
  change (invalid _ _ _ _) with false. cbv iota. eexists _, _. reflexivity.
Qed.

(** ** Every run ends in one of two ways *)

(** X5. [main] never ends with an uncaught exception.  It reports the
    error and writes nothing exactly when no integer is read for [sides],
    or the integer read is outside [3, 36], or one of the three numbers
    read for [h], [r1] and [r2] is [<= 0].  In every other run [sides] is
    an integer from 3 to 36, each of [h], [r1] and [r2] is positive or is
    NaN (which the test lets through), and the file named after the four
    parameters is written with the text of the generated arrays. *)
Theorem main_rejects_or_writes (args : list string) :
  main args <> Threw
  /\ (main args = Rejected error_message <->
      match read_sides args with
      | None => True
      | Some z => (z < 3)%Z \/ (36 < z)%Z
      end
      \/ (read_h args <=? 0)%float = true
      \/ (read_r1 args <=? 0)%float = true
      \/ (read_r2 args <=? 0)%float = true)
  /\ (main args <> Rejected error_message ->
      exists sides a,
        read_sides args = Some (Z.of_nat sides) /\ 3 <= sides <= 36
        /\ ((0 <? read_h args)%float = true \/ read_h args = nan)
        /\ ((0 <? read_r1 args)%float = true \/ read_r1 args = nan)
        /\ ((0 <? read_r2 args)%float = true \/ read_r2 args = nan)
        /\ generate sides (read_h args) (read_r1 args) (read_r2 args) = Some a
        /\ main args
           = Wrote (nombre_archivo sides (read_h args) (read_r1 args)
                      (read_r2 args))
                   (contenido sides (read_h args) (read_r1 args)
                      (read_r2 args) a)).
Proof.
  rewrite main_unfold.
  assert (Hinv :
    invalid (read_sides args) (read_h args) (read_r1 args) (read_r2 args) = true
    <-> (match read_sides args with
         | None => True
         | Some z => (z < 3)%Z \/ (36 < z)%Z
         end
         \/ (read_h args <=? 0)%float = true
         \/ (read_r1 args <=? 0)%float = true
         \/ (read_r2 args <=? 0)%float = true)).
  { unfold invalid, lt_const, gt_const, isNaN.
    rewrite !orb_true_iff.
    destruct (read_sides args) as [z|].
    - rewrite Z.ltb_lt, Z.gtb_lt. intuition discriminate.
    - intuition. }
  destruct (invalid _ _ _ _) eqn:E.
  - split; [discriminate|]. split.
    + split; [intros _; apply Hinv; reflexivity | reflexivity].
    + intros C. contradiction C. reflexivity.
  - cbv zeta. split; [discriminate|]. split.
    + split; [discriminate|]. intros C. apply Hinv in C. discriminate.
    + intros _.
      unfold invalid, lt_const, gt_const, isNaN in E.
      destruct (read_sides args) as [z|]; [|cbn in E; discriminate].
      rewrite !orb_false_iff in E.
      destruct E as [[[[[E1 E2] _] Eh] Er1] Er2].
      apply Z.ltb_ge in E1. rewrite Z.gtb_ltb in E2. apply Z.ltb_ge in E2.
      exists (Z.to_nat z),
        (arrays_spec (Z.to_nat z) (read_h args) (read_r1 args) (read_r2 args)).
      rewrite Z2Nat.id by lia.
      split; [reflexivity|]. split; [lia|].
      split; [apply not_le_zero, Eh|].
      split; [apply not_le_zero, Er1|].
      split; [apply not_le_zero, Er2|].
      split; [apply generate_spec | reflexivity].
Qed.

(** ** The arguments *)

Lemma argument_padded {A : Type} (args : list string) (n k : nat)
    (parse : string -> A) (fallback : A) :
  argument (args ++ repeat ""%string n) k parse fallback
  = argument args k parse fallback.
Proof.
  unfold argument.
  destruct (Nat.lt_ge_cases k (List.length args)) as [Hk|Hk].
  - rewrite nth_error_app1 by exact Hk. reflexivity.
  - rewrite nth_error_app2 by exact Hk.
    rewrite (proj2 (nth_error_None args k) Hk).
    destruct (nth_error (repeat ""%string n) (k - List.length args))
      as [s|] eqn:E; [|reflexivity].
    apply nth_error_In, repeat_spec in E. subst s. reflexivity.
Qed.

Lemma argument_extra {A : Type} (args extra : list string) (k : nat)
    (parse : string -> A) (fallback : A) :
  k < List.length args ->
  argument (args ++ extra) k parse fallback = argument args k parse fallback.
Proof.
  intros Hk. unfold argument. rewrite nth_error_app1 by exact Hk. reflexivity.
Qed.

(** X6. An argument that is left out and an argument that is the empty
    text are the same to [main]: both take the default.  Arguments after
    the fourth are ignored.  The defaults are 8 sides, height 6 and radii
    1 and 0.8: a run without arguments is the run with these four. *)
Theorem absent_and_surplus_arguments :
  (forall (args : list string) (n : nat),
     main (args ++ repeat ""%string n) = main args)
  /\ (forall args extra : list string,
        4 <= List.length args -> main (args ++ extra) = main args)
  /\ main [] = main ["8"; "6"; "1"; "0.8"]%string.
Proof.
  split; [|split].
  - intros args n. unfold Generator.main, read_sides, read_h, read_r1, read_r2.
    rewrite !argument_padded. reflexivity.
  - intros args extra Hl.
    unfold Generator.main, read_sides, read_h, read_r1, read_r2.
    rewrite !argument_extra by lia. reflexivity.
  - unfold Generator.main.
    change (read_sides ["8"; "6"; "1"; "0.8"]%string) with (read_sides []).
    replace (read_h ["8"; "6"; "1"; "0.8"]%string) with (read_h [])
      by (vm_compute; reflexivity).
    replace (read_r1 ["8"; "6"; "1"; "0.8"]%string) with (read_r1 [])
      by (vm_compute; reflexivity).
    replace (read_r2 ["8"; "6"; "1"; "0.8"]%string) with (read_r2 [])
      by (vm_compute; reflexivity).
    reflexivity.
Qed.

Lemma read_sides_first (s : string) (rest : list string) (n : nat) :
  JS.parseInt s = Some (Z.of_nat n) ->
  read_sides (s :: rest) = Some (Z.of_nat n).
Proof.
  intros P. unfold read_sides, argument. cbn [nth_error].
  destruct (String.eqb_spec s "") as [E|E]; [|exact P].
  rewrite E in P. discriminate.
Qed.

(** X7. [parseInt] reads the decimal numeral of a natural number up to
    [2 ^ 53], the integers that binary64 numbers hold exactly, back as
    that number.  So the run whose only argument is the numeral of a
    number [n] from 3 to 36 is accepted with [sides = n] and the defaults
    for the rest, and writes the file whose name carries that numeral. *)
Theorem numeral_of_sides_is_read_back (n : nat) :
  ((Z.of_nat n <= 2 ^ 53)%Z ->
   JS.parseInt (JS.show_nat n) = Some (Z.of_nat n)
   /\ read_sides [JS.show_nat n] = Some (Z.of_nat n))
  /\ (3 <= n <= 36 ->
      exists a,
        generate n 6 1 0x1.999999999999ap-1 = Some a
        /\ main [JS.show_nat n]
           = Wrote (nombre_archivo n 6 1 0x1.999999999999ap-1)
                   (contenido n 6 1 0x1.999999999999ap-1 a)).
Proof.
  pose proof (parseInt_show_nat n) as P.
  pose proof (read_sides_first _ [] n P) as R.
  split; [intros _; split; [exact P|exact R]|].
  intros Hn. exists (arrays_spec n 6 1 0x1.999999999999ap-1).
  split; [apply generate_spec|].
  rewrite main_unfold, R.
  change (read_h [JS.show_nat n]) with 6%float.
  change (read_r1 [JS.show_nat n]) with 1%float.
  change (read_r2 [JS.show_nat n]) with 0x1.999999999999ap-1%float.
  rewrite (valid_parameters_pass n 6 1 0x1.999999999999ap-1)
    by (repeat split; (lia || reflexivity)).
  cbn [loop_bound]. rewrite Nat2Z.id. reflexivity.
Qed.

(** X8. [parseInt] stops at the decimal point, so a number of sides
    written with a fraction is truncated, whatever the fraction: the run
    is the run with the integer part; and up to [2 ^ 53], the integers
    that binary64 numbers hold exactly, the number read is the integer
    part itself. *)
Theorem fractional_sides_are_truncated (n : nat) (fraction : string)
    (rest : list string) :
  ((Z.of_nat n <= 2 ^ 53)%Z ->
   JS.parseInt (JS.show_nat n ++ "." ++ fraction) = Some (Z.of_nat n))
  /\ main ((JS.show_nat n ++ "." ++ fraction)%string :: rest)
     = main (JS.show_nat n :: rest).
Proof.
  pose proof (parseInt_fraction n fraction) as P.
  split; [intros _; exact P|].
  unfold Generator.main.
  rewrite (read_sides_first _ rest n P),
    (read_sides_first _ rest n (parseInt_show_nat n)).
  reflexivity.
Qed.

(** X9. The name of the file tells the number of sides: two runs with
    different numbers of sides never write to the same file, whatever the
    other parameters and however the host prints them. *)
Theorem file_name_tells_sides (sides sides' : nat)
    (h r1 r2 h' r1' r2' : float) :
  nombre_archivo sides h r1 r2 = nombre_archivo sides' h' r1' r2' ->
  sides = sides'.
Proof.
  unfold Generator.nombre_archivo. intros E.
  apply append_inj_l in E.
  apply (numeral_before "_"%char) in E; [|reflexivity].
  apply E.
Qed.

(** ** The lines of the file *)

Section Layout.
Hypothesis Number_toString_one_line : forall x, has_LF (Number_toString x) = false.

Lemma lines_contenido (sides : nat) (h r1 r2 : float) :
  lines (contenido sides h r1 r2 (arrays_spec sides h r1 r2))
  = header_lines sides h r1 r2 (2 * sides + 2) (3 * sides) (4 * sides)
      ++ EmptyString :: vReorganized (arrays_spec sides h r1 r2)
      ++ vn (arrays_spec sides h r1 r2) ++ f (arrays_spec sides h r1 r2).
Proof.
  unfold Generator.contenido, Generator.file_lines, Generator.header.
  rewrite length_vReorganized, length_vn, length_f.
  set (a := arrays_spec sides h r1 r2).
  rewrite concat_nested.
  - rewrite lines_concat.
    + rewrite <- app_assoc. reflexivity.
    + discriminate.
    + rewrite !Forall_app. repeat split.
      * apply (has_LF_header_lines Number_toString_one_line).
      * repeat constructor.
      * eapply Forall_impl; [|apply vReorganized_vertex_lines].
        apply (has_LF_vertex_line Number_toString_one_line).
      * eapply Forall_impl; [|apply vn_normal_lines].
        apply (has_LF_normal_line Number_toString_one_line).
      * eapply Forall_impl; [|apply f_face_lines].
        apply has_LF_face_line.
  - discriminate.
  - subst a. cbn [Generator.arrays_spec vReorganized].
    intros E. apply (f_equal (@List.length string)) in E.
    rewrite !length_app in E. cbn in E. lia.
Qed.

(** X10. The layout of the file that [main] writes, line by line: the
    first line names the file itself; the third, fourth and fifth state
    [2 sides + 2] vertices, [3 sides] normals and [4 sides] faces; the
    sixth is empty; then come the vertex lines, the normal lines and the
    face lines, in this order and as [generate] left them.  The text has
    [9 sides + 8] lines, and it does not end with a line feed: its last
    line is the last floor triangle. *)
Theorem file_text_layout (args : list string) (name text : string) :
  main args = Wrote name text ->
  exists sides a second,
    read_sides args = Some (Z.of_nat sides)
    /\ generate sides (read_h args) (read_r1 args) (read_r2 args) = Some a
    /\ lines text
       = ("# OBJ file " ++ name)%string :: second
         :: ("# Vertices totales: " ++ JS.show_nat (2 * sides + 2))%string
         :: ("# Normales totales: " ++ JS.show_nat (3 * sides))%string
         :: ("# Caras totales: " ++ JS.show_nat (4 * sides))%string
         :: EmptyString :: vReorganized a ++ vn a ++ f a
    /\ List.length (lines text) = 9 * sides + 8
    /\ last (lines text) EmptyString
       = face_line (mk_face (2 * sides + 1) sides 1 (3 * sides)).
Proof.
  rewrite main_unfold.
  destruct (invalid _ _ _ _) eqn:E; [discriminate|].
  cbv zeta. intros W. injection W as <- <-.
  unfold invalid, lt_const, gt_const, isNaN in E.
  destruct (read_sides args) as [z|]; [|cbn in E; discriminate].
  rewrite !orb_false_iff in E. destruct E as [[[[[E1 E2] _] _] _] _].
  apply Z.ltb_ge in E1. rewrite Z.gtb_ltb in E2. apply Z.ltb_ge in E2.
  cbn [loop_bound].
  set (sides := Z.to_nat z).
  assert (Hs : 3 <= sides) by (subst sides; lia).
  set (h := read_h args). set (r1 := read_r1 args). set (r2 := read_r2 args).
  exists sides, (arrays_spec sides h r1 r2). eexists.
  split; [subst sides; rewrite Z2Nat.id by lia; reflexivity|].
  split; [apply generate_spec|].
  pose proof (lines_contenido sides h r1 r2) as L.
  split; [rewrite L; reflexivity|].
  split.
  { rewrite L. unfold Generator.header_lines. cbn [app List.length].
    rewrite !length_app, length_vReorganized, length_vn, length_f. lia. }
  rewrite L.
  assert (F : exists l,
            f (arrays_spec sides h r1 r2)
            = l ++ [face_line (mk_face (2 * sides + 1) sides 1 (3 * sides))]).
  { cbn [Generator.arrays_spec f]. unfold floor_face_lines.
    destruct sides as [|n]; [lia|].
    rewrite seq_S, !map_app. cbn [map].
    eexists. rewrite !app_assoc. f_equal.
    unfold floor_face. cbn [Nat.add].
    replace (n + 1) with (S n) by lia. rewrite Nat.Div0.mod_same.
    do 3 f_equal; lia. }
  destruct F as [l ->].
  match goal with
  | |- last (?hs ++ ?e :: ?a ++ ?b ++ ?c ++ [?x]) _ = _ =>
      replace (hs ++ e :: a ++ b ++ c ++ [x])
        with ((hs ++ e :: a ++ b ++ c) ++ [x])
        by (rewrite <- !app_assoc; cbn [app]; rewrite <- !app_assoc;
            reflexivity)
  end.
  apply last_last.
Qed.

End Layout.

(** ** The arrays behind the file *)

(** X11. For every parameter set, regrouping loses no vertex and reads
    nothing past the end of [v]: [v] holds [2 sides] lines, bottom and top
    interleaved; line [2 i] of [v] is line [i] of [vReorganized] and line
    [2 i + 1] is line [sides + i]; so the first [2 sides] lines of
    [vReorganized] are the lines of [v] in another order. *)
Theorem regrouping_keeps_the_vertices (sides : nat) (h r1 r2 : float) :
  exists a,
    generate sides h r1 r2 = Some a
    /\ List.length (v a) = 2 * sides
    /\ (forall i, i < sides ->
          nth_error (v a) (2 * i) = nth_error (vReorganized a) i
          /\ nth_error (v a) (2 * i + 1) = nth_error (vReorganized a) (sides + i)
          /\ nth_error (v a) (2 * i) <> None
          /\ nth_error (v a) (2 * i + 1) <> None)
    /\ Permutation (v a) (firstn (2 * sides) (vReorganized a)).
Proof.
  exists (arrays_spec sides h r1 r2).
  split; [apply generate_spec|].
  cbn [Generator.arrays_spec v vReorganized].
  set (b := bottom_line sides r1).
  set (t := top_line sides h r2).
  clearbody b t.
  split.
  { clear. induction sides as [|n IH]; [reflexivity|].
    rewrite seq_S, flat_map_app, length_app, IH. cbn. lia. }
  split.
  { intros i Hi.
    destruct (nth_error_interleaved b t sides 0 i Hi) as [H1 H2].
    replace (2 * i) with (i * 2) by lia. rewrite H1, H2.
    rewrite nth_error_app1 by (rewrite length_map, length_seq; exact Hi).
    rewrite nth_error_skip by (rewrite length_map; apply length_seq).
    rewrite nth_error_app1 by (rewrite length_map, length_seq; exact Hi).
    rewrite !nth_error_map_seq by exact Hi.
    repeat split; discriminate. }
  rewrite app_assoc, firstn_app.
  rewrite firstn_all2 by (rewrite length_app, !length_map, !length_seq; lia).
  replace (2 * sides - _) with 0
    by (rewrite length_app, !length_map, !length_seq; lia).
  rewrite firstn_O, app_nil_r.
  apply interleaved_permutation.
Qed.

Lemma In_faces (sides : nat) (t : face) :
  In t (faces sides) ->
  exists i, i < sides
    /\ (In t (side_faces sides i) \/ t = roof_face sides i
        \/ t = floor_face sides i).
Proof.
  intros Ht. apply In_nth_error in Ht as [p Hp].
  destruct (faces_position_cases sides p t Hp)
    as [(i & Hi & _ & Hin) | [(i & Hi & _ & ->) | (i & Hi & _ & ->)]];
    exists i; auto.
Qed.

Lemma faces_In (sides i : nat) :
  i < sides ->
  (forall t, In t (side_faces sides i) -> In t (faces sides))
  /\ In (roof_face sides i) (faces sides)
  /\ In (floor_face sides i) (faces sides).
Proof.
  intros Hi. unfold faces.
  assert (Hs : In i (seq 0 sides)) by (apply in_seq; lia).
  repeat split.
  - intros t Ht. apply in_or_app. left. apply in_flat_map. exists i. auto.
  - apply in_or_app. right. apply in_or_app. left. apply in_map. exact Hs.
  - apply in_or_app. right. apply in_or_app. right. apply in_map. exact Hs.
Qed.

(** X12. For every valid parameter set the triangles form a closed
    surface with one orientation: every directed edge of a face belongs
    to that face alone, and the same edge walked the other way round
    belongs to exactly one face, its neighbour.  There are [6 sides]
    edges, so vertices minus edges plus faces is 2, as for a sphere. *)
Theorem faces_closed_surface (sides : nat) (h r1 r2 : float) :
  valid_parameters sides h r1 r2 ->
  exists a,
    generate sides h r1 r2 = Some a
    /\ f a = map face_line (faces sides)
    /\ (forall p q,
          In (p, q) (edges (faces sides)) ->
          count_edge (p, q) (edges (faces sides)) = 1
          /\ count_edge (q, p) (edges (faces sides)) = 1)
    /\ List.length (edges (faces sides)) = 2 * (6 * sides)
    /\ List.length (vReorganized a) + List.length (f a) = 6 * sides + 2.
Proof.
  intros [Hs _]. exists (arrays_spec sides h r1 r2).
  split; [apply generate_spec|].
  split; [apply f_is_faces|].
  split.
  { intros p q Hin.
    pose proof (closed_surface_faces sides Hs) as C.
    unfold closed_surface in C. rewrite forallb_forall in C.
    specialize (C (p, q) Hin). cbn [fst snd] in C.
    apply andb_true_iff in C as [C1 C2].
    apply Nat.eqb_eq in C1, C2. split; assumption. }
  split.
  { rewrite length_edges, length_faces. lia. }
  rewrite length_vReorganized, length_f. lia.
Qed.

(** X13. For every valid parameter set no face is degenerate, and nothing
    written is left unused: the three vertex indices of every face are
    different, every vertex of the vertex list is a corner of some face,
    and every normal of the normal list is the normal of some face. *)
Theorem faces_use_every_vertex_and_normal (sides : nat) (h r1 r2 : float) :
  valid_parameters sides h r1 r2 ->
  exists a,
    generate sides h r1 r2 = Some a
    /\ f a = map face_line (faces sides)
    /\ (forall t, In t (faces sides) ->
          fv1 t <> fv2 t /\ fv2 t <> fv3 t /\ fv3 t <> fv1 t)
    /\ List.length (vReorganized a) = 2 * sides + 2
    /\ (forall k, 1 <= k <= 2 * sides + 2 ->
          exists t, In t (faces sides)
                    /\ (fv1 t = k \/ fv2 t = k \/ fv3 t = k))
    /\ List.length (vn a) = 3 * sides
    /\ (forall n, 1 <= n <= 3 * sides ->
          exists t, In t (faces sides) /\ fn t = n).
Proof.
  intros [Hs _]. exists (arrays_spec sides h r1 r2).
  split; [apply generate_spec|].
  split; [apply f_is_faces|].
  assert (Hstep : forall i, i < sides ->
            (i + 1) mod sides < sides /\ (i + 1) mod sides <> i).
  { intros i Hi. split; [apply Nat.mod_upper_bound; lia|].
    destruct (Nat.eq_dec (i + 1) sides) as [E|E].
    - rewrite E, Nat.Div0.mod_same. lia.
    - rewrite Nat.mod_small by lia. lia. }
  split.
  { intros t Ht. apply In_faces in Ht as (i & Hi & Hc).
    destruct (Hstep i Hi) as [Hj Hne].
    destruct Hc as [[<- | [<- | []]] | [-> | ->]];
      cbn [roof_face floor_face fv1 fv2 fv3]; lia. }
  split; [apply length_vReorganized|].
  split.
  { intros k Hk.
    destruct (Nat.le_gt_cases k sides) as [H1|H1].
    - exists (floor_face sides (k - 1)). split.
      + apply faces_In. lia.
      + right. left. cbn [floor_face fv2]. lia.
    - destruct (Nat.le_gt_cases k (2 * sides)) as [H2|H2].
      + exists (roof_face sides (k - sides - 1)). split.
        * apply faces_In. lia.
        * right. right. cbn [roof_face fv3]. lia.
      + destruct (Nat.eq_dec k (2 * sides + 1)) as [E|E].
        * exists (floor_face sides 0). split; [apply faces_In; lia|].
          left. cbn [floor_face fv1]. lia.
        * exists (roof_face sides 0). split; [apply faces_In; lia|].
          left. cbn [roof_face fv1]. lia. }
  split; [apply length_vn|].
  intros n Hn.
  destruct (Nat.le_gt_cases n sides) as [H1|H1].
  - exists (mk_face (1 + (n - 1)) (sides + 1 + (n - 1))
                    (1 + (n - 1 + 1) mod sides) (1 + (n - 1))).
    split; [|cbn [fn]; lia].
    apply (proj1 (faces_In sides (n - 1) ltac:(lia))). left. reflexivity.
  - destruct (Nat.le_gt_cases n (2 * sides)) as [H2|H2].
    + exists (roof_face sides (n - sides - 1)). split.
      * apply faces_In. lia.
      * cbn [roof_face fn]. lia.
    + exists (floor_face sides (n - 2 * sides - 1)). split.
      * apply faces_In. lia.
      * cbn [floor_face fn]. lia.
Qed.

(** ** The numbers as printed *)

(** X15. How [fmt] prints a number.  A value that is not finite is left
    to [Number::toString].  A finite value of magnitude below [1e21] is
    printed in fixed notation: a minus sign when it is below zero, then
    at least one digit, a point, and exactly four digits. *)
Theorem fmt_prints_four_decimals (x : float) :
  (is_finite x = false -> fmt x = Number_toString x)
  /\ (is_finite x = true ->
      (PrimFloat.abs x <? 0x1.b1ae4d6e2ef5p+69)%float = true ->
      exists ip fp,
        fmt x = ((if (x <? 0)%float then "-" else "") ++ ip ++ "." ++ fp)%string
        /\ 1 <= String.length ip /\ String.length fp = 4
        /\ digits_only ip = true /\ digits_only fp = true).
Proof.
  unfold Generator.fmt, JS.toFixed. split.
  - intros ->. reflexivity.
  - intros -> Hx. cbn [negb]. cbv zeta.
    rewrite (magnitude_below 0x1.b1ae4d6e2ef5p+69 x 0x1b1ae4d6e2ef50 17
               eq_refl Hx).
    set (m := JS.show_Z _).
    set (m' := if (String.length m <=? 4)%nat
               then (JS.zeros (4 + 1 - String.length m) ++ m)%string else m).
    assert (Hd : digits_only m' = true).
    { subst m'. destruct (_ <=? _)%nat.
      - rewrite digits_only_app, digits_only_zeros. apply digits_only_show_Z.
      - apply digits_only_show_Z. }
    assert (Hl : 5 <= String.length m').
    { subst m'. pose proof (length_show_Z (JS.scaled_round 4
        (if (x <? 0)%float then (- x)%float else x))) as L1. fold m in L1.
      destruct (Nat.leb_spec (String.length m) 4).
      - rewrite length_append, length_zeros. lia.
      - lia. }
    exists (substring 0 (String.length m' - 4) m'),
      (substring (String.length m' - 4) 4 m').
    split; [reflexivity|].
    rewrite !length_substring by lia.
    rewrite !digits_only_substring by exact Hd.
    repeat split; lia.
Qed.

(** ** A parameter that is not a number *)

Lemma side_normal_nan (sides : nat) (h r1 r2 : float) (i : nat) :
  h = nan \/ r1 = nan \/ r2 = nan ->
  side_normal sides h r1 r2 i = V3.create nan nan nan.
Proof.
  intros H.
  unfold side_normal, V3.normalize, V3.magnitude, V3.cross, V3.subtract,
    top_vertex, bottom_vertex.
  cbn [V3.get0 V3.get1 V3.get2 nadd nsub nmul ndiv nsqrt float_Number].
  destruct H as [-> | [-> | ->]]; nan_spreads; reflexivity.
Qed.

(** X20. A height or a radius that is NaN, which the validation lets
    through, spoils every side normal: whatever the host computes for the
    cosines and sines, the three components of every side normal are NaN,
    and the line written for it is [vn] followed by three times what
    [Number::toString] prints for NaN. *)
Theorem nan_parameter_spoils_the_normals (sides : nat) (h r1 r2 : float) :
  h = nan \/ r1 = nan \/ r2 = nan ->
  exists a,
    generate sides h r1 r2 = Some a
    /\ (forall i, i < sides ->
          side_normal sides h r1 r2 i = V3.create nan nan nan
          /\ nth_error (vn a) i = Some (normal_line nan nan nan))
    /\ normal_line nan nan nan
       = ("vn " ++ Number_toString nan ++ " " ++ Number_toString nan ++ " "
            ++ Number_toString nan)%string.
Proof.
  intros H. exists (arrays_spec sides h r1 r2).
  split; [apply generate_spec|]. split; [|reflexivity].
  intros i Hi. pose proof (side_normal_nan sides h r1 r2 i H) as N.
  split; [exact N|].
  pose proof (side_normal_position sides h r1 r2 i Hi) as P.
  cbn [obj_index Nat.add] in P. rewrite P, N. reflexivity.
Qed.

End Facts.

(** * The theorems on the host *)

Lemma Host_Number_toString_one_line (x : float) :
  has_LF (Host.Number_toString x) = false.
Proof.
  assert (Hp : forall y, has_LF (Host.toString_positive y) = false).
  { intros y. unfold Host.toString_positive.
    destruct (Host.digits_of_positive y) as [[s n] k].
    assert (Hd : has_LF (JS.show_Z s) = false) by apply has_LF_show_Z.
    assert (He : has_LF (Host.exponent_suffix n) = false).
    { unfold Host.exponent_suffix.
      rewrite !has_LF_app, has_LF_show_Z. destruct (_ <? _)%Z; reflexivity. }
    repeat match goal with
           | |- context [if ?c then _ else _] => destruct c
           end;
      rewrite !has_LF_app, ?has_LF_zeros, ?has_LF_substring, ?Hd, ?He
        by exact Hd;
      reflexivity. }
  unfold Host.Number_toString.
  repeat match goal with
         | |- context [if ?c then _ else _] => destruct c
         end;
    rewrite ?has_LF_app, ?Hp; reflexivity.
Qed.

(** The tool defaults: 8 sides, height 6, radii 1 and 0.8. *)
Lemma default_parameters_valid :
  valid_parameters 8 6 1 0x1.999999999999ap-1.
Proof. repeat split; (lia || reflexivity). Qed.


(** The triangular prism of the specification: 3 sides, height and radii 1. *)
Lemma vertex_list_order_witness :
  valid_parameters 3 1 1 1
  /\ exists a,
       Host.generate 3 1 1 1 = Some a
       /\ obj_index (vReorganized a) 7 = Some "v 0.0000 0.0000 0.0000"%string
       /\ obj_index (vReorganized a) 8 = Some "v 0.0000 1.0000 0.0000"%string
       /\ List.length (vReorganized a) = 8.
Proof.
  assert (V : valid_parameters 3 1 1 1) by (repeat split; (lia || reflexivity)).
  split; [exact V|].
  destruct (vertex_list_order Host.cos_approx Host.sin_approx
              Host.Number_toString 3 1 1 1 V)
    as (a & G & _ & _ & _ & _ & C1 & C2 & L).
  exists a. repeat split; assumption.
Defined.

(** The last side of the default mesh wraps around to the first ring
    position. *)
Lemma side_faces_of_position_witness :
  valid_parameters 8 6 1 0x1.999999999999ap-1 /\ 7 < 8
  /\ exists a,
       Host.generate 8 6 1 0x1.999999999999ap-1 = Some a
       /\ nth_error (f a) 14 = Some "f 8//8 16//8 1//8"%string
       /\ nth_error (f a) 15 = Some "f 1//8 16//8 9//8"%string.
Proof.
  pose proof default_parameters_valid as V.
  assert (I : 7 < 8) by lia.
  split; [exact V|]. split; [exact I|].
  destruct (side_faces_of_position Host.cos_approx Host.sin_approx
              Host.Number_toString 8 6 1 0x1.999999999999ap-1 7 V I)
    as (a & bi & ti & bj & tj & G & F1 & F2 & _ & _ & _ & _
          & -> & -> & -> & -> & _).
  exists a. repeat split; assumption.
Defined.

Lemma roof_and_floor_faces_witness :
  valid_parameters 8 6 1 0x1.999999999999ap-1
  /\ exists a,
       Host.generate 8 6 1 0x1.999999999999ap-1 = Some a
       /\ nth_error (f a) 16 = Some "f 18//9 10//9 9//9"%string
       /\ obj_index (vn a) 9 = Some "vn 0.0000 1.0000 0.0000"%string
       /\ nth_error (f a) 24 = Some "f 17//17 1//17 2//17"%string
       /\ obj_index (vn a) 17 = Some "vn 0.0000 -1.0000 0.0000"%string.
Proof.
  pose proof default_parameters_valid as V.
  split; [exact V|].
  destruct (roof_and_floor_faces Host.cos_approx Host.sin_approx
              Host.Number_toString 8 6 1 0x1.999999999999ap-1 V)
    as (a & G & F & P & _).
  destruct (P 0 ltac:(lia)) as (R & RN & L & LN & _).
  change (2 * 8 + 0) with 16 in R. change (3 * 8 + 0) with 24 in L.
  exists a. rewrite F, !nth_error_map, R, L.
  repeat split; assumption.
Defined.

Lemma side_normals_formula_witness :
  (valid_parameters 8 6 1 0x1.999999999999ap-1 /\ 0 < 8
   /\ exists a,
        Host.generate 8 6 1 0x1.999999999999ap-1 = Some a
        /\ nth_error (vn a) 0
           = Some (normal_line_of Host.Number_toString
                     (Host.side_normal 8 6 1 0x1.999999999999ap-1 0)))
  /\ (3 <= 8 <= 36 /\ moderate 6 = true /\ moderate 1 = true
      /\ moderate 0x1.999999999999ap-1 = true
      /\ @well_placed (Generator.float_Trig Host.cos_approx Host.sin_approx)
           8 0 = true
      /\ unit_within_tolerance
           (Host.side_normal 8 6 1 0x1.999999999999ap-1 0) = true).
Proof.
  pose proof default_parameters_valid as V.
  assert (I : 0 < 8) by lia.
  assert (S : 3 <= 8 <= 36) by lia.
  assert (Mh : moderate 6 = true) by reflexivity.
  assert (M1 : moderate 1 = true) by reflexivity.
  assert (M2 : moderate 0x1.999999999999ap-1 = true) by reflexivity.
  assert (W : @well_placed
                (Generator.float_Trig Host.cos_approx Host.sin_approx) 8 0
              = true) by (vm_compute; reflexivity).
  destruct (side_normals_formula Host.cos_approx Host.sin_approx
              Host.Number_toString 8) as [F E].
  split.
  - split; [exact V|]. split; [exact I|].
    destruct (F 6%float 1%float 0x1.999999999999ap-1%float 0 V I)
      as (a & Bi & Ti & Bj & G & _ & _ & _ & _ & N & _).
    exists a. split; assumption.
  - repeat (split; [assumption|]).
    exact (proj2 (E 6%float 1%float 0x1.999999999999ap-1%float 0
                    S I Mh M1 M2 W)).
Defined.

(** On the host above the ring positions of every admissible number of
    sides are well placed: the check runs on each of them. *)
Lemma host_rings_well_placed (sides i : nat) :
  3 <= sides <= 36 -> i < sides ->
  @well_placed (Generator.float_Trig Host.cos_approx Host.sin_approx)
    sides i = true.
Proof.
  intros [Hlo Hhi] Hi.
  assert (A : forallb
                (fun s =>
                   forallb
                     (@well_placed
                        (Generator.float_Trig Host.cos_approx Host.sin_approx)
                        s)
                     (seq 0 s))
                (seq 3 34) = true) by (vm_compute; reflexivity).
  rewrite forallb_forall in A.
  specialize (A sides ltac:(apply in_seq; lia)).
  rewrite forallb_forall in A.
  apply A, in_seq. lia.
Qed.

(** X21. On the host above, for every number of sides from 3 to 36 and
    every height and radii between [2 ^ -200] and [2 ^ 200], each side
    normal of the mesh has a magnitude, computed in binary64 arithmetic,
    within [1e-6] of one. *)
Theorem host_side_normals_unit (sides : nat) (h r1 r2 : float) (i : nat) :
  3 <= sides <= 36 -> i < sides ->
  moderate h = true -> moderate r1 = true -> moderate r2 = true ->
  unit_within_tolerance (Host.side_normal sides h r1 r2 i) = true.
Proof.
  intros Hs Hi Mh M1 M2. unfold Host.side_normal.
  apply side_normal_unit; try assumption.
  apply host_rings_well_placed; assumption.
Qed.

Lemma host_side_normals_unit_witness :
  3 <= 36 <= 36 /\ 35 < 36
  /\ moderate 0x1p-200 = true /\ moderate 0x1p+200 = true
  /\ moderate 1 = true
  /\ unit_within_tolerance (Host.side_normal 36 0x1p-200 0x1p+200 1 35)
     = true.
Proof.
  assert (S : 3 <= 36 <= 36) by lia.
  assert (I : 35 < 36) by lia.
  assert (Mh : moderate 0x1p-200 = true) by reflexivity.
  assert (M1 : moderate 0x1p+200 = true) by reflexivity.
  assert (M2 : moderate 1 = true) by reflexivity.
  repeat (split; [assumption|]).
  exact (host_side_normals_unit 36 0x1p-200 0x1p+200 1 35 S I Mh M1 M2).
Defined.

Lemma face_indices_in_bounds_witness :
  valid_parameters 8 6 1 0x1.999999999999ap-1
  /\ Forall (face_in_bounds 8) (faces 8).
Proof.
  pose proof default_parameters_valid as V.
  split; [exact V|].
  destruct (face_indices_in_bounds Host.cos_approx Host.sin_approx
              Host.Number_toString 8 6 1 0x1.999999999999ap-1 V)
    as (a & _ & _ & _ & _ & B).
  exact B.
Defined.

Lemma ring_vertices_witness :
  valid_parameters 8 6 1 0x1.999999999999ap-1 /\ 2 < 8
  /\ exists a,
       Host.generate 8 6 1 0x1.999999999999ap-1 = Some a
       /\ obj_index (vReorganized a) 3 = Some "v 0.0000 0.0000 1.0000"%string
       /\ obj_index (vReorganized a) 11 = Some "v 0.0000 6.0000 0.8000"%string.
Proof.
  pose proof default_parameters_valid as V.
  assert (I : 2 < 8) by lia.
  split; [exact V|]. split; [exact I|].
  destruct (proj1 (ring_vertices Host.cos_approx Host.sin_approx
                     Host.Number_toString)
              8 6%float 1%float 0x1.999999999999ap-1%float 2 V I)
    as (a & G & _ & _ & B & T).
  exists a. split; [exact G|]. split; [exact B | exact T].
Defined.

Lemma invalid_parameters_rejected_witness :
  (match read_sides ["2"%string] with
   | None => True
   | Some z => (z < 3)%Z \/ (36 < z)%Z
   end
   \/ (read_h ["2"%string] <=? 0)%float = true
   \/ (read_r1 ["2"%string] <=? 0)%float = true
   \/ (read_r2 ["2"%string] <=? 0)%float = true)
  /\ Host.main ["2"%string] = Rejected error_message.
Proof.
  assert (H : match read_sides ["2"%string] with
              | None => True
              | Some z => (z < 3)%Z \/ (36 < z)%Z
              end
              \/ (read_h ["2"%string] <=? 0)%float = true
              \/ (read_r1 ["2"%string] <=? 0)%float = true
              \/ (read_r2 ["2"%string] <=? 0)%float = true)
    by (left; left; reflexivity).
  split; [exact H|].
  exact (proj1 (invalid_parameters_rejected Host.cos_approx Host.sin_approx
                  Host.Number_toString) ["2"%string] H).
Defined.

Lemma header_counts_match_body_witness :
  exists name text l1 l2 body,
    Host.main [] = Wrote name text
    /\ lines text
       = l1 :: l2
         :: ("# Vertices totales: "
               ++ JS.show_nat (count_prefixed "v " body))%string
         :: ("# Normales totales: "
               ++ JS.show_nat (count_prefixed "vn " body))%string
         :: ("# Caras totales: "
               ++ JS.show_nat (count_prefixed "f " body))%string
         :: EmptyString :: body.
Proof.
  pose proof (main_unfold Host.cos_approx Host.sin_approx
                Host.Number_toString []) as E.
  change (invalid (read_sides []) (read_h []) (read_r1 []) (read_r2 []))
    with false in E.
  cbv iota zeta in E.
  destruct (header_counts_match_body Host.cos_approx Host.sin_approx
              Host.Number_toString Host_Number_toString_one_line [] _ _ E)
    as (l1 & l2 & body & L).
  eexists _, _, l1, l2, body. split; [exact E | exact L].
Defined.

Lemma valid_parameters_write_file_witness :
  read_sides [] = Some (Z.of_nat 8)
  /\ valid_parameters 8 (read_h []) (read_r1 []) (read_r2 [])
  /\ exists text, Host.main [] = Wrote "building_8_6_1_0.8.obj" text.
Proof.
  assert (Hs : read_sides [] = Some (Z.of_nat 8)) by reflexivity.
  pose proof default_parameters_valid as V.
  split; [exact Hs|]. split; [exact V|].
  eexists. unfold Host.main.
  rewrite (valid_parameters_write_file Host.cos_approx Host.sin_approx
             Host.Number_toString [] 8 Hs V).
  apply f_equal2; [vm_compute; reflexivity | reflexivity].
Defined.

Lemma side_normal_points_outward_witness :
  (0 < dot (side_normal 8 6 1 (4 / 5) 0) (bottom_vertex 8 1 0))%R.
Proof.
  apply side_normal_points_outward; (lia || lra).
Defined.

(** ** The further properties, on the host *)

Lemma main_rejects_or_writes_witness :
  Host.main [] <> Rejected error_message
  /\ exists sides a,
       read_sides [] = Some (Z.of_nat sides) /\ 3 <= sides <= 36
       /\ Host.generate sides (read_h []) (read_r1 []) (read_r2 []) = Some a
       /\ Host.main []
          = Wrote (nombre_archivo Host.Number_toString sides (read_h [])
                     (read_r1 []) (read_r2 []))
                  (contenido Host.Number_toString sides (read_h [])
                     (read_r1 []) (read_r2 []) a).
Proof.
  unfold Host.main, Host.generate.
  assert (N : main Host.cos_approx Host.sin_approx Host.Number_toString []
              <> Rejected error_message).
  { rewrite main_unfold.
    change (invalid (read_sides []) (read_h []) (read_r1 []) (read_r2 []))
      with false.
    discriminate. }
  split; [exact N|].
  destruct (main_rejects_or_writes Host.cos_approx Host.sin_approx
              Host.Number_toString []) as (_ & _ & W).
  destruct (W N) as (sides & a & S & B & _ & _ & _ & G & M).
  exists sides, a. split; [exact S|]. split; [exact B|].
  split; [exact G | exact M].
Defined.

Lemma absent_and_surplus_arguments_witness :
  4 <= List.length ["3"; "2"; "1"; "1"]%string
  /\ Host.main (["3"; "2"; "1"; "1"]%string ++ ["5"; "7"]%string)%list
     = Host.main ["3"; "2"; "1"; "1"]%string.
Proof.
  assert (L : 4 <= List.length ["3"; "2"; "1"; "1"]%string) by (cbn; lia).
  split; [exact L|].
  exact (proj1 (proj2 (absent_and_surplus_arguments Host.cos_approx
                         Host.sin_approx Host.Number_toString)) _ _ L).
Defined.

Lemma numeral_of_sides_is_read_back_witness :
  ((Z.of_nat 12 <= 2 ^ 53)%Z /\ JS.parseInt "12" = Some 12%Z)
  /\ 3 <= 12 <= 36
  /\ exists text, Host.main ["12"%string] = Wrote "building_12_6_1_0.8.obj" text.
Proof.
  assert (B : 3 <= 12 <= 36) by lia.
  assert (S : (Z.of_nat 12 <= 2 ^ 53)%Z) by (vm_compute; discriminate).
  destruct (numeral_of_sides_is_read_back Host.cos_approx Host.sin_approx
              Host.Number_toString 12) as (V & W).
  split; [split; [exact S|exact (proj1 (V S))]|].
  split; [exact B|].
  destruct (W B) as (a & _ & M).
  eexists. unfold Host.main.
  change ["12"%string] with [JS.show_nat 12].
  rewrite M. apply f_equal2; [vm_compute; reflexivity | reflexivity].
Defined.

Lemma fractional_sides_are_truncated_witness :
  (Z.of_nat 3 <= 2 ^ 53)%Z
  /\ JS.parseInt "3.75" = Some 3%Z
  /\ Host.main ["3.75"; "2"]%string = Host.main ["3"; "2"]%string.
Proof.
  assert (S : (Z.of_nat 3 <= 2 ^ 53)%Z) by (vm_compute; discriminate).
  destruct (fractional_sides_are_truncated Host.cos_approx Host.sin_approx
              Host.Number_toString 3 "75" ["2"%string]) as (V & M).
  split; [exact S|]. split; [exact (V S)|exact M].
Defined.

(** The two zeros are printed alike, so the two names are the same text. *)
Lemma file_name_tells_sides_witness :
  nombre_archivo Host.Number_toString 8 0 1 1
  = nombre_archivo Host.Number_toString 8 (-0) 1 1
  /\ 8 = 8.
Proof.
  assert (E : nombre_archivo Host.Number_toString 8 0 1 1
              = nombre_archivo Host.Number_toString 8 (-0) 1 1)
    by (vm_compute; reflexivity).
  split; [exact E|].
  exact (file_name_tells_sides Host.Number_toString _ _ _ _ _ _ _ _ E).
Defined.

Lemma file_text_layout_witness :
  exists text a second,
    Host.main [] = Wrote "building_8_6_1_0.8.obj" text
    /\ Host.generate 8 (read_h []) (read_r1 []) (read_r2 []) = Some a
    /\ lines text
       = "# OBJ file building_8_6_1_0.8.obj"%string :: second
         :: "# Vertices totales: 18"%string
         :: "# Normales totales: 24"%string
         :: "# Caras totales: 32"%string
         :: EmptyString :: vReorganized a ++ vn a ++ f a
    /\ List.length (lines text) = 80
    /\ last (lines text) EmptyString = "f 17//24 8//24 1//24"%string.
Proof.
  pose proof (main_unfold Host.cos_approx Host.sin_approx
                Host.Number_toString []) as E.
  change (invalid (read_sides []) (read_h []) (read_r1 []) (read_r2 []))
    with false in E.
  cbv iota zeta in E.
  replace (nombre_archivo Host.Number_toString (loop_bound (read_sides []))
             (read_h []) (read_r1 []) (read_r2 []))
    with "building_8_6_1_0.8.obj"%string in E by (vm_compute; reflexivity).
  destruct (file_text_layout Host.cos_approx Host.sin_approx
              Host.Number_toString Host_Number_toString_one_line [] _ _ E)
    as (sides & a & second & S & G & L & N & F).
  assert (Hs : sides = 8).
  { change (read_sides []) with (Some 8%Z) in S. injection S as S. lia. }
  subst sides.
  eexists _, a, second. split; [exact E|]. split; [exact G|].
  split; [exact L|]. split; [exact N | exact F].
Defined.

Lemma regrouping_keeps_the_vertices_witness :
  0 < 8
  /\ exists a,
       Host.generate 8 6 1 0x1.999999999999ap-1 = Some a
       /\ List.length (v a) = 16
       /\ nth_error (v a) 1 = nth_error (vReorganized a) 8
       /\ Permutation (v a) (firstn 16 (vReorganized a)).
Proof.
  assert (I : 0 < 8) by lia.
  split; [exact I|].
  destruct (regrouping_keeps_the_vertices Host.cos_approx Host.sin_approx
              Host.Number_toString 8 6 1 0x1.999999999999ap-1)
    as (a & G & L & P & Q).
  exists a. split; [exact G|]. split; [exact L|].
  split; [exact (proj1 (proj2 (P 0 I))) | exact Q].
Defined.

Lemma faces_closed_surface_witness :
  valid_parameters 8 6 1 0x1.999999999999ap-1
  /\ In (1, 9) (edges (faces 8))
  /\ count_edge (1, 9) (edges (faces 8)) = 1
  /\ count_edge (9, 1) (edges (faces 8)) = 1.
Proof.
  pose proof default_parameters_valid as V.
  assert (I : In (1, 9) (edges (faces 8))) by (left; reflexivity).
  split; [exact V|]. split; [exact I|].
  destruct (faces_closed_surface Host.cos_approx Host.sin_approx
              Host.Number_toString 8 6 1 0x1.999999999999ap-1 V)
    as (a & _ & _ & C & _).
  exact (C 1 9 I).
Defined.

(** The top center, vertex 18 of the default mesh, is a corner of a face. *)
Lemma faces_use_every_vertex_and_normal_witness :
  valid_parameters 8 6 1 0x1.999999999999ap-1
  /\ 1 <= 18 <= 2 * 8 + 2
  /\ exists t, In t (faces 8) /\ (fv1 t = 18 \/ fv2 t = 18 \/ fv3 t = 18).
Proof.
  pose proof default_parameters_valid as V.
  assert (B : 1 <= 18 <= 2 * 8 + 2) by lia.
  split; [exact V|]. split; [exact B|].
  destruct (faces_use_every_vertex_and_normal Host.cos_approx Host.sin_approx
              Host.Number_toString 8 6 1 0x1.999999999999ap-1 V)
    as (a & _ & _ & _ & _ & U & _).
  exact (U 18 B).
Defined.

Lemma face_line_injective_witness :
  face_line (floor_face 8 0) = face_line (mk_face 17 1 2 17)
  /\ floor_face 8 0 = mk_face 17 1 2 17.
Proof.
  assert (E : face_line (floor_face 8 0) = face_line (mk_face 17 1 2 17))
    by reflexivity.
  split; [exact E | exact (face_line_injective _ _ E)].
Defined.

(** A negative number too small for four decimals keeps its sign. *)
Lemma fmt_prints_four_decimals_witness :
  is_finite (-0x1p-60) = true
  /\ (PrimFloat.abs (-0x1p-60) <? 0x1.b1ae4d6e2ef5p+69)%float = true
  /\ (exists ip fp,
        fmt Host.Number_toString (-0x1p-60)
        = ((if (-0x1p-60 <? 0)%float then "-" else "") ++ ip ++ "." ++ fp)%string
        /\ 1 <= String.length ip /\ String.length fp = 4
        /\ digits_only ip = true /\ digits_only fp = true)
  /\ fmt Host.Number_toString (-0x1p-60) = "-0.0000"%string.
Proof.
  assert (F : is_finite (-0x1p-60) = true) by reflexivity.
  assert (B : (PrimFloat.abs (-0x1p-60) <? 0x1.b1ae4d6e2ef5p+69)%float = true)
    by reflexivity.
  split; [exact F|]. split; [exact B|].
  split; [|vm_compute; reflexivity].
  exact (proj2 (fmt_prints_four_decimals Host.Number_toString (-0x1p-60)) F B).
Defined.

Lemma side_triangles_share_normal_witness :
  V3.normalize (triangle_normal (bottom_vertex 8 1%R 1)
                  (top_vertex 8 6%R (4 / 5)%R 0) (top_vertex 8 6%R (4 / 5)%R 1))
  = side_normal 8 6%R 1%R (4 / 5)%R 0.
Proof.
  apply (side_triangles_share_normal 8 6 1 (4 / 5) 0); (lia || lra).
Defined.

Lemma roof_and_floor_winding_witness :
  (0 < V3.get1 (triangle_normal (top_center 6%R) (top_vertex 8 6%R (4 / 5)%R 1)
                  (top_vertex 8 6%R (4 / 5)%R 0)))%R
  /\ (V3.get1 (triangle_normal bottom_center (bottom_vertex 8 1%R 0)
                 (bottom_vertex 8 1%R 1)) < 0)%R.
Proof.
  destruct (roof_and_floor_winding 8 6 1 (4 / 5) 0) as [(_ & R & _) (_ & L & _)];
    try (lia || lra).
  split; [exact R | exact L].
Defined.

Lemma rings_are_regular_polygons_witness :
  V3.magnitude (V3.subtract (bottom_vertex 8 1%R 0) (bottom_vertex 8 1%R 7))
  = (2 * 1 * sin (PI / INR 8))%R.
Proof.
  destruct (rings_are_regular_polygons 8 6 1 (4 / 5) 7) as (_ & _ & C & _);
    try (lia || lra).
  exact C.
Defined.

Lemma side_normal_tilt_witness :
  exists k, (0 < k)%R
    /\ V3.get1 (side_normal 8 6%R 1%R (4 / 5)%R 0) = (k * (1 - 4 / 5))%R.
Proof.
  apply (side_normal_tilt 8 6 1 (4 / 5) 0); (lia || lra).
Defined.

(** The arguments [8 abc]: the height read is NaN. *)
Lemma nan_parameter_spoils_the_normals_witness :
  (read_h ["8"; "abc"]%string = nan \/ 1%float = nan
   \/ 0x1.999999999999ap-1%float = nan)
  /\ exists a,
       Host.generate 8 (read_h ["8"; "abc"]%string) 1 0x1.999999999999ap-1
       = Some a
       /\ nth_error (vn a) 0 = Some "vn NaN NaN NaN"%string.
Proof.
  assert (H : read_h ["8"; "abc"]%string = nan \/ 1%float = nan
              \/ 0x1.999999999999ap-1%float = nan) by (left; reflexivity).
  split; [exact H|].
  destruct (nan_parameter_spoils_the_normals Host.cos_approx Host.sin_approx
              Host.Number_toString 8 _ _ _ H) as (a & G & P & L).
  exists a. split; [exact G|].
  destruct (P 0 ltac:(lia)) as [_ Q].
  rewrite Q, L. f_equal.
Defined.

(** ** Where the specification and the program part *)

(** Against C2: [parseInt] reads [3.5] as 3, a valid number of sides, and
    the file of the three-sided mesh is written. *)
Lemma sides_3_5_is_accepted :
  exists text,
    Host.main ["3.5"%string] = Wrote "building_3_6_1_0.8.obj" text
    /\ Host.main ["3.5"%string] = Host.main ["3"%string].
Proof. eexists. split; vm_compute; reflexivity. Qed.

(** Against C6: with a height and radii of [1e-200], a valid parameter
    set, the products of the cross product underflow to zero, the
    normal is [0 / 0] in every component, and the line written is NaN. *)
Lemma tiny_side_normal_is_not_unit :
  valid_parameters 3 (JS.parseFloat "1e-200") (JS.parseFloat "1e-200")
                   (JS.parseFloat "1e-200")
  /\ unit_within_tolerance
       (Host.side_normal 3 (JS.parseFloat "1e-200") (JS.parseFloat "1e-200")
                         (JS.parseFloat "1e-200") 0) = false
  /\ exists a,
       Host.generate 3 (JS.parseFloat "1e-200") (JS.parseFloat "1e-200")
                     (JS.parseFloat "1e-200") = Some a
       /\ nth_error (vn a) 0 = Some "vn NaN NaN NaN"%string.
Proof.
  split; [repeat split; (lia || (vm_compute; reflexivity))|].
  split; [vm_compute; reflexivity|].
  eexists. split; vm_compute; reflexivity.
Qed.
